(** * An RNN-Transducer in PyTorch: length tracking, temporal masking,
      the joint network and the greedy decoding loop of [model.py].

    Tensors are nested lists (the outermost list is dimension 0).  Code that
    can raise returns a [result]; the numeric kernels of the layers
    (convolution, normalisation, recurrent cells) are fields of the records
    that stand for the [nn.Module] objects, so every statement holds for all
    weights. *)

From Stdlib Require Import ZArith List Lia Bool QArith Reals Lra.
Import ListNotations.
Open Scope Z_scope.

(** ** Errors *)

(** The Python exceptions that the modelled code can raise. *)
Inductive error : Type :=
| ZeroDivisionError
| IndexError
| RuntimeError.

Inductive result (T : Type) : Type :=
| Ok (v : T)
| Err (e : error).

Arguments Ok {T} v.
Arguments Err {T} e.

Definition bind {T U : Type} (r : result T) (k : T -> result U) : result U :=
  match r with
  | Ok v => k v
  | Err e => Err e
  end.

Notation "x <- r ;; k" := (bind r (fun x => k))
  (at level 61, r at next level, right associativity).
Notation "' p <- r ;; k" := (bind r (fun res_ => match res_ with p => k end))
  (at level 61, p pattern, r at next level, right associativity).

Definition is_ok {T : Type} (r : result T) : bool :=
  match r with Ok _ => true | Err _ => false end.

Fixpoint mapM {T U : Type} (f : T -> result U) (l : list T) : result (list U) :=
  match l with
  | [] => Ok []
  | x :: l' => y <- f x ;; ys <- mapM f l' ;; Ok (y :: ys)
  end.

(** ** Layers of the convolution stack *)

(** The two entries of a [Conv2d] size tuple: index 0 is the feature
    (frequency) axis, index 1 the time axis of an NxCxDxT input. *)
Inductive axis : Type := ax0 | ax1.

Definition tuple_get (p : Z * Z) (dim : axis) : Z :=
  match dim with ax0 => fst p | ax1 => snd p end.

(** The layer kinds that [AcousticModel] puts in its [nn.Sequential]. *)
Inductive layer : Type :=
| Conv2d (in_channels out_channels : Z)
         (kernel_size stride padding dilation : Z * Z)
| BatchNorm2d (num_features : Z)
| ReLU
| Dropout (p : Q).

Definition is_Conv2d (l : layer) : bool :=
  match l with Conv2d _ _ _ _ _ _ => true | _ => false end.

(** Python's [//] on integers: floor division, [ZeroDivisionError] on a zero
    divisor.  [Z.div] rounds towards minus infinity as [//] does. *)
Definition floordiv (a b : Z) : result Z :=
  if b =? 0 then Err ZeroDivisionError else Ok (a / b).

(** [decrease_dim(x, layer, dim)] on a Python integer. *)
Definition decrease_dim (x : Z) (l : layer) (dim : axis) : result Z :=
  match l with
  | Conv2d _ _ kernel_size stride padding dilation =>
      let p := tuple_get padding dim in
      let d := tuple_get dilation dim in
      let f := tuple_get kernel_size dim in
      let s := tuple_get stride dim in
      q <- floordiv (x + 2 * p - d * (f - 1) - 1) s ;;
      Ok (q + 1)
  | _ => Ok x
  end.

(** [decrease_dim(lengths, layer)] on the integer tensor of lengths: the same
    arithmetic, element by element ([dim] defaults to 1), with [//] on
    tensors rounding towards minus infinity as it does on integers.  The
    entries are unbounded integers here; the [int64] entries of the tensor
    follow this arithmetic as long as nothing wraps around ([no_wrap]
    below). *)
Definition decrease_dim_lengths (lengths : list Z) (l : layer) : result (list Z) :=
  mapM (fun x => decrease_dim x l ax1) lengths.

(** [is_time_decrease(layer)]: probe the formula with 100. *)
Definition is_time_decrease (l : layer) : result bool :=
  y <- decrease_dim 100 l ax1 ;; Ok (negb (y =? 100)).

(** [MaskConv.output_time]. *)
Fixpoint output_time (layers : list layer) (x : Z) : result Z :=
  match layers with
  | [] => Ok x
  | l :: rest => x' <- decrease_dim x l ax1 ;; output_time rest x'
  end.

(** [MaskConv.output_dim]. *)
Fixpoint output_dim_loop (layers : list layer) (dim channels : Z) : result Z :=
  match layers with
  | [] => Ok (dim * channels)
  | l :: rest =>
      dim' <- decrease_dim dim l ax0 ;;
      output_dim_loop rest dim'
        (match l with Conv2d _ oc _ _ _ _ => oc | _ => channels end)
  end.

Definition output_dim (layers : list layer) (dim : Z) : result Z :=
  output_dim_loop layers dim 0.

(** The stack that [AcousticModel.__init__] builds. *)
Definition am_conv_layers (dropout : Q) : list layer :=
  [ Conv2d 1 32 (21, 11) (2, 2) (10, 5) (1, 1);
    BatchNorm2d 32; ReLU; Dropout dropout;
    Conv2d 32 32 (11, 11) (2, 1) (5, 5) (1, 1);
    BatchNorm2d 32; ReLU; Dropout dropout ].

(** *** The length formula as the specification words it *)

(** A transform descriptor: whether the transform is of the kind that carries
    time-axis geometry, and that geometry. *)
Record TransformDescriptor : Type := {
  td_affects_time : bool;
  td_padding : Z;
  td_dilation : Z;
  td_kernel : Z;
  td_stride : Z
}.

Definition describe (l : layer) : TransformDescriptor :=
  match l with
  | Conv2d _ _ k s p d =>
      {| td_affects_time := true; td_padding := snd p; td_dilation := snd d;
         td_kernel := snd k; td_stride := snd s |}
  | _ =>
      {| td_affects_time := false; td_padding := 0; td_dilation := 1;
         td_kernel := 1; td_stride := 1 |}
  end.

Definition output_length_spec (t : TransformDescriptor) (input_length : Z) : Z :=
  if td_affects_time t
  then (input_length + 2 * td_padding t
        - td_dilation t * (td_kernel t - 1) - 1) / td_stride t + 1
  else input_length.

(** The single-transform formula applied once per transform, in stack order. *)
Definition length_tracker_spec (ts : list TransformDescriptor) (input_length : Z) : Z :=
  fold_left (fun l t => output_length_spec t l) ts input_length.

Definition stride_ok (l : layer) : Prop :=
  td_stride (describe l) <> 0.

(** ** Scalars and tensors *)

(** The operations on tensor elements that the model uses.  The code runs on
    floating-point numbers; the development is generic in the element type
    and is instantiated with the integers and with the real numbers below. *)
Class Scalar (A : Type) : Type := {
  szero : A;
  sadd : A -> A -> A;
  ssub : A -> A -> A;
  smul : A -> A -> A;
  sexp : A -> A;
  slog : A -> A;
  sltb : A -> A -> bool
}.

Abbreviation vec A := (list A) (only parsing).
Abbreviation tensor2 A := (list (list A)) (only parsing).
Abbreviation tensor3 A := (list (list (list A))) (only parsing).
Abbreviation tensor4 A := (list (list (list (list A)))) (only parsing).

(** [x.size()] of a 4-D tensor, read off the first entry of each level. *)
Definition size4 {T : Type} (x : tensor4 T) : nat * nat * nat * nat :=
  let x0 := hd [] x in
  let x00 := hd [] x0 in
  (length x, length x0, length x00, length (hd [] x00)).

Definition size3 {T : Type} (x : tensor3 T) : nat * nat * nat :=
  let x0 := hd [] x in
  (length x, length x0, length (hd [] x0)).

(** A nested list is a tensor of the given shape. *)
Definition shape2 {T : Type} (n m : nat) (x : tensor2 T) : Prop :=
  length x = n /\ Forall (fun r => length r = m) x.

Definition shape3 {T : Type} (n m k : nat) (x : tensor3 T) : Prop :=
  length x = n /\ Forall (shape2 m k) x.

Definition shape4 {T : Type} (n c d t : nat) (x : tensor4 T) : Prop :=
  length x = n /\ Forall (shape3 c d t) x.

Definition get2 {T : Type} (x : tensor2 T) (i j : nat) : option T :=
  match nth_error x i with
  | Some r => nth_error r j
  | None => None
  end.

Definition get3 {T : Type} (x : tensor3 T) (i j k : nat) : option T :=
  match nth_error x i with
  | Some r => get2 r j k
  | None => None
  end.

Definition get4 {T : Type} (x : tensor4 T) (i j k l : nat) : option T :=
  match nth_error x i with
  | Some r => get3 r j k l
  | None => None
  end.

(** [l[i] = v] for an index in range. *)
Fixpoint set_nth {T : Type} (i : nat) (v : T) (l : list T) : list T :=
  match l, i with
  | [], _ => []
  | _ :: l', O => v :: l'
  | x :: l', S i' => x :: set_nth i' v l'
  end.

(** Broadcasting of one dimension: a dimension of the right size is taken as
    it is, a dimension of size 1 is repeated, anything else is refused. *)
Definition broadcast_to {T : Type} (n : nat) (l : list T) : result (list T) :=
  if Nat.eqb (length l) n then Ok l
  else match l with
       | [a] => Ok (repeat a n)
       | _ => Err RuntimeError
       end.

Definition zipM {T U V : Type} (f : T -> U -> result V)
    (l1 : list T) (l2 : list U) : result (list V) :=
  mapM (fun p : T * U => f (fst p) (snd p)) (combine l1 l2).

(** ** Temporal masking ([MaskConv.forward]) *)

Abbreviation mask4 := (list (list (list (list bool)))) (only parsing).

(** [row.narrow(0, start, len).fill_(1)] on the time axis of one mask row:
    [narrow] refuses a negative length and a start outside [-size, size],
    wraps a negative start, and refuses a window that ends beyond the row. *)
Definition narrow_fill (row : list bool) (start len : Z) : result (list bool) :=
  let size := Z.of_nat (length row) in
  if len <? 0 then Err RuntimeError
  else if (start <? - size) || (size <? start) then Err IndexError
  else
    let start' := if start <? 0 then start + size else start in
    if size - len <? start' then Err RuntimeError
    else Ok (firstn (Z.to_nat start') row
             ++ repeat true (Z.to_nat len)
             ++ skipn (Z.to_nat (start' + len)) row).

(** [mask[i].narrow(2, start, len).fill_(1)]: [mask[i]] has shape (1, 1, t). *)
Definition fill_sample (mi : tensor3 bool) (start len : Z) : result (tensor3 bool) :=
  mapM (mapM (fun row => narrow_fill row start len)) mi.

(** The loop [for i, length in enumerate(lengths)] of [MaskConv.forward]. *)
Fixpoint mask_loop (mask : mask4) (i : nat) (lengths : list Z) (t : Z)
  : result mask4 :=
  match lengths with
  | [] => Ok mask
  | start :: rest =>
      let len := t - start in
      mask' <- (if 0 <? len
                then match nth_error mask i with
                     | Some mi =>
                         mi' <- fill_sample mi start len ;;
                         Ok (set_nth i mi' mask)
                     | None => Err IndexError
                     end
                else Ok mask) ;;
      mask_loop mask' (S i) rest t
  end.

(** [torch.zeros((n, 1, 1, t), dtype=torch.bool)] followed by the loop. *)
Definition build_mask (n t : nat) (lengths : list Z) : result mask4 :=
  mask_loop (repeat [[repeat false t]] n) 0 lengths (Z.of_nat t).

(** The row that the mask is meant to hold for a sample of valid length
    [len]: true (padding) from [len] on. *)
Definition mask_row (t : nat) (len : Z) : list bool :=
  map (fun k => len <=? Z.of_nat k) (seq 0 t).

Section Masking.
Context {A : Type} `{Scalar A}.

Definition fill_row (value : A) (row : vec A) (m : list bool) : vec A :=
  map (fun p : A * bool => if snd p then value else fst p) (combine row m).

Definition masked_fill_row (value : A) (row : vec A) (m : list bool)
  : result (vec A) :=
  m' <- broadcast_to (length row) m ;;
  Ok (fill_row value row m').

(** [x.masked_fill(mask, value)]: the mask is broadcast to the shape of
    [x], dimension by dimension. *)
Definition masked_fill (value : A) (x : tensor4 A) (mask : mask4)
  : result (tensor4 A) :=
  m <- broadcast_to (length x) mask ;;
  zipM (fun xi mi =>
          mi' <- broadcast_to (length xi) mi ;;
          zipM (fun xij mij =>
                  mij' <- broadcast_to (length xij) mij ;;
                  zipM (masked_fill_row value) xij mij')
               xi mi')
       x m.

(** What masking is meant to do to one sample [fst p] of valid length
    [snd p]. *)
Definition mask_sample (value : A) (t : nat) (p : tensor3 A * Z) : tensor3 A :=
  map (map (fun r => fill_row value r (mask_row t (snd p)))) (fst p).

(** Lines 63 to 74 of [MaskConv.forward] for a layer that changed the time
    axis: size, fresh mask, fill. *)
Definition temporal_mask (x : tensor4 A) (lengths : list Z)
  : result (mask4 * tensor4 A) :=
  let '(n, _, _, t) := size4 x in
  mask <- build_mask n t lengths ;;
  y <- masked_fill szero x mask ;;
  Ok (mask, y).

(** A layer object: its kind and hyper-parameters, and its [forward]. *)
Definition module : Type := layer * (tensor4 A -> result (tensor4 A)).

Fixpoint forward_loop (layers : list module) (x : tensor4 A)
    (lengths : list Z) (mask : option mask4)
  : result (tensor4 A * list Z) :=
  match layers with
  | [] => Ok (x, lengths)
  | (l, layer_forward) :: rest =>
      x <- layer_forward x ;;
      td <- is_time_decrease l ;;
      if td then
        lengths <- decrease_dim_lengths lengths l ;;
        ' (mask, x) <- temporal_mask x lengths ;;
        forward_loop rest x lengths (Some mask)
      else
        x <- match mask with
             | Some m => masked_fill szero x m
             | None => Ok x
             end ;;
        forward_loop rest x lengths mask
  end.

(** [x.view(n, c * d, t).transpose(1, 2).transpose(0, 1)]: T x N x H. *)
Definition to_time_major (x : tensor4 A) : tensor3 A :=
  let '(_, _, _, t) := size4 x in
  map (fun tt => map (fun xi => map (fun row => nth tt row szero) (concat xi)) x)
      (seq 0 t).

Definition MaskConv_forward (layers : list module) (x : tensor4 A)
    (lengths : list Z) : result (tensor3 A * list Z) :=
  ' (x, lengths) <- forward_loop layers x lengths None ;;
  Ok (to_time_major x, lengths).

End Masking.

(** ** Packed sequences ([torch.nn.utils.rnn]) *)

(** [lengths] is in non-increasing order: the order that
    [pack_padded_sequence] asks for (equal neighbours are accepted). *)
Fixpoint sorted_decreasing (l : list Z) : bool :=
  match l with
  | a :: (b :: _) as l' => (b <=? a) && sorted_decreasing l'
  | _ => true
  end.

(** Number of samples that are still running at time step [t]. *)
Definition count_longer (lengths : list Z) (t : nat) : nat :=
  length (filter (fun l => Z.of_nat t <? l) lengths).

(** [torch.sort(lengths, descending=True)]: values paired with indices. *)
Fixpoint insert_desc (p : Z * nat) (l : list (Z * nat)) : list (Z * nat) :=
  match l with
  | [] => [p]
  | q :: l' => if fst q <=? fst p then p :: q :: l' else q :: insert_desc p l'
  end.

Definition sort_desc (lengths : list Z) : list (Z * nat) :=
  fold_right insert_desc [] (combine lengths (seq 0 (length lengths))).

Fixpoint index_of (j : nat) (l : list nat) : nat :=
  match l with
  | [] => 0
  | i :: l' => if Nat.eqb i j then 0 else S (index_of j l')
  end.

Definition invert_permutation (perm : list nat) : list nat :=
  map (fun j => index_of j perm) (seq 0 (length perm)).

Section Packing.
Context {A : Type} `{Scalar A}.

Record PackedSequence : Type := {
  ps_data : tensor2 A;
  ps_batch_sizes : list Z;
  ps_sorted_indices : option (list nat);
  ps_unsorted_indices : option (list nat)
}.

(** [input.index_select(1, indices)] on a T x N x F tensor. *)
Definition index_select_batch (input : tensor3 A) (indices : list nat) : tensor3 A :=
  map (fun step => map (fun i => nth i step []) indices) input.

(** The packing kernel.  It refuses an empty input, a [lengths] whose size
    is not the batch size, a last length that is not positive, and
    lengths that increase somewhere; the time slices it takes are clamped
    to the extent of the input. *)
Definition pack_kernel (input : tensor3 A) (lengths : list Z)
  : result (tensor2 A * list Z) :=
  let '(t, n, f) := size3 input in
  if Nat.eqb (t * n * f) 0 then Err RuntimeError
  else if negb (Nat.eqb (length lengths) n) then Err RuntimeError
  else if last lengths 0 <=? 0 then Err RuntimeError
  else if negb (sorted_decreasing lengths) then Err RuntimeError
  else
    let steps := seq 0 (Z.to_nat (hd 0 lengths)) in
    Ok (concat (map (fun k => firstn (count_longer lengths k) (nth k input []))
                    steps),
        map (fun k => Z.of_nat (count_longer lengths k)) steps).

(** [pack_padded_sequence(input, lengths, enforce_sorted=...)]. *)
Definition pack_padded_sequence (input : tensor3 A) (lengths : list Z)
    (enforce_sorted : bool) : result PackedSequence :=
  if enforce_sorted then
    ' (data, batch_sizes) <- pack_kernel input lengths ;;
    Ok {| ps_data := data; ps_batch_sizes := batch_sizes;
          ps_sorted_indices := None; ps_unsorted_indices := None |}
  else
    let sorted := sort_desc lengths in
    let sorted_indices := map snd sorted in
    ' (data, batch_sizes) <-
        pack_kernel (index_select_batch input sorted_indices) (map fst sorted) ;;
    Ok {| ps_data := data; ps_batch_sizes := batch_sizes;
          ps_sorted_indices := Some sorted_indices;
          ps_unsorted_indices := Some (invert_permutation sorted_indices) |}.

Fixpoint unpack_steps (data : tensor2 A) (batch_sizes : list Z)
    (n width : nat) : tensor3 A :=
  match batch_sizes with
  | [] => []
  | b :: rest =>
      (firstn (Z.to_nat b) data
       ++ repeat (repeat szero width) (n - Z.to_nat b))
      :: unpack_steps (skipn (Z.to_nat b) data) rest n width
  end.

(** [pad_packed_sequence(sequence)[0]]: the padded T x N x F tensor, in the
    original batch order.  The function is total here; the library raises
    when the batch sizes count more rows than [data] holds. *)
Definition pad_packed_sequence (p : PackedSequence) : tensor3 A :=
  let n := Z.to_nat (hd 0 (ps_batch_sizes p)) in
  let width := length (hd [] (ps_data p)) in
  let padded := unpack_steps (ps_data p) (ps_batch_sizes p) n width in
  match ps_unsorted_indices p with
  | Some unsorted => index_select_batch padded unsorted
  | None => padded
  end.

End Packing.

Arguments PackedSequence A : clear implicits.

(** ** The acoustic encoder ([AcousticModel]) *)

Section Encoder.
Context {A : Type} `{Scalar A}.

Definition add_vec (x y : vec A) : vec A :=
  map (fun p : A * A => sadd (fst p) (snd p)) (combine x y).

Definition sum_vec (x : vec A) : A := fold_left sadd x szero.

(** [log_softmax(z, dim=-1)] on one vector. *)
Definition log_softmax (z : vec A) : vec A :=
  let lse := slog (sum_vec (map sexp z)) in
  map (fun v => ssub v lse) z.

(** The sub-modules of [AcousticModel].  [am_rnn] is the bidirectional GRU
    on a packed sequence: it returns the [data] of its output, one row of
    width [2 * hidden_size] per packed row.  [am_prj] and [am_fc] act on
    the whole [data] matrix. *)
Record AcousticModel : Type := {
  am_conv : list (@module A);
  am_rnn : PackedSequence A -> result (tensor2 A);
  am_hidden_size : nat;
  am_prj : tensor2 A -> tensor2 A;
  am_fc : tensor2 A -> tensor2 A
}.

(** [AcousticModel.forward]. *)
Definition AcousticModel_forward (am : AcousticModel) (x : tensor4 A)
    (lengths : list Z) (head : bool) : result (tensor3 A * list Z) :=
  ' (x, lengths) <- MaskConv_forward (am_conv am) x lengths ;;
  packed <- pack_padded_sequence x lengths true ;;
  out <- am_rnn am packed ;;
  let f := map (firstn (am_hidden_size am)) out in
  let b := map (skipn (am_hidden_size am)) out in
  let data := am_prj am (map (fun p => add_vec (fst p) (snd p)) (combine f b)) in
  let data := if head then map log_softmax (am_fc am data) else data in
  let x := {| ps_data := data;
              ps_batch_sizes := ps_batch_sizes packed;
              ps_sorted_indices := ps_sorted_indices packed;
              ps_unsorted_indices := ps_unsorted_indices packed |} in
  Ok (pad_packed_sequence x, lengths).

End Encoder.

(** ** Random draws *)

(** Thread a generator state through a list, left to right. *)
Fixpoint mapS {S T U : Type} (f : T -> S -> U * S) (l : list T) (s : S)
  : list U * S :=
  match l with
  | [] => ([], s)
  | x :: l' =>
      let '(y, s1) := f x s in
      let '(ys, s2) := mapS f l' s1 in
      (y :: ys, s2)
  end.

(** The random primitives of [torch] that the model calls, on a generator
    state of type [G]: training-mode dropout of one row, one draw of
    [torch.multinomial] from a row of weights, one [torch.bernoulli] draw and
    one standard normal draw. *)
Class Random (G A : Type) : Type := {
  rand_dropout : Q -> list A -> G -> list A * G;
  rand_multinomial : list A -> G -> Z * G;
  rand_bernoulli : A -> G -> bool * G;
  rand_randn : G -> A * G
}.

(** ** The prediction network ([LanguageModel]) *)

(** Broadcasting in the decode loop, where the shapes are fixed by
    construction: a dimension of size 1 is repeated. *)
Definition bcast {T : Type} (n : nat) (l : list T) : list T :=
  match l with
  | [a] => repeat a n
  | _ => l
  end.

Definition zip3_with {T U V W : Type} (f : T -> U -> V -> W)
    (l1 : list T) (l2 : list U) (l3 : list V) : list W :=
  map (fun p : T * U * V => f (fst (fst p)) (snd (fst p)) (snd p))
      (combine (combine l1 l2) l3).

(** [torch.where(mask, a, b)] on 3-D tensors, the mask broadcast to [a]. *)
Definition where3 {T : Type} (mask : tensor3 bool) (a b : tensor3 T) : tensor3 T :=
  zip3_with
    (fun m2 a2 b2 =>
       zip3_with
         (fun m1 a1 b1 =>
            zip3_with (fun (m : bool) x y => if m then x else y)
                      (bcast (length a1) m1) a1 b1)
         (bcast (length a2) m2) a2 b2)
    (bcast (length a) mask) a b.

(** [torch.where(e, r, c)] on vectors of the same size. *)
Definition where1 {T : Type} (e : list bool) (r c : list T) : list T :=
  zip3_with (fun (m : bool) x y => if m then x else y) e r c.

(** [s[:, i] = c]. *)
Definition set_col {T : Type} (i : nat) (c : list T) (s : list (list T))
  : list (list T) :=
  map (fun p : list T * T => set_nth i (snd p) (fst p)) (combine s c).

Section Prediction.
Context {A : Type} `{Scalar A}.
Context {G : Type} `{Random G A}.

Definition zeros2 (n m : nat) : tensor2 A := repeat (repeat szero m) n.
Definition zeros3 (l n m : nat) : tensor3 A := repeat (zeros2 n m) l.

Definition sub_vec (x y : vec A) : vec A :=
  map (fun p : A * A => ssub (fst p) (snd p)) (combine x y).

Definition dot (w x : vec A) : A :=
  sum_vec (map (fun p : A * A => smul (fst p) (snd p)) (combine w x)).

(** [nn.Linear]: one output per row of the weight matrix. *)
Definition linear (weight : tensor2 A) (bias : vec A) (x : vec A) : vec A :=
  map (fun p : vec A * A => sadd (dot (fst p) x) (snd p)) (combine weight bias).

Definition linear_nobias (weight : tensor2 A) (x : vec A) : vec A :=
  map (fun w => dot w x) weight.

Definition relu (v : A) : A := if sltb szero v then v else szero.

(** [torch.argmax(z, dim=-1)] on one vector: the first maximal entry. *)
Fixpoint argmax_from (best : A) (besti i : Z) (l : vec A) : Z :=
  match l with
  | [] => besti
  | v :: l' =>
      if sltb best v then argmax_from v i (i + 1) l'
      else argmax_from best besti (i + 1) l'
  end.

Definition argmax (l : vec A) : Z :=
  match l with
  | [] => 0
  | v :: l' => argmax_from v 0 1 l'
  end.

(** [nn.Dropout(p)]: random in training mode with a positive rate, the
    identity otherwise. *)
Definition dropout_active (training : bool) (p : Q) : bool :=
  training && (0 <? Qnum p).

Definition Dropout2 (training : bool) (p : Q) (x : tensor2 A) (g : G)
  : tensor2 A * G :=
  if dropout_active training p then mapS (rand_dropout p) x g else (x, g).

Definition Dropout3 (training : bool) (p : Q) (x : tensor3 A) (g : G)
  : tensor3 A * G :=
  if dropout_active training p then mapS (mapS (rand_dropout p)) x g else (x, g).

(** One LSTM layer on a batch: input (N x in), hidden and cell state
    (N x H each) to the new hidden and cell state. *)
Definition lstm_cell : Type :=
  tensor2 A -> tensor2 A -> tensor2 A -> tensor2 A * tensor2 A.

(** The sub-modules of [LanguageModel].  [lm_rnn_packed] is the LSTM run on
    a packed sequence (sequence mode). *)
Record LanguageModel : Type := {
  lm_training : bool;
  lm_dropout : Q;
  lm_padding_idx : Z;
  lm_emb : Z -> vec A;
  lm_cells : list lstm_cell;
  lm_hidden_size : nat;
  lm_prj_weight : tensor2 A;
  lm_fc : tensor2 A -> tensor2 A;
  lm_rnn_packed : PackedSequence A -> result (tensor2 A)
}.

Definition num_layers (lm : LanguageModel) : nat := length (lm_cells lm).

(** The dropout rate handed to [nn.LSTM]: [dropout if n_layers > 1 else 0]. *)
Definition rnn_dropout (lm : LanguageModel) : Q :=
  if Nat.ltb 1 (num_layers lm) then lm_dropout lm else 0%Q.

(** One time step through the stack of layers; every layer but the first
    sees the dropped-out output of the layer below. *)
Fixpoint lstm_layers (training : bool) (p : Q) (first : bool)
    (cells : list lstm_cell) (x : tensor2 A) (hs cs : tensor3 A) (g : G)
  : tensor2 A * tensor3 A * tensor3 A * G :=
  match cells, hs, cs with
  | cell :: cells', h :: hs', c :: cs' =>
      let '(x_in, g1) := if first then (x, g) else Dropout2 training p x g in
      let '(h1, c1) := cell x_in h c in
      let '(out, hs1, cs1, g2) := lstm_layers training p false cells' h1 hs' cs' g1 in
      (out, h1 :: hs1, c1 :: cs1, g2)
  | _, _, _ => (x, [], [], g)
  end.

Fixpoint lstm_seq (training : bool) (p : Q) (cells : list lstm_cell)
    (xs : tensor3 A) (hs cs : tensor3 A) (g : G)
  : tensor3 A * tensor3 A * tensor3 A * G :=
  match xs with
  | [] => ([], hs, cs, g)
  | x :: rest =>
      let '(out, hs1, cs1, g1) := lstm_layers training p true cells x hs cs g in
      let '(outs, hs2, cs2, g2) := lstm_seq training p cells rest hs1 cs1 g1 in
      (out :: outs, hs2, cs2, g2)
  end.

(** [LanguageModel.step_init]. *)
Definition step_init (lm : LanguageModel) (batch_size : nat)
  : tensor3 A * tensor3 A :=
  (zeros3 (num_layers lm) batch_size (lm_hidden_size lm),
   zeros3 (num_layers lm) batch_size (lm_hidden_size lm)).

(** [self.rnn(x, h)]: a missing state is the zero state. *)
Definition rnn (lm : LanguageModel) (x : tensor3 A)
    (h : option (tensor3 A * tensor3 A)) (g : G)
  : tensor3 A * tensor3 A * tensor3 A * G :=
  let '(hs, cs) :=
    match h with
    | Some s => s
    | None => step_init lm (length (hd [] x))
    end in
  lstm_seq (lm_training lm) (rnn_dropout lm) (lm_cells lm) x hs cs g.

(** [self.prj]: dropout, then a linear map without bias. *)
Definition prj (lm : LanguageModel) (x : tensor3 A) (g : G) : tensor3 A * G :=
  let '(x, g1) := Dropout3 (lm_training lm) (lm_dropout lm) x g in
  (map (map (linear_nobias (lm_prj_weight lm))) x, g1).

(** [LanguageModel.step_features]. *)
Definition step_features (lm : LanguageModel) (x : tensor2 Z)
    (h : option (tensor3 A * tensor3 A)) (g : G)
  : tensor3 A * (tensor3 A * tensor3 A) * G :=
  let x := map (map (lm_emb lm)) x in
  let '(x, hs, cs, g1) := rnn lm x h g in
  let '(x, g2) := prj lm x g1 in
  (x, (hs, cs), g2).

(** [LanguageModel.step_forward]: the features of one step through the
    output head, flattened to rows. *)
Definition step_forward (lm : LanguageModel) (x : tensor2 Z)
    (h : option (tensor3 A * tensor3 A)) (g : G)
  : tensor2 A * (tensor3 A * tensor3 A) * G :=
  let '(x, h, g1) := step_features lm x h g in
  (lm_fc lm (concat x), h, g1).

(** The symbol that sequence mode puts in front of every history. *)
Definition prepend_start (x : tensor2 Z) : tensor2 Z :=
  let init := [repeat 0 (length (hd [] x))] in
  init ++ x.

(** [LanguageModel.forward]. *)
Definition LanguageModel_pack (lm : LanguageModel) (x : tensor2 Z)
    (lengths : list Z) : result (PackedSequence A) :=
  let x := prepend_start x in
  let x := map (map (lm_emb lm)) x in
  pack_padded_sequence x (map (fun l => l + 1) lengths) false.

Definition LanguageModel_forward (lm : LanguageModel) (x : tensor2 Z)
    (lengths : list Z) (head : bool) (g : G) : result (tensor3 A) :=
  packed <- LanguageModel_pack lm x lengths ;;
  out <- lm_rnn_packed lm packed ;;
  let '(dropped, _) := Dropout2 (lm_training lm) (lm_dropout lm) out g in
  let data := map (linear_nobias (lm_prj_weight lm)) dropped in
  let data := if head then map log_softmax (lm_fc lm data) else data in
  Ok (pad_packed_sequence
        {| ps_data := data;
           ps_batch_sizes := ps_batch_sizes packed;
           ps_sorted_indices := ps_sorted_indices packed;
           ps_unsorted_indices := ps_unsorted_indices packed |}).

(** ** The joint network and the decoder ([Transducer]) *)

Record Transducer : Type := {
  blank : Z;
  vocab_size : nat;
  am : @AcousticModel A;
  lm : LanguageModel;
  fc_weight : tensor2 A;
  fc_bias : vec A
}.

(** [self.fc]: ReLU, then the linear map to vocabulary size. *)
Definition fc (tr : Transducer) (v : vec A) : vec A :=
  linear (fc_weight tr) (fc_bias tr) (map relu v).

(** [Transducer.joint] on one pair of vectors. *)
Definition joint (tr : Transducer) (x y : vec A) : vec A :=
  log_softmax (fc tr (add_vec x y)).

(** [Transducer.joint] on tensors of rank 2 and 4: the sum is elementwise,
    the linear map and the normalisation act on the last dimension. *)
Definition joint2 (tr : Transducer) (x y : tensor2 A) : tensor2 A :=
  map (fun p : vec A * vec A => joint tr (fst p) (snd p)) (combine x y).

Definition joint4 (tr : Transducer) (x y : tensor4 A) : tensor4 A :=
  map (fun p : tensor3 A * tensor3 A =>
         map (fun q : tensor2 A * tensor2 A => joint2 tr (fst q) (snd q))
             (combine (fst p) (snd p)))
      (combine x y).

(** [Transducer.forward_joint]. *)
Definition forward_joint (tr : Transducer) (xs ys : tensor3 A) : tensor4 A :=
  let '(_, t, _) := size3 xs in
  let '(_, u, _) := size3 ys in
  let x := map (map (fun v => repeat v u)) xs in
  let y := map (fun yb => repeat yb t) ys in
  joint4 tr x y.

(** [x.transpose(0, 1)] on a 3-D tensor. *)
Definition transpose01 (x : tensor3 A) : tensor3 A :=
  let '(_, b, _) := size3 x in
  map (fun j => map (fun xi => nth j xi []) x) (seq 0 b).

(** [Transducer.forward_acoustic] and [Transducer.forward_language]. *)
Definition forward_acoustic (tr : Transducer) (xs : tensor4 A) (xn : list Z)
  : result (tensor3 A * list Z) :=
  ' (xs, xn) <- AcousticModel_forward (am tr) xs xn false ;;
  Ok (transpose01 xs, xn).

Definition forward_language (tr : Transducer) (ys : tensor2 Z) (yn : list Z)
    (g : G) : result (tensor3 A) :=
  ys <- LanguageModel_forward (lm tr) ys yn false g ;;
  Ok (transpose01 ys).

(** [Transducer.forward]: the two passes share no data; the joint consumes
    both results. *)
Definition Transducer_forward (tr : Transducer) (xs : tensor4 A) (ys : tensor2 Z)
    (xn yn : list Z) (g : G) : result (tensor4 A * tensor3 A * list Z) :=
  ' (xs, xn) <- forward_acoustic tr xs xn ;;
  ys <- forward_language tr ys yn g ;;
  Ok (forward_joint tr xs ys, xs, xn).

(** What [greedy_decode] returns: symbols (N x T) when [argmax] is set,
    distributions (N x T x V) otherwise. *)
Inductive decoded : Type :=
| Symbols (s : tensor2 Z)
| Distributions (s : tensor3 A).

(** The variables of the loop of [greedy_decode]; [ds_iter] counts the
    executions of the loop body. *)
Record decode_state : Type := {
  ds_s : decoded;
  ds_c : tensor2 Z;
  ds_yd : tensor3 A;
  ds_hd : tensor3 A;
  ds_cd : tensor3 A;
  ds_rng : G;
  ds_iter : nat
}.

(** The start symbols [torch.zeros((1, n))] of the decode loop. *)
Definition start_symbols (n : nat) : tensor2 Z := [repeat 0 n].

Definition decode_init (tr : Transducer) (xs : tensor3 A) (argmax_mode : bool)
    (g : G) : decode_state :=
  let '(n, t, _) := size3 xs in
  let s := if argmax_mode
           then Symbols (repeat (repeat 0 t) n)
           else Distributions (repeat (repeat (repeat szero (vocab_size tr)) t) n) in
  let c := start_symbols n in
  let '(yd, (hd, cd), g1) := step_features (lm tr) c None g in
  {| ds_s := s; ds_c := c; ds_yd := yd; ds_hd := hd; ds_cd := cd;
     ds_rng := g1; ds_iter := 0 |}.

(** The selection policy: the symbols chosen for the rows of [z]. *)
Definition select (sampled : bool) (epsilon : A) (z : tensor2 A) (g : G)
  : list Z * G :=
  if sampled then
    let '(c, g1) := mapS (fun row => rand_multinomial (map sexp row)) z g in
    if sltb szero epsilon then
      let '(e, g2) := mapS rand_bernoulli (map (fun _ => epsilon) c) g1 in
      let '(noise, g3) := mapS (mapS (fun _ : A => rand_randn)) z g2 in
      (where1 e (map argmax noise) c, g3)
    else (c, g1)
  else (map argmax z, g).

(** [s[:, i] = c] or [s[:, i] = z], by output mode. *)
Definition record_step (argmax_mode : bool) (i : nat) (c : list Z)
    (z : tensor2 A) (s : decoded) : decoded :=
  match s with
  | Symbols sy => if argmax_mode then Symbols (set_col i c sy) else s
  | Distributions d => if argmax_mode then s else Distributions (set_col i z d)
  end.

(** The state-carry mask [(c == self.blank).unsqueeze(-1)], shape (1, N, 1). *)
Definition blank_mask (tr : Transducer) (c : tensor2 Z) : tensor3 bool :=
  map (map (fun sym => [sym =? blank tr])) c.

(** [z] of iteration [i]: the joint of [xs[:, i]] and [yd[0]], minus the
    prior when one is given. *)
Definition step_logits (tr : Transducer) (xs : tensor3 A)
    (prior : option (vec A)) (st : decode_state) (i : nat) : tensor2 A :=
  let z := joint2 tr (map (fun x => nth i x []) xs) (hd [] (ds_yd st)) in
  match prior with
  | Some p => map (fun row => sub_vec row p) z
  | None => z
  end.

(** The body of the loop [for i in range(t)]. *)
Definition greedy_step (tr : Transducer) (xs : tensor3 A)
    (prior : option (vec A)) (sampled : bool) (epsilon : A)
    (argmax_mode : bool) (st : decode_state) (i : nat) : decode_state :=
  let z := step_logits tr xs prior st i in
  let '(c, g1) := select sampled epsilon z (ds_rng st) in
  let s := record_step argmax_mode i c z (ds_s st) in
  let c := [c] in
  let mask := blank_mask tr c in
  let '(yd_next, (hd_next, cd_next), g2) :=
    step_features (lm tr) c (Some (ds_hd st, ds_cd st)) g1 in
  {| ds_s := s; ds_c := c;
     ds_yd := where3 mask (ds_yd st) yd_next;
     ds_hd := where3 mask (ds_hd st) hd_next;
     ds_cd := where3 mask (ds_cd st) cd_next;
     ds_rng := g2; ds_iter := S (ds_iter st) |}.

(** The loop state after the first [k] iterations. *)
Definition decode_state_at (tr : Transducer) (xs : tensor3 A)
    (prior : option (vec A)) (sampled : bool) (epsilon : A)
    (argmax_mode : bool) (g : G) (k : nat) : decode_state :=
  fold_left (greedy_step tr xs prior sampled epsilon argmax_mode)
            (seq 0 k) (decode_init tr xs argmax_mode g).

(** The loop state when [for i in range(t)] is over. *)
Definition greedy_loop (tr : Transducer) (xs : tensor3 A)
    (prior : option (vec A)) (sampled : bool) (epsilon : A)
    (argmax_mode : bool) (g : G) : decode_state :=
  let '(_, t, _) := size3 xs in
  decode_state_at tr xs prior sampled epsilon argmax_mode g t.

(** The symbols emitted at iteration [k], one per sample, and the
    candidate [(yd_next, (hd_next, cd_next))] that the prediction network
    computes from them. *)
Definition emitted_at (tr : Transducer) (xs : tensor3 A)
    (prior : option (vec A)) (sampled : bool) (epsilon : A)
    (argmax_mode : bool) (g : G) (k : nat) : list Z :=
  let st := decode_state_at tr xs prior sampled epsilon argmax_mode g k in
  fst (select sampled epsilon (step_logits tr xs prior st k) (ds_rng st)).

Definition candidate_at (tr : Transducer) (xs : tensor3 A)
    (prior : option (vec A)) (sampled : bool) (epsilon : A)
    (argmax_mode : bool) (g : G) (k : nat)
  : tensor3 A * (tensor3 A * tensor3 A) :=
  let st := decode_state_at tr xs prior sampled epsilon argmax_mode g k in
  let '(c, g1) := select sampled epsilon (step_logits tr xs prior st k) (ds_rng st) in
  fst (step_features (lm tr) [c] (Some (ds_hd st, ds_cd st)) g1).

(** Sample [j] of [after] is sample [j] of [before] when [sym] is the
    blank, and sample [j] of [next] otherwise, in every layer. *)
Definition carried (tr : Transducer) (sym : Z) (j : nat)
    (before next after : tensor3 A) : Prop :=
  forall (l : nat) (old new : vec A),
    get2 before l j = Some old ->
    get2 next l j = Some new ->
    length old = length new ->
    get2 after l j = Some (if sym =? blank tr then old else new).

(** Shape contract of an LSTM layer: on a batch of [n] samples it maps
    hidden and cell states of shape (n, hidden) to states of that shape. *)
Definition cell_ok (n hidden : nat) (cell : lstm_cell) : Prop :=
  forall x h c,
    length x = n -> shape2 n hidden h -> shape2 n hidden c ->
    shape2 n hidden (fst (cell x h c)) /\ shape2 n hidden (snd (cell x h c)).

Definition lm_wf (lm : LanguageModel) : Prop :=
  forall n, Forall (cell_ok n (lm_hidden_size lm)) (lm_cells lm).

(** Two loop states that differ at most in the generator. *)
Definition same_but_rng (s1 s2 : decode_state) : Prop :=
  ds_s s1 = ds_s s2 /\ ds_c s1 = ds_c s2 /\ ds_yd s1 = ds_yd s2 /\
  ds_hd s1 = ds_hd s2 /\ ds_cd s1 = ds_cd s2 /\ ds_iter s1 = ds_iter s2.

(** Shape contracts of the decoder: the joint's linear map has one row and
    one bias per vocabulary entry, and a prior has one entry per
    vocabulary entry. *)
Definition transducer_wf (tr : Transducer) : Prop :=
  lm_wf (lm tr) /\
  length (fc_weight tr) = vocab_size tr /\
  length (fc_bias tr) = vocab_size tr.

Definition prior_ok (tr : Transducer) (prior : option (vec A)) : Prop :=
  match prior with
  | Some p => length p = vocab_size tr
  | None => True
  end.

(** The output has the shape of its mode: (n, t) symbols or (n, t, v)
    distributions. *)
Definition decoded_shape (argmax_mode : bool) (n t v : nat) (s : decoded) : Prop :=
  match s with
  | Symbols sy => argmax_mode = true /\ shape2 n t sy
  | Distributions d => argmax_mode = false /\ shape3 n t v d
  end.

(** What the loop keeps true: the iteration count, the shape of the
    output and the shapes of the carried state. *)
Definition decode_inv (tr : Transducer) (argmax_mode : bool) (n t k : nat)
    (st : decode_state) : Prop :=
  ds_iter st = k /\
  decoded_shape argmax_mode n t (vocab_size tr) (ds_s st) /\
  shape3 1 n (length (lm_prj_weight (lm tr))) (ds_yd st) /\
  shape3 (num_layers (lm tr)) n (lm_hidden_size (lm tr)) (ds_hd st) /\
  shape3 (num_layers (lm tr)) n (lm_hidden_size (lm tr)) (ds_cd st).

(** [Transducer.greedy_decode].  The function is total here: it follows the
    code on the inputs that the code accepts, those whose feature width is
    the projection size ([decode_accepts] below); on other widths the sum
    in [joint] raises in the code. *)
Definition greedy_decode (tr : Transducer) (xs : tensor3 A)
    (prior : option (vec A)) (sampled : bool) (epsilon : A)
    (argmax_mode : bool) (g : G) : decoded :=
  ds_s (greedy_loop tr xs prior sampled epsilon argmax_mode g).

End Prediction.

(** ** An encoder as [AcousticModel.__init__] builds it *)

Section BuiltEncoder.
Context {A : Type} `{Scalar A}.

(** The convolution stack has the layer kinds and hyper-parameters that
    the constructor fixes; the weights are free. *)
Definition am_built (m : @AcousticModel A) : Prop :=
  exists dropout, map fst (am_conv m) = am_conv_layers dropout.

(** Every entry of a mask under construction is one row of [t] flags. *)
Definition mask_rows_ok (t : nat) (mask : mask4) : Prop :=
  Forall (fun mi => exists row, mi = [[row]] /\ length row = t) mask.

End BuiltEncoder.

(** ** A model over the integers *)

(** Integer tensors, with powers of two and the binary logarithm standing in
    for [exp] and [log]: a model small enough to run. *)
#[export] Instance Scalar_Z : Scalar Z := {
  szero := 0;
  sadd := Z.add;
  ssub := Z.sub;
  smul := Z.mul;
  sexp := Z.pow 2;
  slog := Z.log2;
  sltb := Z.ltb
}.

(** A counter as generator state: each draw reads the counter and advances
    it. *)
#[export] Instance Random_counter : Random nat Z := {
  rand_dropout := fun _ row g => (if Nat.odd g then map (fun _ => 0) row else row, S g);
  rand_multinomial := fun w g => (Z.of_nat (g mod (length w)), S g);
  rand_bernoulli := fun _ g => (Nat.odd g, S g);
  rand_randn := fun g => (Z.of_nat g, S g)
}.

(** A [Conv2d] whose kernel is 1 at its centre tap on input channel 0 and 0
    elsewhere (kernel 2p+1, padding p, dilation 1): output (o, i, j) is
    input (0, i * stride, j * stride). *)
Definition centre_tap_conv (l : layer) (x : tensor4 Z) : result (tensor4 Z) :=
  match l with
  | Conv2d ic oc k s p d =>
      let '(_, c, dd, t) := size4 x in
      if negb (Z.of_nat c =? ic) then Err RuntimeError
      else
        d' <- decrease_dim (Z.of_nat dd) l ax0 ;;
        t' <- decrease_dim (Z.of_nat t) l ax1 ;;
        if (d' <=? 0) || (t' <=? 0) then Err RuntimeError
        else
          Ok (map (fun xi =>
                     repeat
                       (map (fun i =>
                               map (fun j =>
                                      nth (j * Z.to_nat (snd s))
                                          (nth (i * Z.to_nat (fst s)) (hd [] xi) [])
                                          0)
                                   (seq 0 (Z.to_nat t')))
                            (seq 0 (Z.to_nat d')))
                       (Z.to_nat oc))
                  x)
  | _ => Ok x
  end.

(** The forward function of each layer kind: the centre-tap convolution,
    batch normalisation with unit statistics, ReLU, and dropout in
    evaluation mode. *)
Definition int_layer_forward (l : layer) (x : tensor4 Z) : result (tensor4 Z) :=
  match l with
  | Conv2d _ _ _ _ _ _ => centre_tap_conv l x
  | ReLU => Ok (map (map (map (map (fun v => if 0 <? v then v else 0)))) x)
  | BatchNorm2d _ | Dropout _ => Ok x
  end.

(** A GRU with all weights zero: every output row is zero.  It refuses a
    packed sequence whose batch sizes do not add up to its rows. *)
Definition zero_gru (hidden : nat) (p : PackedSequence Z) : result (tensor2 Z) :=
  if Z.of_nat (length (ps_data p)) =? fold_left Z.add (ps_batch_sizes p) 0
  then Ok (map (fun _ => repeat 0 (2 * hidden)) (ps_data p))
  else Err RuntimeError.

Definition identity2 : tensor2 Z := [[1; 0]; [0; 1]].

Definition int_am : @AcousticModel Z := {|
  am_conv := map (fun l => (l, int_layer_forward l)) (am_conv_layers 0);
  am_rnn := zero_gru 2;
  am_hidden_size := 2;
  am_prj := map (linear_nobias identity2);
  am_fc := fun data => data
|}.

(** An LSTM-shaped layer over the integers: sample by sample, the hidden
    row grows by the sum of the input row and the cell row by one. *)
Definition int_cell : @lstm_cell Z :=
  fun x h c =>
    (map (fun p : list Z * list Z => map (fun v => v + sum_vec (snd p)) (fst p))
         (combine h x),
     map (fun p : list Z * list Z => map (fun v => v + 1) (fst p))
         (combine c x)).

Definition int_lm : @LanguageModel Z := {|
  lm_training := false;
  lm_dropout := 0;
  lm_padding_idx := 0;
  lm_emb := fun sym => [sym; 1];
  lm_cells := [int_cell; int_cell];
  lm_hidden_size := 2;
  lm_prj_weight := identity2;
  lm_fc := fun data => data;
  lm_rnn_packed := fun p => Ok (ps_data p)
|}.

(** Two symbols, blank 0, and a joint whose linear map is the identity. *)
Definition int_tr : @Transducer Z := {|
  blank := 0;
  vocab_size := 2;
  am := int_am;
  lm := int_lm;
  fc_weight := identity2;
  fc_bias := [0; 0]
|}.

(** Two samples over two timesteps: the first favours symbol 0 (the blank),
    the second symbol 1. *)
Definition int_xs : tensor3 Z := [[[9; 0]; [9; 0]]; [[0; 9]; [0; 9]]].

(** One sample over three timesteps that always favours the blank. *)
Definition int_xs_blank : tensor3 Z := [[[9; 0]; [9; 0]; [9; 0]]].

(** Feature maps of 40 frequency bins. *)
Definition int_features (n t : nat) : tensor4 Z :=
  repeat [repeat (repeat 1 t) 40] n.

(** The integer transducer built with blank id 1 instead of 0. *)
Definition int_tr_blank1 : @Transducer Z := {|
  blank := 1;
  vocab_size := 2;
  am := int_am;
  lm := int_lm;
  fc_weight := identity2;
  fc_bias := [0; 0]
|}.

(** Prediction sequences for two samples and three label positions. *)
Definition int_ys : tensor3 Z := [[[1; 2]; [3; 4]; [5; 6]]; [[0; 1]; [1; 0]; [2; 2]]].

(** Two samples, one channel, one feature row, four timesteps. *)
Definition int_map : tensor4 Z := [[[[1; 2; 3; 4]]]; [[[5; 6; 7; 8]]]].

(** ** A model over the real numbers *)

Definition Rltb (x y : R) : bool := if Rlt_dec x y then true else false.

#[export] Instance Scalar_R : Scalar R := {
  szero := 0%R;
  sadd := Rplus;
  ssub := Rminus;
  smul := Rmult;
  sexp := exp;
  slog := ln;
  sltb := Rltb
}.

(** No randomness is drawn in the runs below: the generator is trivial. *)
#[export] Instance Random_none : Random unit R := {
  rand_dropout := fun _ row g => (row, g);
  rand_multinomial := fun _ g => (0, g);
  rand_bernoulli := fun _ g => (false, g);
  rand_randn := fun g => (0%R, g)
}.

Definition sigmoid (x : R) : R := (1 / (1 + exp (- x)))%R.

Definition mul_vec (x y : list R) : list R :=
  map (fun p : R * R => (fst p * snd p)%R) (combine x y).

(** One sample through an LSTM layer of [nn.LSTM], gates in the order
    input, forget, cell, output:
    i, f, o = sigmoid, g = tanh of W_ih x + b_ih + W_hh h + b_hh;
    c' = f * c + i * g;  h' = o * tanh(c'). *)
Definition lstm_row (hidden : nat) (w_ih w_hh : tensor2 R) (b_ih b_hh : list R)
    (x h c : list R) : list R * list R :=
  let gates := add_vec (linear w_ih b_ih x) (linear w_hh b_hh h) in
  let i := map sigmoid (firstn hidden gates) in
  let f := map sigmoid (firstn hidden (skipn hidden gates)) in
  let g := map tanh (firstn hidden (skipn (2 * hidden) gates)) in
  let o := map sigmoid (firstn hidden (skipn (3 * hidden) gates)) in
  let c' := add_vec (mul_vec f c) (mul_vec i g) in
  (mul_vec o (map tanh c'), c').

Definition real_lstm_cell (hidden : nat) (w_ih w_hh : tensor2 R)
    (b_ih b_hh : list R) : @lstm_cell R :=
  fun x h c =>
    let rows := map (fun p : list R * list R * list R =>
                       lstm_row hidden w_ih w_hh b_ih b_hh
                                (fst (fst p)) (snd (fst p)) (snd p))
                    (combine (combine x h) c) in
    (map fst rows, map snd rows).

(** One layer, hidden size 1, embedding size 1: all weights 0, and bias 1 on
    the cell gate. *)
Definition real_cell : @lstm_cell R :=
  real_lstm_cell 1 [[0]; [0]; [0]; [0]]%R [[0]; [0]; [0]; [0]]%R
                 [0; 0; 1; 0]%R [0; 0; 0; 0]%R.

(** Two symbols, blank 0; the embedding of the padding index is the zero
    vector. *)
Definition real_lm : @LanguageModel R := {|
  lm_training := false;
  lm_dropout := 0;
  lm_padding_idx := 0;
  lm_emb := fun sym => if sym =? 0 then [0%R] else [1%R];
  lm_cells := [real_cell];
  lm_hidden_size := 1;
  lm_prj_weight := [[1%R]];
  lm_fc := fun data => data;
  lm_rnn_packed := fun p => Ok (ps_data p)
|}.

Definition real_am : @AcousticModel R := {|
  am_conv := [];
  am_rnn := fun p => Ok (ps_data p);
  am_hidden_size := 1;
  am_prj := fun data => data;
  am_fc := fun data => data
|}.

(** The joint's linear map has zero weights and bias (1, 0): it favours the
    blank whatever its input. *)
Definition real_tr : @Transducer R := {|
  blank := 0;
  vocab_size := 2;
  am := real_am;
  lm := real_lm;
  fc_weight := [[0%R]; [0%R]];
  fc_bias := [1%R; 0%R]
|}.

(** One sample over three timesteps. *)
Definition real_xs : tensor3 R := [[[0%R]; [0%R]; [0%R]]].

(** ** Auxiliary notions for the length arithmetic *)

(** The loop of [output_time] and [output_dim] along either axis. *)
Fixpoint output_axis (layers : list layer) (x : Z) (dim : axis) : result Z :=
  match layers with
  | [] => Ok x
  | l :: rest => x' <- decrease_dim x l dim ;; output_axis rest x' dim
  end.

(** [out_channels] of the last [Conv2d] of a stack, 0 when there is none:
    the value of [channels] when the loop of [output_dim] ends. *)
Definition last_out_channels (layers : list layer) : Z :=
  fold_left (fun c l => match l with Conv2d _ oc _ _ _ _ => oc | _ => c end)
            layers 0.

Definition stride_pos (l : layer) : Prop :=
  0 < td_stride (describe l).

(** The probe of [is_time_decrease] is exact for a layer: when it answers
    "no", the layer leaves every length as it is. *)
Definition probe_exact (l : layer) : Prop :=
  is_time_decrease l = Ok false -> forall x, decrease_dim x l ax1 = Ok x.

(** A convolution that halves the time axis and that the probe misses. *)
Definition missed_conv : layer := Conv2d 1 1 (1, 2) (1, 2) (0, 50) (1, 1).

(** ** Auxiliary notions for the masked convolution *)

Section MaskedStack.
Context {A : Type} `{Scalar A}.

(** [nn.Sequential.forward]: the layers applied in order, nothing else. *)
Fixpoint Sequential_forward (layers : list (@module A)) (x : tensor4 A)
  : result (tensor4 A) :=
  match layers with
  | [] => Ok x
  | (_, layer_forward) :: rest => y <- layer_forward x ;; Sequential_forward rest y
  end.

(** A row holds the fill value at every timestep from [len] on. *)
Definition zero_from (len : Z) (row : vec A) : Prop :=
  forall tt v, nth_error row tt = Some v -> len <= Z.of_nat tt -> v = szero.

(** Every sample that has a length is zero from that length on, in every
    channel and feature row. *)
Definition padded (x : tensor4 A) (lengths : list Z) : Prop :=
  forall i xi len,
    nth_error x i = Some xi -> nth_error lengths i = Some len ->
    Forall (Forall (zero_from len)) xi.

(** Shape contract of a layer's [forward]: an (n, c, d, t) tensor goes to an
    (n, c', d', t') tensor whose time and feature extents are the ones that
    [decrease_dim] computes from [t] and [d], and whose channels are the
    [out_channels] of a [Conv2d] and the channels of the input otherwise. *)
Definition layer_contract (m : @module A) : Prop :=
  forall n c d t x y,
    shape4 n c d t x -> size4 x = (n, c, d, t) ->
    snd m x = Ok y ->
    exists c' d' t',
      shape4 n c' d' t' y /\ size4 y = (n, c', d', t') /\
      decrease_dim (Z.of_nat t) (fst m) ax1 = Ok (Z.of_nat t') /\
      decrease_dim (Z.of_nat d) (fst m) ax0 = Ok (Z.of_nat d') /\
      Z.of_nat c' = match fst m with
                    | Conv2d _ oc _ _ _ _ => oc
                    | _ => Z.of_nat c
                    end.

(** Two tensors have the same extent at every level of nesting. *)
Definition same_shape (x y : tensor4 A) : Prop :=
  Forall2 (Forall2 (Forall2 (fun r r' : vec A => length r' = length r))) x y.

End MaskedStack.

(** ** Auxiliary notions for the encoder output *)

Section EncoderRows.
Context {A : Type} `{Scalar A}.

(** Row contract of the sub-modules of the encoder.  The recurrent layer
    accepts a packed sequence only if its rows are the ones that its batch
    sizes count, and returns one row per packed row; the projection and the
    output head map rows to rows. *)
Definition am_rows_contract (m : @AcousticModel A) : Prop :=
  (forall p rows,
      am_rnn m p = Ok rows ->
      length rows = length (ps_data p) /\
      Z.of_nat (length (ps_data p)) = fold_left Z.add (ps_batch_sizes p) 0) /\
  (forall rows, length (am_prj m rows) = length rows) /\
  (forall rows, length (am_fc m rows) = length rows).

End EncoderRows.

(** ** Auxiliary notions for the decode loop *)

Section DecodeAccepts.
Context {A : Type} `{Scalar A}.

(** The widths on which the sum [x + y] of [joint] and the two linear maps
    are defined without broadcasting: acoustic rows of width [h] meet
    prediction rows of the same width (the projection size), the joint's
    [Linear] takes rows of that width, and the projection takes rows of the
    hidden size.  On other widths the code raises. *)
Definition decode_accepts (tr : @Transducer A) (h : nat) : Prop :=
  length (lm_prj_weight (lm tr)) = h /\
  Forall (fun w => length w = h) (fc_weight tr) /\
  Forall (fun w => length w = lm_hidden_size (lm tr)) (lm_prj_weight (lm tr)).

End DecodeAccepts.

(** ** A prediction network in training mode *)

(** One layer, dropout rate 1/2, training mode (the mode in which a module
    is constructed); the projection keeps the first hidden unit. *)
Definition dropout_lm : @LanguageModel Z := {|
  lm_training := true;
  lm_dropout := 1 # 2;
  lm_padding_idx := 0;
  lm_emb := fun sym => [sym; 1];
  lm_cells := [int_cell];
  lm_hidden_size := 2;
  lm_prj_weight := [[1; 0]; [0; 0]];
  lm_fc := fun data => data;
  lm_rnn_packed := fun p => Ok (ps_data p)
|}.

Definition dropout_tr : @Transducer Z := {|
  blank := 0;
  vocab_size := 2;
  am := int_am;
  lm := dropout_lm;
  fc_weight := identity2;
  fc_bias := [0; 0]
|}.

(** One sample, one timestep. *)
Definition dropout_xs : tensor3 Z := [[[0; 1]]].

(** ** The range of the length tensor *)

(** A value of an [int64] tensor. *)
Definition in_int64 (z : Z) : bool := (- 2 ^ 63 <=? z) && (z <? 2 ^ 63).

(** [decrease_dim(lengths, layer)] runs on an [int64] tensor.  On the entry
    [x] nothing wraps around when the entry, the scalars and every
    intermediate value of (x + 2 * p - d * (f - 1) - 1) // s + 1 are
    [int64] values; the arithmetic is then that of [decrease_dim] on the
    integers. *)
Definition no_wrap (l : layer) (x : Z) : bool :=
  match l with
  | Conv2d _ _ kernel_size stride padding dilation =>
      let p := snd padding in
      let d := snd dilation in
      let f := snd kernel_size in
      let s := snd stride in
      in_int64 x && in_int64 (2 * p) && in_int64 (x + 2 * p) &&
      in_int64 (d * (f - 1)) && in_int64 (x + 2 * p - d * (f - 1)) &&
      in_int64 (x + 2 * p - d * (f - 1) - 1) && in_int64 s &&
      in_int64 ((x + 2 * p - d * (f - 1) - 1) / s) &&
      in_int64 ((x + 2 * p - d * (f - 1) - 1) / s + 1)
  | _ => in_int64 x
  end.

(** Nothing wraps around on the way of a length through the stack. *)
Fixpoint no_wrap_stack (layers : list layer) (x : Z) : bool :=
  match layers with
  | [] => in_int64 x
  | l :: rest =>
      no_wrap l x &&
      match decrease_dim x l ax1 with
      | Ok y => no_wrap_stack rest y
      | Err _ => true
      end
  end.

(** * Properties *)

(** ** Length tracking *)

Lemma floordiv_nonzero (a b : Z) : b <> 0 -> floordiv a b = Ok (a / b).
Proof.
  intros Hb. unfold floordiv.
  destruct (Z.eqb_spec b 0) as [E | _]; [contradiction | reflexivity].
Qed.

Lemma decrease_dim_describe (l : layer) (x : Z) :
  stride_ok l -> decrease_dim x l ax1 = Ok (output_length_spec (describe l) x).
Proof.
  destruct l as [ic oc k s p d | nf | | q]; intros Hs; try reflexivity.
  unfold stride_ok in Hs. cbn in Hs.
  unfold decrease_dim, output_length_spec. cbn.
  rewrite floordiv_nonzero by assumption. reflexivity.
Qed.

Lemma output_time_spec (layers : list layer) :
  Forall stride_ok layers ->
  forall x, output_time layers x = Ok (length_tracker_spec (map describe layers) x).
Proof.
  induction 1 as [| l rest Hl _ IH]; intros x.
  - reflexivity.
  - cbn [output_time map]. rewrite decrease_dim_describe by assumption.
    cbn [bind]. rewrite IH. reflexivity.
Qed.

(** C4: for every non-negative length [L], [decrease_dim] on a [Conv2d] with
    time-axis padding p, dilation d, kernel f and (non-zero) stride s returns
    floor((L + 2p - d(f-1) - 1) / s) + 1, and returns [L] unchanged on every
    other layer kind; [output_time] over a stack equals the single-transform
    formula applied once per transform, in stack order. *)
Theorem output_length_formula (L : Z) :
  0 <= L ->
  (forall ic oc k s p d,
      snd s <> 0 ->
      decrease_dim L (Conv2d ic oc k s p d) ax1
      = Ok ((L + 2 * snd p - snd d * (snd k - 1) - 1) / snd s + 1)) /\
  (forall l, is_Conv2d l = false -> decrease_dim L l ax1 = Ok L) /\
  (forall layers,
      Forall stride_ok layers ->
      output_time layers L = Ok (length_tracker_spec (map describe layers) L)).
Proof.
  intros _. split; [| split].
  - intros ic oc k s p d Hs.
    exact (decrease_dim_describe (Conv2d ic oc k s p d) L Hs).
  - intros l Hl. destruct l; [discriminate Hl | reflexivity ..].
  - intros layers Hall. apply output_time_spec. exact Hall.
Qed.

Lemma am_conv_layers_stride_ok (dropout : Q) : Forall stride_ok (am_conv_layers dropout).
Proof. repeat constructor; unfold stride_ok; cbn; lia. Qed.

Lemma output_length_formula_witness :
  0 <= 101 /\
  snd (2, 2) <> 0 /\
  decrease_dim 101 (Conv2d 1 32 (21, 11) (2, 2) (10, 5) (1, 1)) ax1 = Ok 51 /\
  decrease_dim 101 ReLU ax1 = Ok 101 /\
  output_time (am_conv_layers 0) 101 = Ok 51.
Proof.
  assert (H0 : 0 <= 101) by lia.
  assert (Hs : snd (2, 2) <> 0) by (cbn; lia).
  destruct (output_length_formula 101 H0) as [Hconv [Hother Hstack]].
  split; [exact H0 |]. split; [exact Hs |]. split; [| split].
  - exact (Hconv 1 32 (21, 11) (2, 2) (10, 5) (1, 1) Hs).
  - exact (Hother ReLU eq_refl).
  - exact (Hstack (am_conv_layers 0) (am_conv_layers_stride_ok 0)).
Defined.

(** ** Temporal masking *)

Lemma mapM_ok {T U : Type} (f : T -> result U) (g : T -> U) (l : list T) :
  Forall (fun x => f x = Ok (g x)) l -> mapM f l = Ok (map g l).
Proof.
  induction 1 as [| x l Hx _ IH]; [reflexivity |].
  cbn. rewrite Hx. cbn. rewrite IH. reflexivity.
Qed.

Lemma nth_error_set_nth_eq {T : Type} (l : list T) (i : nat) (v : T) :
  (i < length l)%nat -> nth_error (set_nth i v l) i = Some v.
Proof.
  revert i. induction l as [| x l IH]; intros [| i] Hi; cbn in *; try lia.
  - reflexivity.
  - apply IH. lia.
Qed.

Lemma set_nth_app {T : Type} (done rest : list T) (old v : T) :
  set_nth (length done) v (done ++ old :: rest) = done ++ v :: rest.
Proof.
  induction done as [| x done IH]; cbn; [reflexivity |].
  rewrite IH. reflexivity.
Qed.

Lemma broadcast_to_same {T : Type} (l : list T) : broadcast_to (length l) l = Ok l.
Proof. unfold broadcast_to. rewrite Nat.eqb_refl. reflexivity. Qed.

Lemma broadcast_to_singleton {T : Type} (n : nat) (a : T) :
  broadcast_to n [a] = Ok (repeat a n).
Proof.
  unfold broadcast_to. cbn [length].
  destruct (Nat.eqb_spec 1 n) as [<- | _]; reflexivity.
Qed.

Lemma nth_error_combine_some {T U : Type} (l1 : list T) (l2 : list U) i a b :
  nth_error l1 i = Some a -> nth_error l2 i = Some b ->
  nth_error (combine l1 l2) i = Some (a, b).
Proof.
  revert l2 i. induction l1 as [| x l1 IH]; intros l2 i H1 H2.
  - destruct i; discriminate H1.
  - destruct l2 as [| y l2]; [destruct i; discriminate H2 |].
    destruct i as [| i]; cbn in *.
    + congruence.
    + apply IH; assumption.
Qed.

Lemma nth_error_lt {T : Type} (l : list T) (i : nat) (v : T) :
  nth_error l i = Some v -> (i < length l)%nat.
Proof. intros E. apply nth_error_Some. congruence. Qed.

Lemma zipM_cons {T U V : Type} (f : T -> U -> result V) a b l1 l2 :
  zipM f (a :: l1) (b :: l2) = y <- f a b ;; ys <- zipM f l1 l2 ;; Ok (y :: ys).
Proof. reflexivity. Qed.

Lemma zipM_repeat {T U V : Type} (f : T -> U -> result V) (l : list T) (a : U) :
  zipM f l (repeat a (length l)) = mapM (fun x => f x a) l.
Proof.
  unfold zipM. induction l as [| x l IH]; cbn; [reflexivity |].
  rewrite IH. reflexivity.
Qed.

Lemma mask_row_length (t : nat) (len : Z) : length (mask_row t len) = t.
Proof. unfold mask_row. rewrite length_map, length_seq. reflexivity. Qed.

Lemma mask_row_nth (t : nat) (len : Z) (k : nat) :
  (k < t)%nat -> nth_error (mask_row t len) k = Some (len <=? Z.of_nat k).
Proof.
  intros Hk. unfold mask_row.
  rewrite nth_error_map, nth_error_seq.
  destruct (Nat.ltb_spec k t); [reflexivity | lia].
Qed.

Lemma map_seq_const {T : Type} (f : nat -> T) (v : T) (t s : nat) :
  (forall k, (s <= k < s + t)%nat -> f k = v) -> map f (seq s t) = repeat v t.
Proof.
  revert s. induction t as [| t IH]; intros s Hf; cbn; [reflexivity |].
  rewrite Hf by lia. f_equal. apply IH. intros k Hk. apply Hf. lia.
Qed.

Lemma mask_row_all_false (t : nat) (len : Z) :
  Z.of_nat t <= len -> mask_row t len = repeat false t.
Proof.
  intros Hlen. unfold mask_row. apply map_seq_const.
  intros k Hk. apply Z.leb_gt. lia.
Qed.

Lemma mask_row_split (t : nat) (len : Z) :
  0 <= len < Z.of_nat t ->
  mask_row t len
  = repeat false (Z.to_nat len) ++ repeat true (t - Z.to_nat len).
Proof.
  intros Hlen. unfold mask_row.
  replace t with (Z.to_nat len + (t - Z.to_nat len))%nat at 1 by lia.
  rewrite seq_app, map_app. f_equal.
  - apply map_seq_const. intros k Hk. apply Z.leb_gt. lia.
  - apply map_seq_const. intros k Hk. apply Z.leb_le. lia.
Qed.

Lemma firstn_repeat_le {T : Type} (v : T) (k n : nat) :
  (k <= n)%nat -> firstn k (repeat v n) = repeat v k.
Proof.
  revert n. induction k as [| k IH]; intros [| n] Hk; cbn; try reflexivity; try lia.
  f_equal. apply IH. lia.
Qed.

Lemma narrow_fill_zeros (t : nat) (len : Z) :
  0 <= len < Z.of_nat t ->
  narrow_fill (repeat false t) len (Z.of_nat t - len) = Ok (mask_row t len).
Proof.
  intros Hlen. unfold narrow_fill. rewrite repeat_length.
  destruct (Z.ltb_spec (Z.of_nat t - len) 0); [lia |].
  destruct (Z.ltb_spec len (- Z.of_nat t)); [lia |].
  destruct (Z.ltb_spec (Z.of_nat t) len); [lia |]. cbn [orb].
  destruct (Z.ltb_spec len 0); [lia |].
  destruct (Z.ltb_spec (Z.of_nat t - (Z.of_nat t - len)) len); [lia |].
  rewrite mask_row_split by assumption.
  rewrite firstn_repeat_le by lia.
  rewrite skipn_all2 by (rewrite repeat_length; lia).
  rewrite app_nil_r. do 3 f_equal. lia.
Qed.

(** A negative start makes [narrow] fail whatever the row. *)
Lemma narrow_fill_negative (row : list bool) (start : Z) :
  start < 0 ->
  is_ok (narrow_fill row start (Z.of_nat (length row) - start)) = false.
Proof.
  intros Hs. unfold narrow_fill.
  destruct (Z.ltb_spec (Z.of_nat (length row) - start) 0); [reflexivity |].
  destruct (Z.ltb_spec start (- Z.of_nat (length row))); [reflexivity |].
  destruct (Z.ltb_spec (Z.of_nat (length row)) start); [reflexivity |]. cbn [orb].
  destruct (Z.ltb_spec start 0); [| lia].
  destruct (Z.ltb_spec (Z.of_nat (length row) - (Z.of_nat (length row) - start))
                       (start + Z.of_nat (length row))); [reflexivity | lia].
Qed.

Lemma mask_loop_spec (t : nat) (lengths : list Z) :
  Forall (fun l => 0 <= l) lengths ->
  forall done : mask4,
    mask_loop (done ++ repeat [[repeat false t]] (length lengths))
              (length done) lengths (Z.of_nat t)
    = Ok (done ++ map (fun l => [[mask_row t l]]) lengths).
Proof.
  induction 1 as [| l rest Hl _ IH]; intros done.
  - cbn. reflexivity.
  - cbn [mask_loop length repeat map].
    destruct (Z.ltb_spec 0 (Z.of_nat t - l)) as [Hlt | Hge].
    + rewrite nth_error_app2 by lia. rewrite Nat.sub_diag. cbn [nth_error].
      unfold fill_sample. cbn [mapM bind].
      rewrite narrow_fill_zeros by lia. cbn [bind].
      rewrite set_nth_app.
      specialize (IH (done ++ [[[mask_row t l]]])).
      rewrite <- app_assoc, length_app in IH. cbn [app length] in IH.
      rewrite Nat.add_1_r in IH. rewrite IH. rewrite <- app_assoc. reflexivity.
    + cbn [bind].
      specialize (IH (done ++ [[[repeat false t]]])).
      rewrite <- app_assoc, length_app in IH. cbn [app length] in IH.
      rewrite Nat.add_1_r in IH. rewrite IH. rewrite <- app_assoc. cbn [app].
      rewrite mask_row_all_false by lia. reflexivity.
Qed.

Lemma build_mask_spec (n t : nat) (lengths : list Z) :
  length lengths = n ->
  Forall (fun l => 0 <= l) lengths ->
  build_mask n t lengths = Ok (map (fun l => [[mask_row t l]]) lengths).
Proof.
  intros <- Hall. unfold build_mask.
  exact (mask_loop_spec t lengths Hall []).
Qed.

Section MaskingProperties.
Context {A : Type} `{Scalar A}.

Lemma fill_row_nth (value : A) (row : vec A) (m : list bool) (k : nat) (v : A) (b : bool) :
  nth_error row k = Some v ->
  nth_error m k = Some b ->
  nth_error (fill_row value row m) k = Some (if b then value else v).
Proof.
  revert m k. induction row as [| r row IH]; intros m k Hr Hm.
  - destruct k; discriminate Hr.
  - destruct m as [| b0 m]; [destruct k; discriminate Hm |].
    destruct k as [| k]; cbn in *.
    + injection Hr as ->. injection Hm as ->. reflexivity.
    + apply IH; assumption.
Qed.

Lemma fill_row_all_false (value : A) (row : vec A) :
  fill_row value row (repeat false (length row)) = row.
Proof.
  unfold fill_row. induction row as [| r row IH]; cbn; [reflexivity |].
  rewrite IH. reflexivity.
Qed.

Lemma fill_row_length (value : A) (row : vec A) (m : list bool) :
  length m = length row -> length (fill_row value row m) = length row.
Proof.
  intros Hm. unfold fill_row. rewrite length_map, length_combine. lia.
Qed.

(** Masking one sample of shape (c, d, t) with a mask of shape (1, 1, t). *)
Lemma masked_fill_sample (value : A) (c d t : nat) (xi : tensor3 A) (row : list bool) :
  shape3 c d t xi ->
  length row = t ->
  (mi' <- broadcast_to (length xi) [[row]] ;;
   zipM (fun xij mij =>
           mij' <- broadcast_to (length xij) mij ;;
           zipM (masked_fill_row value) xij mij')
        xi mi')
  = Ok (map (map (fun r => fill_row value r row)) xi).
Proof.
  intros [_ Hxi] Hrow.
  rewrite broadcast_to_singleton. cbn [bind].
  rewrite zipM_repeat. apply mapM_ok.
  eapply Forall_impl; [| exact Hxi]. intros xij [_ Hxij]. cbn beta.
  rewrite broadcast_to_singleton. cbn [bind].
  rewrite zipM_repeat. apply mapM_ok.
  eapply Forall_impl; [| exact Hxij]. intros r Hr. cbn beta.
  unfold masked_fill_row. rewrite <- Hrow in Hr. rewrite Hr.
  rewrite broadcast_to_same. reflexivity.
Qed.

Lemma masked_fill_spec (value : A) (c d t : nat) (x : tensor4 A) (lengths : list Z) :
  Forall (shape3 c d t) x ->
  length lengths = length x ->
  masked_fill value x (map (fun l => [[mask_row t l]]) lengths)
  = Ok (map (mask_sample value t) (combine x lengths)).
Proof.
  intros Hx Hlen. unfold masked_fill.
  replace (length x) with (length (map (fun l => [[mask_row t l]]) lengths))
    by (rewrite length_map; exact Hlen).
  rewrite broadcast_to_same. cbn [bind].
  revert lengths Hlen. induction Hx as [| xi x Hxi _ IH]; intros lengths Hlen.
  - reflexivity.
  - destruct lengths as [| l lengths]; [discriminate Hlen |].
    cbn [map combine]. rewrite zipM_cons. cbv beta.
    rewrite (masked_fill_sample value c d t xi (mask_row t l) Hxi (mask_row_length t l)).
    cbn [bind].
    rewrite IH by (cbn in Hlen; lia). reflexivity.
Qed.

Lemma shape3_nth (c d t : nat) (xi : tensor3 A) ci di (r : vec A) :
  shape3 c d t xi ->
  get2 xi ci di = Some r -> length r = t.
Proof.
  intros [_ Hxi] Hget. unfold get2 in Hget.
  destruct (nth_error xi ci) as [xij |] eqn:Eci; [| discriminate Hget].
  apply nth_error_In in Eci. rewrite Forall_forall in Hxi.
  destruct (Hxi _ Eci) as [_ Hrows]. rewrite Forall_forall in Hrows.
  apply Hrows. eapply nth_error_In. exact Hget.
Qed.

Lemma mask_sample_get (value : A) (c d t : nat) (xi : tensor3 A) (len : Z) ci di ti v :
  shape3 c d t xi ->
  get3 xi ci di ti = Some v ->
  get3 (mask_sample value t (xi, len)) ci di ti
  = Some (if len <=? Z.of_nat ti then value else v).
Proof.
  intros Hxi Hget. unfold get3 in *. unfold mask_sample. cbn [fst snd].
  destruct (nth_error xi ci) as [xij |] eqn:Eci; [| discriminate Hget].
  rewrite nth_error_map, Eci. cbn [option_map]. unfold get2 in *.
  destruct (nth_error xij di) as [r |] eqn:Edi; [| discriminate Hget].
  rewrite nth_error_map, Edi. cbn [option_map].
  assert (Hr : length r = t).
  { apply (shape3_nth c d t xi ci di r Hxi). unfold get2. rewrite Eci. exact Edi. }
  apply fill_row_nth; [exact Hget |].
  apply mask_row_nth. rewrite <- Hr. apply nth_error_Some. congruence.
Qed.

Lemma mask_sample_skip (value : A) (c d t : nat) (xi : tensor3 A) (len : Z) :
  shape3 c d t xi ->
  Z.of_nat t <= len ->
  mask_sample value t (xi, len) = xi.
Proof.
  intros [_ Hxi] Hlen. unfold mask_sample. cbn [fst snd].
  rewrite mask_row_all_false by assumption.
  rewrite <- (map_id xi) at 2. apply map_ext_in. intros xij Hin.
  rewrite Forall_forall in Hxi. destruct (Hxi _ Hin) as [_ Hrows].
  rewrite <- (map_id xij) at 2. apply map_ext_in. intros r Hr.
  rewrite Forall_forall in Hrows. rewrite <- (Hrows _ Hr).
  apply fill_row_all_false.
Qed.

(** C5: masking a batched tensor of time extent [t] with per-sample valid
    lengths zeroes, for every sample, every value at a timestep at or
    beyond the sample's valid length, across all channels and feature
    rows, and leaves every value at an earlier timestep unchanged; a
    sample whose valid length is at least [t] is not touched. *)
Theorem temporal_mask_correct (x : tensor4 A) (lengths : list Z) (n c d t : nat) :
  shape4 n c d t x ->
  size4 x = (n, c, d, t) ->
  length lengths = n ->
  Forall (fun l => 0 <= l) lengths ->
  exists mask y,
    temporal_mask x lengths = Ok (mask, y) /\
    forall i len,
      nth_error lengths i = Some len ->
      (forall ci di ti v,
          get4 x i ci di ti = Some v ->
          get4 y i ci di ti
          = Some (if len <=? Z.of_nat ti then szero else v)) /\
      (Z.of_nat t <= len -> nth_error y i = nth_error x i).
Proof.
  intros [Hn Hx] Hsize Hlen Hpos.
  unfold temporal_mask. rewrite Hsize.
  rewrite (build_mask_spec n t lengths Hlen Hpos). cbn [bind].
  rewrite (masked_fill_spec szero c d t x lengths Hx) by congruence.
  cbn [bind]. do 2 eexists. split; [reflexivity |].
  intros i len Hi.
  assert (Hix : exists xi, nth_error x i = Some xi).
  { destruct (nth_error x i) as [xi |] eqn:E; [eauto |].
    apply nth_error_None in E.
    assert (i < length lengths)%nat by (apply nth_error_Some; congruence). lia. }
  destruct Hix as [xi Hxi].
  assert (Hshape : shape3 c d t xi).
  { rewrite Forall_forall in Hx. apply Hx. eapply nth_error_In. exact Hxi. }
  assert (Hy : nth_error (map (mask_sample szero t) (combine x lengths)) i
               = Some (mask_sample szero t (xi, len))).
  { rewrite nth_error_map.
    rewrite (nth_error_combine_some x lengths i xi len Hxi Hi). reflexivity. }
  split.
  - intros ci di ti v Hget. unfold get4 in *. rewrite Hy. rewrite Hxi in Hget.
    apply (mask_sample_get szero c d t xi len ci di ti v Hshape Hget).
  - intros Hskip. rewrite Hy, Hxi. f_equal.
    apply (mask_sample_skip szero c d t xi len Hshape Hskip).
Qed.

End MaskingProperties.

(** ** The joint network *)

Section JointProperties.
Context {A : Type} `{Scalar A}.
Context {G : Type} `{Random G A}.

Lemma joint2_nth (tr : Transducer) (x y : tensor2 A) (k : nat) (xv yv : vec A) :
  nth_error x k = Some xv ->
  nth_error y k = Some yv ->
  nth_error (joint2 tr x y) k = Some (joint tr xv yv).
Proof.
  intros Hx Hy. unfold joint2.
  rewrite nth_error_map, (nth_error_combine_some x y k xv yv Hx Hy).
  reflexivity.
Qed.

Lemma shape3_sample_length (n m k : nat) (x : tensor3 A) (i : nat) (xi : tensor2 A) :
  shape3 n m k x -> nth_error x i = Some xi -> length xi = m.
Proof.
  intros [_ Hx] Hi. rewrite Forall_forall in Hx.
  apply (Hx xi (nth_error_In _ _ Hi)).
Qed.

Lemma shape3_size_mid (n m k : nat) (x : tensor3 A) (i : nat) (xi : tensor2 A) :
  shape3 n m k x -> nth_error x i = Some xi -> snd (fst (size3 x)) = m.
Proof.
  intros [_ Hx] Hi. destruct x as [| x0 x]; [destruct i; discriminate Hi |].
  cbn. inversion Hx as [| ? ? [Hx0 _] _]. exact Hx0.
Qed.

(** C3: the (b, t, u) slice of [forward_joint(xs, ys)] is
    [joint(xs[b, t], ys[b, u])]: the all-pairs computation applies the
    same sum, the same affine weights and the same log-normalisation as
    the single-pair one. *)
Theorem forward_joint_slice (tr : Transducer) (xs ys : tensor3 A)
    (n t u h : nat) (b ti ui : nat) (xv yv : vec A) :
  shape3 n t h xs ->
  shape3 n u h ys ->
  get2 xs b ti = Some xv ->
  get2 ys b ui = Some yv ->
  get3 (forward_joint tr xs ys) b ti ui = Some (joint tr xv yv).
Proof.
  intros Hxs Hys Hx Hy. unfold get2 in Hx, Hy.
  destruct (nth_error xs b) as [xb |] eqn:Exb; [| discriminate Hx].
  destruct (nth_error ys b) as [yb |] eqn:Eyb; [| discriminate Hy].
  pose proof (shape3_size_mid n t h xs b xb Hxs Exb) as Ht.
  pose proof (shape3_size_mid n u h ys b yb Hys Eyb) as Hu.
  pose proof (shape3_sample_length n t h xs b xb Hxs Exb) as Hxb.
  pose proof (shape3_sample_length n u h ys b yb Hys Eyb) as Hyb.
  unfold forward_joint.
  destruct (size3 xs) as [[n1 t1] h1]. destruct (size3 ys) as [[n2 u2] h2].
  cbn in Ht, Hu. subst t1 u2.
  unfold joint4, get3.
  rewrite nth_error_map.
  rewrite (nth_error_combine_some _ _ b (map (fun v => repeat v u) xb) (repeat yb t)).
  - cbn [option_map fst snd]. unfold get2.
    rewrite nth_error_map.
    rewrite (nth_error_combine_some _ _ ti (repeat xv u) yb).
    + cbn [option_map fst snd].
      apply joint2_nth; [| exact Hy].
      apply nth_error_repeat. rewrite <- Hyb. exact (nth_error_lt _ _ _ Hy).
    + rewrite nth_error_map, Hx. reflexivity.
    + apply nth_error_repeat. rewrite <- Hxb. exact (nth_error_lt _ _ _ Hx).
  - rewrite nth_error_map, Exb. reflexivity.
  - rewrite nth_error_map, Eyb. reflexivity.
Qed.

End JointProperties.

(** ** The decode loop *)

Lemma nth_error_zip3_with {T U V W : Type} (f : T -> U -> V -> W)
    (l1 : list T) (l2 : list U) (l3 : list V) i x y z :
  nth_error l1 i = Some x -> nth_error l2 i = Some y -> nth_error l3 i = Some z ->
  nth_error (zip3_with f l1 l2 l3) i = Some (f x y z).
Proof.
  intros H1 H2 H3. unfold zip3_with. rewrite nth_error_map.
  rewrite (nth_error_combine_some _ l3 i (x, y) z); [reflexivity | | exact H3].
  apply nth_error_combine_some; assumption.
Qed.

Lemma select_row_true {T : Type} (old new : list T) :
  length old = length new ->
  zip3_with (fun (m : bool) x y => if m then x else y)
            (repeat true (length old)) old new = old.
Proof.
  revert new. induction old as [| a old IH]; intros [| b new] Hlen;
    try discriminate Hlen; [reflexivity |].
  unfold zip3_with in *. cbn. f_equal. apply IH. cbn in Hlen. lia.
Qed.

Lemma select_row_false {T : Type} (old new : list T) :
  length old = length new ->
  zip3_with (fun (m : bool) x y => if m then x else y)
            (repeat false (length old)) old new = new.
Proof.
  revert new. induction old as [| a old IH]; intros [| b new] Hlen;
    try discriminate Hlen; [reflexivity |].
  unfold zip3_with in *. cbn. f_equal. apply IH. cbn in Hlen. lia.
Qed.

Lemma select_row {T : Type} (m : bool) (old new : list T) :
  length old = length new ->
  zip3_with (fun (m : bool) x y => if m then x else y)
            (bcast (length old) [m]) old new = if m then old else new.
Proof.
  intros Hlen. cbn [bcast].
  destruct m; [apply select_row_true | apply select_row_false]; exact Hlen.
Qed.

(** The mask row of the batch, broadcast over [n] samples, at sample [j]. *)
Lemma bcast_mask_nth (f : Z -> bool) (c : list Z) (n j : nat) (sym : Z) :
  nth_error c j = Some sym ->
  (j < n)%nat ->
  nth_error (bcast n (map (fun s => [f s]) c)) j = Some [f sym].
Proof.
  intros Hc Hj.
  destruct c as [| s0 [| s1 c']].
  - destruct j; discriminate Hc.
  - destruct j as [| j]; [| destruct j; discriminate Hc].
    injection Hc as ->. cbn [map bcast]. apply nth_error_repeat. exact Hj.
  - cbn [map bcast]. change (nth_error (map (fun s => [f s]) (s0 :: s1 :: c')) j = Some [f sym]).
    rewrite nth_error_map, Hc. reflexivity.
Qed.

Lemma bcast_repeat {T : Type} (a : T) (n : nat) : bcast n (repeat a n) = repeat a n.
Proof. destruct n as [| [| n]]; reflexivity. Qed.

Lemma zip3_with_keep {M T : Type} (f : M -> T -> T -> T) (m : M) (a b : list T) :
  Forall2 (fun x y => f m x y = x) a b ->
  zip3_with f (repeat m (length a)) a b = a.
Proof.
  induction 1 as [| x y a b Hxy _ IH]; [reflexivity |].
  unfold zip3_with in *. cbn. rewrite Hxy. f_equal. exact IH.
Qed.

Lemma Forall2_of_Forall {T U : Type} (P : T -> Prop) (Q : U -> Prop)
    (R : T -> U -> Prop) (a : list T) (b : list U) :
  length a = length b -> Forall P a -> Forall Q b ->
  (forall x y, P x -> Q y -> R x y) ->
  Forall2 R a b.
Proof.
  intros Hlen Ha. revert b Hlen.
  induction Ha as [| x a Hx _ IH]; intros [| y b] Hlen Hb HR;
    try discriminate Hlen; constructor.
  - inversion Hb; subst. apply HR; assumption.
  - inversion Hb; subst. apply IH; [cbn in Hlen; lia | assumption | exact HR].
Qed.

Lemma zip3_with_length {T U V W : Type} (f : T -> U -> V -> W) l1 l2 l3 :
  length (zip3_with f l1 l2 l3)
  = Nat.min (Nat.min (length l1) (length l2)) (length l3).
Proof. unfold zip3_with. rewrite length_map, !length_combine. reflexivity. Qed.

Lemma zip3_with_Forall {T U V W : Type} (f : T -> U -> V -> W)
    (P1 : T -> Prop) (P2 : U -> Prop) (P3 : V -> Prop) (Q : W -> Prop) l1 l2 l3 :
  Forall P1 l1 -> Forall P2 l2 -> Forall P3 l3 ->
  (forall x y z, P1 x -> P2 y -> P3 z -> Q (f x y z)) ->
  Forall Q (zip3_with f l1 l2 l3).
Proof.
  intros H1. revert l2 l3. unfold zip3_with.
  induction H1 as [| x l1 Hx _ IH]; intros l2 l3 H2 H3 HQ; [constructor |].
  destruct H2 as [| y l2 Hy H2]; [constructor |].
  destruct H3 as [| z l3 Hz H3]; [constructor |].
  cbn. constructor; [apply HQ; assumption | apply IH; assumption].
Qed.

Lemma bcast_length {T : Type} (n : nat) (l : list T) :
  length l = n -> length (bcast n l) = n.
Proof.
  intros <-. destruct l as [| a [| b l]]; reflexivity.
Qed.

Lemma bcast_Forall {T : Type} (P : T -> Prop) (n : nat) (l : list T) :
  Forall P l -> Forall P (bcast n l).
Proof.
  intros Hl. destruct l as [| a [| b l]]; try exact Hl.
  cbn. inversion Hl; subst. apply Forall_forall. intros x Hx.
  apply repeat_spec in Hx. subst x. assumption.
Qed.

Lemma set_nth_length {T : Type} (i : nat) (v : T) (l : list T) :
  length (set_nth i v l) = length l.
Proof.
  revert i. induction l as [| x l IH]; intros [| i]; cbn; try reflexivity.
  rewrite IH. reflexivity.
Qed.

Lemma set_nth_Forall {T : Type} (P : T -> Prop) (i : nat) (v : T) (l : list T) :
  P v -> Forall P l -> Forall P (set_nth i v l).
Proof.
  intros Hv Hl. revert i. induction Hl as [| x l Hx Hl IH]; intros [| i]; cbn;
    constructor; auto.
Qed.

(** [s[:, i] = c] keeps the shape of [s] when [c] has one entry per row. *)
Lemma set_col_shape {T : Type} (P : T -> Prop) (n t i : nat) (c : list T)
    (s : list (list T)) :
  length s = n -> length c = n ->
  Forall (fun r => length r = t /\ Forall P r) s ->
  Forall P c ->
  length (set_col i c s) = n /\
  Forall (fun r => length r = t /\ Forall P r) (set_col i c s).
Proof.
  intros Hs Hc Hrows Hcs. unfold set_col. split.
  - rewrite length_map, length_combine. lia.
  - clear Hs Hc. revert c Hcs.
    induction Hrows as [| r s [Hr HPr] _ IH]; intros c Hcs; [constructor |].
    destruct Hcs as [| v c Hv Hcs]; [constructor |].
    cbn. constructor; [| apply IH; exact Hcs].
    split; [rewrite set_nth_length; exact Hr | apply set_nth_Forall; assumption].
Qed.

Section DecodeProperties.
Context {A : Type} `{Scalar A}.
Context {G : Type} `{Random G A}.

(** The per-sample select of the state-carry rule. *)
Lemma where3_blank_mask (tr : Transducer) (c : list Z) (a b : tensor3 A)
    (j : nat) (sym : Z) :
  nth_error c j = Some sym ->
  carried tr sym j a b (where3 (blank_mask tr [c]) a b).
Proof.
  intros Hc l old new Ha Hb Hlen. unfold get2 in *.
  destruct (nth_error a l) as [al |] eqn:Eal; [| discriminate Ha].
  destruct (nth_error b l) as [bl |] eqn:Ebl; [| discriminate Hb].
  unfold where3, blank_mask. cbn [map bcast].
  rewrite (nth_error_zip3_with _ _ a b l
             (map (fun s => [s =? blank tr]) c) al bl);
    [| apply nth_error_repeat; exact (nth_error_lt _ _ _ Eal) | exact Eal | exact Ebl].
  rewrite (nth_error_zip3_with _ _ al bl j [sym =? blank tr] old new);
    [| apply (bcast_mask_nth (fun s => s =? blank tr)); [exact Hc | exact (nth_error_lt _ _ _ Ha)]
     | exact Ha | exact Hb].
  rewrite (select_row (sym =? blank tr) old new Hlen).
  destruct (sym =? blank tr); reflexivity.
Qed.

Lemma mapS_length {S T U : Type} (f : T -> S -> U * S) (l : list T) (s : S) :
  length (fst (mapS f l s)) = length l.
Proof.
  revert s. induction l as [| x l IH]; intros s; cbn; [reflexivity |].
  destruct (f x s) as [y s1]. specialize (IH s1).
  destruct (mapS f l s1) as [ys s2]. cbn in *. lia.
Qed.

Lemma Dropout2_length (training : bool) (p : Q) (x : tensor2 A) (g : G) :
  length (fst (Dropout2 training p x g)) = length x.
Proof.
  unfold Dropout2. destruct (dropout_active training p); [| reflexivity].
  apply mapS_length.
Qed.

Lemma Dropout3_single (training : bool) (p : Q) (x : tensor2 A) (g : G) :
  exists x', fst (Dropout3 training p [x] g) = [x'] /\ length x' = length x.
Proof.
  unfold Dropout3. destruct (dropout_active training p).
  - cbn [mapS]. pose proof (mapS_length (rand_dropout p) x g) as Hlen.
    destruct (mapS (rand_dropout p) x g) as [y g1]. cbn in *.
    exists y. split; [reflexivity | exact Hlen].
  - exists x. split; reflexivity.
Qed.

Lemma shape2_zeros (n m : nat) : shape2 n m (zeros2 n m).
Proof.
  unfold shape2, zeros2. rewrite repeat_length. split; [reflexivity |].
  apply Forall_forall. intros r Hr. apply repeat_spec in Hr. subst r.
  apply repeat_length.
Qed.

Lemma shape3_zeros (l n m : nat) : shape3 l n m (zeros3 l n m).
Proof.
  unfold shape3, zeros3. rewrite repeat_length. split; [reflexivity |].
  apply Forall_forall. intros r Hr. apply repeat_spec in Hr. subst r.
  apply shape2_zeros.
Qed.

Lemma shape3_cons (l n m : nat) (a : tensor2 A) (x : tensor3 A) :
  shape2 n m a -> shape3 l n m x -> shape3 (S l) n m (a :: x).
Proof.
  intros Ha [Hl Hx]. split; [cbn; lia | constructor; assumption].
Qed.

Lemma shape3_inv (l n m : nat) (a : tensor2 A) (x : tensor3 A) :
  shape3 (S l) n m (a :: x) -> shape2 n m a /\ shape3 l n m x.
Proof.
  intros [Hl Hx]. inversion Hx; subst. cbn in Hl.
  split; [assumption | split; [lia | assumption]].
Qed.

(** One time step through the layers keeps the batch size of the output
    and the shapes of the states. *)
Lemma lstm_layers_shape (training : bool) (p : Q) (n hidden : nat)
    (cells : list lstm_cell) :
  Forall (cell_ok n hidden) cells ->
  forall (first : bool) (x : tensor2 A) (hs cs : tensor3 A) (g : G),
    length x = n ->
    shape3 (length cells) n hidden hs ->
    shape3 (length cells) n hidden cs ->
    let r := lstm_layers training p first cells x hs cs g in
    length (fst (fst (fst r))) = n /\
    shape3 (length cells) n hidden (snd (fst (fst r))) /\
    shape3 (length cells) n hidden (snd (fst r)).
Proof.
  induction 1 as [| cell cells Hcell _ IH]; intros first x hs cs g Hx Hhs Hcs.
  - cbn. destruct Hhs as [Hl _]. destruct Hcs as [Hl' _].
    destruct hs; [| discriminate Hl]. destruct cs; [| discriminate Hl'].
    repeat split; try assumption; constructor.
  - destruct hs as [| h hs]; [destruct Hhs as [Hl _]; discriminate Hl |].
    destruct cs as [| c cs]; [destruct Hcs as [Hl _]; discriminate Hl |].
    cbn [length] in Hhs, Hcs.
    apply shape3_inv in Hhs. destruct Hhs as [Hh Hhs].
    apply shape3_inv in Hcs. destruct Hcs as [Hc Hcs].
    cbn [lstm_layers].
    assert (Hin : length (fst (if first then (x, g) else Dropout2 training p x g)) = n).
    { destruct first; [exact Hx | rewrite Dropout2_length; exact Hx]. }
    destruct (if first then (x, g) else Dropout2 training p x g) as [x_in g1].
    cbn [fst] in Hin.
    destruct (Hcell x_in h c Hin Hh Hc) as [Hh1 Hc1].
    destruct (cell x_in h c) as [h1 c1]. cbn [fst snd] in Hh1, Hc1.
    specialize (IH false h1 hs cs g1 (proj1 Hh1) Hhs Hcs).
    destruct (lstm_layers training p false cells h1 hs cs g1) as [[[out hs1] cs1] g2].
    cbn [fst snd] in *. destruct IH as [Hout [Hhs1 Hcs1]].
    cbn [length]. repeat split; try assumption.
    + cbn. destruct Hhs1 as [E _]. lia.
    + constructor; [exact Hh1 | apply Hhs1].
    + cbn. destruct Hcs1 as [E _]. lia.
    + constructor; [exact Hc1 | apply Hcs1].
Qed.

(** A step of the prediction network on one symbol per sample keeps the
    shapes: the representation is (1, n, prj) and the states are
    (layers, n, hidden). *)
Lemma step_features_shape (lm : LanguageModel) (c : list Z)
    (h : option (tensor3 A * tensor3 A)) (g : G) :
  lm_wf lm ->
  match h with
  | Some (hs, cs) =>
      shape3 (num_layers lm) (length c) (lm_hidden_size lm) hs /\
      shape3 (num_layers lm) (length c) (lm_hidden_size lm) cs
  | None => True
  end ->
  let r := fst (step_features lm [c] h g) in
  shape3 1 (length c) (length (lm_prj_weight lm)) (fst r) /\
  shape3 (num_layers lm) (length c) (lm_hidden_size lm) (fst (snd r)) /\
  shape3 (num_layers lm) (length c) (lm_hidden_size lm) (snd (snd r)).
Proof.
  intros Hwf Hh. unfold step_features, rnn. cbn [map hd].
  assert (Hstate : exists hs cs,
             match h with
             | Some s => s
             | None => step_init lm (length (map (lm_emb lm) c))
             end = (hs, cs) /\
             shape3 (num_layers lm) (length c) (lm_hidden_size lm) hs /\
             shape3 (num_layers lm) (length c) (lm_hidden_size lm) cs).
  { destruct h as [[hs cs] |].
    - exists hs, cs. split; [reflexivity | exact Hh].
    - unfold step_init. rewrite length_map. do 2 eexists.
      split; [reflexivity |]. split; apply shape3_zeros. }
  destruct Hstate as [hs [cs [-> [Hhs Hcs]]]].
  cbn [lstm_seq].
  pose proof (lstm_layers_shape (lm_training lm) (rnn_dropout lm)
                (length c) (lm_hidden_size lm) (lm_cells lm)
                (Hwf (length c)) true (map (lm_emb lm) c) hs cs g
                (length_map _ _) Hhs Hcs) as Hshape.
  destruct (lstm_layers (lm_training lm) (rnn_dropout lm) true (lm_cells lm)
              (map (lm_emb lm) c) hs cs g) as [[[out hs1] cs1] g1].
  cbn [fst snd] in Hshape. destruct Hshape as [Hout [Hhs1 Hcs1]].
  unfold prj.
  destruct (Dropout3_single (lm_training lm) (lm_dropout lm) out g1)
    as [out' [Hdrop Hout']].
  destruct (Dropout3 (lm_training lm) (lm_dropout lm) [out] g1) as [x g2].
  cbn [fst] in Hdrop. subst x. cbn [fst snd map].
  split; [| split; assumption].
  split; [reflexivity |]. constructor; [| constructor].
  split; [rewrite length_map; lia |].
  apply Forall_forall. intros r Hr. apply in_map_iff in Hr.
  destruct Hr as [v [<- _]]. unfold linear_nobias. apply length_map.
Qed.

Lemma decode_state_at_S (tr : Transducer) (xs : tensor3 A)
    (prior : option (vec A)) (sampled : bool) (epsilon : A)
    (argmax_mode : bool) (g : G) (k : nat) :
  decode_state_at tr xs prior sampled epsilon argmax_mode g (S k)
  = greedy_step tr xs prior sampled epsilon argmax_mode
      (decode_state_at tr xs prior sampled epsilon argmax_mode g k) k.
Proof.
  unfold decode_state_at. rewrite seq_S, fold_left_app. reflexivity.
Qed.

(** C1: at every timestep [k] of greedy decoding and for every sample [j]
    of the batch, the hidden state, the cell state and the prediction-step
    representation of sample [j] after the step are those before the step
    when the symbol emitted for [j] is the blank, and those of the
    candidate computed by one [step_features] call on the emitted symbols
    otherwise; the choice is made sample by sample. *)
Theorem state_carry (tr : Transducer) (xs : tensor3 A)
    (prior : option (vec A)) (sampled : bool) (epsilon : A)
    (argmax_mode : bool) (g : G) (k j : nat) (sym : Z) :
  let before := decode_state_at tr xs prior sampled epsilon argmax_mode g k in
  let after := decode_state_at tr xs prior sampled epsilon argmax_mode g (S k) in
  let cand := candidate_at tr xs prior sampled epsilon argmax_mode g k in
  nth_error (emitted_at tr xs prior sampled epsilon argmax_mode g k) j = Some sym ->
  carried tr sym j (ds_hd before) (fst (snd cand)) (ds_hd after) /\
  carried tr sym j (ds_cd before) (snd (snd cand)) (ds_cd after) /\
  carried tr sym j (ds_yd before) (fst cand) (ds_yd after).
Proof.
  intros before after cand Hsym. subst after cand.
  rewrite decode_state_at_S. fold before.
  unfold candidate_at, emitted_at in *. fold before in Hsym |- *.
  unfold greedy_step.
  destruct (select sampled epsilon (step_logits tr xs prior before k) (ds_rng before))
    as [c g1].
  cbn [fst] in Hsym.
  destruct (step_features (lm tr) [c] (Some (ds_hd before, ds_cd before)) g1)
    as [[yd_next [hd_next cd_next]] g2].
  cbn [fst snd ds_hd ds_cd ds_yd].
  repeat split; apply where3_blank_mask; exact Hsym.
Qed.

(** When every sample emits the blank, the select keeps the whole state. *)
Lemma where3_keep (tr : @Transducer A) (a b : tensor3 A) (l n m : nat) :
  shape3 l n m a -> shape3 l n m b ->
  where3 (blank_mask tr [repeat (blank tr) n]) a b = a.
Proof.
  intros [Hla Ha] [Hlb Hb]. unfold where3, blank_mask. cbn [map bcast].
  rewrite map_repeat, Z.eqb_refl.
  apply zip3_with_keep.
  apply (Forall2_of_Forall (shape2 n m) (shape2 n m)); [congruence | exact Ha | exact Hb |].
  intros al bl [Hal Hral] [Hbl Hrbl].
  rewrite Hal, bcast_repeat. rewrite <- Hal.
  apply zip3_with_keep.
  apply (Forall2_of_Forall (fun r => length r = m) (fun r => length r = m));
    [congruence | exact Hral | exact Hrbl |].
  intros old new Hold Hnew.
  apply (select_row true old new). congruence.
Qed.

(** A run that only emits the blank ends in the state that the initial
    [step_features] call produced. *)
Lemma all_blank_invariant (tr : Transducer) (xs : tensor3 A)
    (prior : option (vec A)) (sampled : bool) (epsilon : A)
    (argmax_mode : bool) (g : G) (n t h : nat) :
  lm_wf (lm tr) ->
  size3 xs = (n, t, h) ->
  (forall k, (k < t)%nat ->
      emitted_at tr xs prior sampled epsilon argmax_mode g k
      = repeat (blank tr) n) ->
  let final := greedy_loop tr xs prior sampled epsilon argmax_mode g in
  let primed := fst (step_features (lm tr) (start_symbols n) None g) in
  (ds_hd final, ds_cd final) = snd primed /\ ds_yd final = fst primed.
Proof.
  intros Hwf Hsize Hblank final primed. subst final. unfold greedy_loop.
  rewrite Hsize.
  assert (Hprimed :
            shape3 1 n (length (lm_prj_weight (lm tr))) (fst primed) /\
            shape3 (num_layers (lm tr)) n (lm_hidden_size (lm tr)) (fst (snd primed)) /\
            shape3 (num_layers (lm tr)) n (lm_hidden_size (lm tr)) (snd (snd primed))).
  { pose proof (step_features_shape (lm tr) (repeat 0 n) None g Hwf I) as Hs.
    rewrite repeat_length in Hs. exact Hs. }
  assert (Hinv : forall k, (k <= t)%nat ->
            let st := decode_state_at tr xs prior sampled epsilon argmax_mode g k in
            ds_hd st = fst (snd primed) /\ ds_cd st = snd (snd primed) /\
            ds_yd st = fst primed).
  { induction k as [| k IH]; intros Hk.
    - unfold decode_state_at. cbn [seq fold_left]. unfold decode_init.
      rewrite Hsize. subst primed.
      destruct (step_features (lm tr) (start_symbols n) None g)
        as [[yd0 [hd0 cd0]] g0].
      cbn. repeat split.
    - cbv zeta. rewrite decode_state_at_S.
      specialize (IH ltac:(lia)). cbv zeta in IH.
      pose proof (Hblank k ltac:(lia)) as Hc. unfold emitted_at in Hc.
      set (st := decode_state_at tr xs prior sampled epsilon argmax_mode g k) in *.
      destruct IH as [Ehd [Ecd Eyd]].
      unfold greedy_step.
      destruct (select sampled epsilon (step_logits tr xs prior st k) (ds_rng st))
        as [c g1].
      cbn [fst] in Hc. subst c.
      pose proof (step_features_shape (lm tr) (repeat (blank tr) n)
                    (Some (ds_hd st, ds_cd st)) g1 Hwf) as Hs.
      rewrite repeat_length in Hs. rewrite Ehd, Ecd in Hs.
      specialize (Hs (conj (proj1 (proj2 Hprimed)) (proj2 (proj2 Hprimed)))).
      cbv zeta in Hs. rewrite <- Ehd, <- Ecd in Hs.
      destruct (step_features (lm tr) [repeat (blank tr) n]
                  (Some (ds_hd st, ds_cd st)) g1) as [[yd1 [hd1 cd1]] g2].
      cbn [fst snd] in Hs. destruct Hs as [Hyd1 [Hhd1 Hcd1]].
      cbn [ds_hd ds_cd ds_yd].
      rewrite Ehd, Ecd, Eyd.
      destruct Hprimed as [Hp1 [Hp2 Hp3]].
      rewrite (where3_keep tr _ _ _ n _ Hp1 Hyd1).
      rewrite (where3_keep tr _ _ _ n _ Hp2 Hhd1).
      rewrite (where3_keep tr _ _ _ n _ Hp3 Hcd1).
      repeat split. }
  destruct (Hinv t (Nat.le_refl t)) as [Ehd [Ecd Eyd]].
  rewrite Ehd, Ecd, Eyd. split; [| reflexivity].
  destruct (snd primed); reflexivity.
Qed.

(** C2, as the code has it: when every timestep emits the blank for every
    sample (in particular in a single-sample decode whose argmax is the
    blank at each of the T timesteps), the recurrent state and the
    prediction-step representation that the decoder holds when the loop
    is over are the ones that the initial [step_features] call produced
    from the start symbol and a missing (zero) state: the loop never
    changed them. *)
Theorem all_blank_keeps_primed_state (tr : Transducer) (xs : tensor3 A)
    (prior : option (vec A)) (sampled : bool) (epsilon : A)
    (argmax_mode : bool) (g : G) (n t h : nat) :
  lm_wf (lm tr) ->
  size3 xs = (n, t, h) ->
  (forall k, (k < t)%nat ->
      emitted_at tr xs prior sampled epsilon argmax_mode g k
      = repeat (blank tr) n) ->
  let final := greedy_loop tr xs prior sampled epsilon argmax_mode g in
  let primed := fst (step_features (lm tr) (start_symbols n) None g) in
  (ds_hd final, ds_cd final) = snd primed /\ ds_yd final = fst primed.
Proof.
  exact (all_blank_invariant tr xs prior sampled epsilon argmax_mode g n t h).
Qed.

(** *** Determinism of the argmax path *)

Lemma Dropout2_inactive (training : bool) (p : Q) (x : tensor2 A) (g : G) :
  dropout_active training p = false -> Dropout2 training p x g = (x, g).
Proof. intros E. unfold Dropout2. rewrite E. reflexivity. Qed.

Lemma Dropout3_inactive (training : bool) (p : Q) (x : tensor3 A) (g : G) :
  dropout_active training p = false -> Dropout3 training p x g = (x, g).
Proof. intros E. unfold Dropout3. rewrite E. reflexivity. Qed.

Lemma rnn_dropout_inactive (m : @LanguageModel A) :
  dropout_active (lm_training m) (lm_dropout m) = false ->
  dropout_active (lm_training m) (rnn_dropout m) = false.
Proof.
  intros E. unfold rnn_dropout. destruct (Nat.ltb 1 (num_layers m)); [exact E |].
  unfold dropout_active. cbn. apply andb_false_r.
Qed.

(** Without dropout the layers neither read nor advance the generator. *)
Lemma lstm_layers_inactive (training : bool) (p : Q) (cells : list lstm_cell) :
  dropout_active training p = false ->
  forall (first : bool) (x : tensor2 A) (hs cs : tensor3 A) (g g' : G),
    lstm_layers training p first cells x hs cs g
    = (fst (lstm_layers training p first cells x hs cs g'), g).
Proof.
  intros E. induction cells as [| cell cells IH]; intros first x hs cs g g'.
  - reflexivity.
  - destruct hs as [| h hs]; [reflexivity |].
    destruct cs as [| c cs]; [reflexivity |].
    cbn [lstm_layers]. rewrite !(Dropout2_inactive training p) by exact E.
    assert (Ein : forall g0 : G, (if first then (x, g0) else (x, g0)) = (x, g0))
      by (intros g0; destruct first; reflexivity).
    rewrite !Ein. destruct (cell x h c) as [h1 c1].
    rewrite (IH false h1 hs cs g g').
    destruct (lstm_layers training p false cells h1 hs cs g') as [[[out hs1] cs1] g2].
    reflexivity.
Qed.

Lemma lstm_seq_inactive (training : bool) (p : Q) (cells : list lstm_cell) :
  dropout_active training p = false ->
  forall (xs hs cs : tensor3 A) (g g' : G),
    lstm_seq training p cells xs hs cs g
    = (fst (lstm_seq training p cells xs hs cs g'), g).
Proof.
  intros E xs. induction xs as [| x xs IH]; intros hs cs g g'.
  - reflexivity.
  - cbn [lstm_seq].
    rewrite (lstm_layers_inactive training p cells E true x hs cs g g').
    destruct (lstm_layers training p true cells x hs cs g') as [[[out hs1] cs1] g1].
    cbn [fst]. rewrite (IH hs1 cs1 g g1).
    destruct (lstm_seq training p cells xs hs1 cs1 g1) as [[[outs hs2] cs2] g2].
    reflexivity.
Qed.

Lemma step_features_inactive (m : LanguageModel) (x : tensor2 Z)
    (h : option (tensor3 A * tensor3 A)) (g g' : G) :
  dropout_active (lm_training m) (lm_dropout m) = false ->
  step_features m x h g = (fst (step_features m x h g'), g).
Proof.
  intros E. unfold step_features, rnn.
  destruct (match h with
            | Some s => s
            | None => step_init m (length (hd [] (map (map (lm_emb m)) x)))
            end) as [hs cs].
  rewrite (lstm_seq_inactive (lm_training m) (rnn_dropout m) (lm_cells m)
             (rnn_dropout_inactive m E) _ hs cs g g').
  destruct (lstm_seq (lm_training m) (rnn_dropout m) (lm_cells m)
              (map (map (lm_emb m)) x) hs cs g') as [[[out hs1] cs1] g1].
  cbn [fst]. unfold prj. rewrite !(Dropout3_inactive _ _ _ _ E). reflexivity.
Qed.

Lemma greedy_step_same_but_rng (tr : Transducer) (xs : tensor3 A)
    (prior : option (vec A)) (epsilon : A) (argmax_mode : bool)
    (s1 s2 : decode_state) (i : nat) :
  dropout_active (lm_training (lm tr)) (lm_dropout (lm tr)) = false ->
  same_but_rng s1 s2 ->
  same_but_rng (greedy_step tr xs prior false epsilon argmax_mode s1 i)
               (greedy_step tr xs prior false epsilon argmax_mode s2 i).
Proof.
  intros E [Es [Ec [Eyd [Ehd [Ecd Eit]]]]].
  unfold greedy_step, select, step_logits.
  rewrite Es, Eyd, Ehd, Ecd, Eit.
  set (z := match prior with
            | Some p => _
            | None => _
            end).
  rewrite (step_features_inactive (lm tr) [map argmax z]
             (Some (ds_hd s2, ds_cd s2)) (ds_rng s1) (ds_rng s2) E).
  destruct (step_features (lm tr) [map argmax z] (Some (ds_hd s2, ds_cd s2)) (ds_rng s2))
    as [[yd1 [hd1 cd1]] g2].
  cbn. repeat split.
Qed.

(** C7: with the argmax policy ([sampled=False]) and no dropout configured
    (rate 0 or evaluation mode), [greedy_decode] does not depend on the
    state of the random generator: two runs on the same input, prior and
    weights return the same output. *)
Theorem argmax_decoding_deterministic (tr : Transducer) (xs : tensor3 A)
    (prior : option (vec A)) (epsilon : A) (argmax_mode : bool) (g1 g2 : G) :
  dropout_active (lm_training (lm tr)) (lm_dropout (lm tr)) = false ->
  greedy_decode tr xs prior false epsilon argmax_mode g1
  = greedy_decode tr xs prior false epsilon argmax_mode g2.
Proof.
  intros E. unfold greedy_decode, greedy_loop.
  destruct (size3 xs) as [[n t] h].
  assert (Hinv : forall k,
             same_but_rng
               (decode_state_at tr xs prior false epsilon argmax_mode g1 k)
               (decode_state_at tr xs prior false epsilon argmax_mode g2 k)).
  { induction k as [| k IH].
    - unfold decode_state_at. cbn [seq fold_left]. unfold decode_init.
      destruct (size3 xs) as [[n0 t0] h0].
      rewrite (step_features_inactive (lm tr) (start_symbols n0) None g1 g2 E).
      destruct (step_features (lm tr) (start_symbols n0) None g2)
        as [[yd0 [hd0 cd0]] g0].
      cbn. repeat split.
    - rewrite !decode_state_at_S.
      apply greedy_step_same_but_rng; [exact E | exact IH]. }
  destruct (Hinv t) as [Es _]. exact Es.
Qed.

(** *** Shape of the output and number of iterations *)

Lemma where3_shape (tr : @Transducer A) (c : list Z) (a b : tensor3 A) (l n m : nat) :
  length c = n ->
  shape3 l n m a -> shape3 l n m b ->
  shape3 l n m (where3 (blank_mask tr [c]) a b).
Proof.
  intros Hc [Hla Ha] [Hlb Hb]. unfold where3, blank_mask. cbn [map bcast].
  split.
  - rewrite zip3_with_length, repeat_length. lia.
  - apply (zip3_with_Forall _
             (fun m2 => m2 = map (fun sym => [sym =? blank tr]) c)
             (shape2 n m) (shape2 n m)); try assumption.
    + apply Forall_forall. intros x Hx. apply repeat_spec in Hx. exact Hx.
    + intros m2 al bl -> [Hal Hral] [Hbl Hrbl]. split.
      * rewrite zip3_with_length, bcast_length by (rewrite length_map; lia). lia.
      * apply (zip3_with_Forall _ (fun m1 => exists bit, m1 = [bit])
                 (fun r => length r = m) (fun r => length r = m));
          try assumption.
        -- apply bcast_Forall. apply Forall_forall. intros x Hx.
           apply in_map_iff in Hx. destruct Hx as [sym [<- _]]. eauto.
        -- intros m1 old new [bit ->] Hold Hnew.
           rewrite (select_row bit old new) by congruence.
           destruct bit; assumption.
Qed.

Lemma select_length (sampled : bool) (epsilon : A) (z : tensor2 A) (g : G) :
  length (fst (select sampled epsilon z g)) = length z.
Proof.
  unfold select. destruct sampled; [| cbn; apply length_map].
  pose proof (mapS_length (fun row => rand_multinomial (map sexp row)) z g) as Hc.
  destruct (mapS (fun row => rand_multinomial (map sexp row)) z g) as [c g1].
  cbn [fst] in Hc.
  destruct (sltb szero epsilon); [| exact Hc].
  pose proof (mapS_length rand_bernoulli (map (fun _ => epsilon) c) g1) as He.
  destruct (mapS rand_bernoulli (map (fun _ => epsilon) c) g1) as [e g2].
  pose proof (mapS_length (mapS (fun _ : A => rand_randn)) z g2) as Hn.
  destruct (mapS (mapS (fun _ : A => rand_randn)) z g2) as [noise g3].
  cbn [fst] in *. unfold where1.
  rewrite zip3_with_length, length_map, He, Hn, length_map. lia.
Qed.

Lemma joint_length (tr : @Transducer A) (x y : vec A) :
  length (fc_weight tr) = vocab_size tr ->
  length (fc_bias tr) = vocab_size tr ->
  length (joint tr x y) = vocab_size tr.
Proof.
  intros Hw Hb. unfold joint, log_softmax, fc, linear.
  rewrite !length_map, length_combine. lia.
Qed.

Lemma step_logits_shape (tr : @Transducer A) (xs : tensor3 A)
    (prior : option (vec A)) (st : @decode_state A G) (i n p : nat) :
  transducer_wf tr -> prior_ok tr prior ->
  length xs = n ->
  shape3 1 n p (ds_yd st) ->
  shape2 n (vocab_size tr) (step_logits tr xs prior st i).
Proof.
  intros [_ [Hw Hb]] Hprior Hxs [Hyl Hyd].
  destruct (ds_yd st) as [| y0 [| y1 yd]] eqn:Eyd; try discriminate Hyl.
  inversion Hyd as [| ? ? [Hy0 _] _]; subst.
  assert (Hz : shape2 (length xs) (vocab_size tr)
                 (joint2 tr (map (fun x => nth i x []) xs) y0)).
  { unfold joint2. split.
    - rewrite length_map, length_combine, length_map. lia.
    - apply Forall_forall. intros r Hr. apply in_map_iff in Hr.
      destruct Hr as [q [<- _]]. apply joint_length; assumption. }
  unfold step_logits. rewrite Eyd. cbn [hd]. destruct prior as [pr |]; [| exact Hz].
  destruct Hz as [Hzl Hzr]. split; [rewrite length_map; exact Hzl |].
  apply Forall_forall. intros r Hr. apply in_map_iff in Hr.
  destruct Hr as [row [<- Hrow]]. rewrite Forall_forall in Hzr.
  unfold sub_vec. rewrite length_map, length_combine, (Hzr _ Hrow).
  cbn in Hprior. lia.
Qed.

Lemma record_step_shape (tr : @Transducer A) (argmax_mode : bool) (n t i : nat)
    (c : list Z) (z : tensor2 A) (s : decoded) :
  length c = n ->
  shape2 n (vocab_size tr) z ->
  decoded_shape argmax_mode n t (vocab_size tr) s ->
  decoded_shape argmax_mode n t (vocab_size tr) (record_step argmax_mode i c z s).
Proof.
  intros Hc [Hzl Hzr] Hs. destruct s as [sy | d]; destruct Hs as [-> [Hl Hrows]]; cbn.
  - split; [reflexivity |].
    destruct (set_col_shape (fun _ => True) n t i c sy Hl Hc) as [Hl' Hrows'].
    + eapply Forall_impl; [| exact Hrows]. intros r Hr. split; [exact Hr |].
      apply Forall_forall. intros; exact I.
    + apply Forall_forall. intros; exact I.
    + split; [exact Hl' |]. eapply Forall_impl; [| exact Hrows'].
      intros r [Hr _]. exact Hr.
  - split; [reflexivity |].
    destruct (set_col_shape (fun v => length v = vocab_size tr) n t i z d Hl Hzl)
      as [Hl' Hrows'].
    + eapply Forall_impl; [| exact Hrows]. intros r Hr. exact Hr.
    + exact Hzr.
    + split; [exact Hl' |]. eapply Forall_impl; [| exact Hrows'].
      intros r Hr. exact Hr.
Qed.

Lemma greedy_step_inv (tr : @Transducer A) (xs : tensor3 A)
    (prior : option (vec A)) (sampled : bool) (epsilon : A)
    (argmax_mode : bool) (n t k : nat) (st : @decode_state A G) :
  transducer_wf tr -> prior_ok tr prior ->
  length xs = n ->
  decode_inv tr argmax_mode n t k st ->
  decode_inv tr argmax_mode n t (S k)
    (greedy_step tr xs prior sampled epsilon argmax_mode st k).
Proof.
  intros Hwf Hprior Hxs [Hit [Hs [Hyd [Hhd Hcd]]]].
  pose proof (step_logits_shape tr xs prior st k n _ Hwf Hprior Hxs Hyd) as Hz.
  unfold greedy_step.
  pose proof (select_length sampled epsilon (step_logits tr xs prior st k) (ds_rng st))
    as Hc.
  destruct (select sampled epsilon (step_logits tr xs prior st k) (ds_rng st))
    as [c g1].
  cbn [fst] in Hc. rewrite (proj1 Hz) in Hc.
  pose proof (step_features_shape (lm tr) c (Some (ds_hd st, ds_cd st)) g1
                (proj1 Hwf)) as Hnext.
  rewrite Hc in Hnext. specialize (Hnext (conj Hhd Hcd)). cbv zeta in Hnext.
  destruct (step_features (lm tr) [c] (Some (ds_hd st, ds_cd st)) g1)
    as [[yd1 [hd1 cd1]] g2].
  cbn [fst snd] in Hnext. destruct Hnext as [Hyd1 [Hhd1 Hcd1]].
  unfold decode_inv. cbn [ds_iter ds_s ds_yd ds_hd ds_cd].
  split; [congruence |].
  split; [apply record_step_shape; assumption |].
  split; [| split]; apply where3_shape; assumption.
Qed.

Lemma decode_init_inv (tr : @Transducer A) (xs : tensor3 A)
    (argmax_mode : bool) (g : G) (n t h : nat) :
  transducer_wf tr ->
  size3 xs = (n, t, h) ->
  decode_inv tr argmax_mode n t 0 (decode_init tr xs argmax_mode g).
Proof.
  intros Hwf Hsize. unfold decode_init. rewrite Hsize.
  pose proof (step_features_shape (lm tr) (repeat 0 n) None g (proj1 Hwf) I) as Hs.
  rewrite repeat_length in Hs. unfold start_symbols.
  destruct (step_features (lm tr) [repeat 0 n] None g) as [[yd0 [hd0 cd0]] g0].
  cbn [fst snd] in Hs. unfold decode_inv. cbn [ds_iter ds_s ds_yd ds_hd ds_cd].
  split; [reflexivity |]. split; [| exact Hs].
  destruct argmax_mode; cbn.
  - split; [reflexivity |]. split; [apply repeat_length |].
    apply Forall_forall. intros r Hr. apply repeat_spec in Hr. subst r.
    apply repeat_length.
  - split; [reflexivity |]. split; [apply repeat_length |].
    apply Forall_forall. intros r Hr. apply repeat_spec in Hr. subst r.
    split; [apply repeat_length |].
    apply Forall_forall. intros v Hv. apply repeat_spec in Hv. subst v.
    apply repeat_length.
Qed.

Lemma decode_state_at_inv (tr : @Transducer A) (xs : tensor3 A)
    (prior : option (vec A)) (sampled : bool) (epsilon : A)
    (argmax_mode : bool) (g : G) (n t h k : nat) :
  transducer_wf tr -> prior_ok tr prior ->
  length xs = n ->
  size3 xs = (n, t, h) ->
  decode_inv tr argmax_mode n t k
    (decode_state_at tr xs prior sampled epsilon argmax_mode g k).
Proof.
  intros Hwf Hprior Hn Hsize. induction k as [| k IH].
  - unfold decode_state_at. cbn [seq fold_left].
    apply (decode_init_inv tr xs argmax_mode g n t h Hwf Hsize).
  - rewrite decode_state_at_S. apply greedy_step_inv; assumption.
Qed.

End DecodeProperties.

(** ** Length errors in the encoder *)

Lemma narrow_fill_length (row : list bool) (start len : Z) (row' : list bool) :
  narrow_fill row start len = Ok row' -> length row' = length row.
Proof.
  unfold narrow_fill.
  destruct (Z.ltb_spec len 0); [discriminate |].
  destruct (Z.ltb_spec start (- Z.of_nat (length row))); [discriminate |].
  destruct (Z.ltb_spec (Z.of_nat (length row)) start); [discriminate |]. cbn [orb].
  destruct (Z.ltb_spec start 0);
    match goal with
    | |- context [?a <? ?b] => destruct (Z.ltb_spec a b); [discriminate |]
    end;
    intros [= <-];
    rewrite !length_app, repeat_length, length_firstn, length_skipn; lia.
Qed.

Lemma fill_sample_row (row : list bool) (start len : Z) :
  fill_sample [[row]] start len
  = r <- narrow_fill row start len ;; Ok [[r]].
Proof.
  unfold fill_sample. cbn [mapM].
  destruct (narrow_fill row start len); reflexivity.
Qed.

(** A negative length makes the mask loop fail: [narrow] refuses it. *)
Lemma mask_loop_negative (t : nat) (lengths : list Z) :
  Exists (fun l => l < 0) lengths ->
  forall (mask : mask4) (i : nat),
    mask_rows_ok t mask ->
    is_ok (mask_loop mask i lengths (Z.of_nat t)) = false.
Proof.
  induction 1 as [start rest Hneg | start rest _ IH]; intros mask i Hmask.
  - cbn [mask_loop].
    destruct (Z.ltb_spec 0 (Z.of_nat t - start)); [| lia].
    destruct (nth_error mask i) as [mi |] eqn:Emi; [| reflexivity].
    unfold mask_rows_ok in Hmask. rewrite Forall_forall in Hmask.
    destruct (Hmask mi (nth_error_In _ _ Emi)) as [row [-> Hrow]].
    rewrite fill_sample_row.
    pose proof (narrow_fill_negative row start Hneg) as Hfail.
    rewrite Hrow in Hfail.
    destruct (narrow_fill row start (Z.of_nat t - start)); [discriminate Hfail |].
    reflexivity.
  - cbn [mask_loop].
    destruct (0 <? Z.of_nat t - start).
    + destruct (nth_error mask i) as [mi |] eqn:Emi; [| reflexivity].
      pose proof Hmask as Hall. unfold mask_rows_ok in Hall.
      rewrite Forall_forall in Hall.
      destruct (Hall mi (nth_error_In _ _ Emi)) as [row [-> Hrow]].
      rewrite fill_sample_row.
      destruct (narrow_fill row start (Z.of_nat t - start)) as [row' |] eqn:Efill;
        [| reflexivity].
      cbn [bind]. apply IH. apply set_nth_Forall; [| exact Hmask].
      exists row'. split; [reflexivity |].
      rewrite (narrow_fill_length row _ _ row' Efill). exact Hrow.
    + cbn [bind]. apply IH. exact Hmask.
Qed.

Lemma build_mask_negative (n t : nat) (lengths : list Z) :
  Exists (fun l => l < 0) lengths -> is_ok (build_mask n t lengths) = false.
Proof.
  intros Hneg. unfold build_mask. apply mask_loop_negative; [exact Hneg |].
  apply Forall_forall. intros mi Hmi. apply repeat_spec in Hmi. subst mi.
  exists (repeat false t). split; [reflexivity | apply repeat_length].
Qed.

Lemma build_mask_ok_nonneg (n t : nat) (lengths : list Z) (mask : mask4) :
  build_mask n t lengths = Ok mask -> Forall (fun l => 0 <= l) lengths.
Proof.
  intros Hok. apply Forall_forall. intros l Hl.
  destruct (Z.lt_ge_cases l 0) as [Hneg | Hge]; [| exact Hge].
  assert (Hex : Exists (fun l => l < 0) lengths) by (apply Exists_exists; eauto).
  apply (build_mask_negative n t) in Hex. rewrite Hok in Hex. discriminate Hex.
Qed.

Lemma sorted_decreasing_last (l : list Z) :
  sorted_decreasing l = true -> Forall (fun v => last l 0 <= v) l.
Proof.
  induction l as [| a [| b l] IH]; intros Hs.
  - constructor.
  - constructor; [cbn; lia | constructor].
  - cbn [sorted_decreasing] in Hs. apply andb_prop in Hs. destruct Hs as [Hba Hs].
    apply Z.leb_le in Hba. specialize (IH Hs).
    change (last (a :: b :: l) 0) with (last (b :: l) 0).
    constructor; [| exact IH].
    inversion IH; subst. lia.
Qed.

Section EncoderProperties.
Context {A : Type} `{Scalar A}.

(** The packing kernel refuses a length that is zero or negative. *)
Lemma pack_kernel_nonpositive (input : tensor3 A) (lengths : list Z) :
  Exists (fun l => l <= 0) lengths ->
  is_ok (pack_kernel input lengths) = false.
Proof.
  intros Hex. unfold pack_kernel. destruct (size3 input) as [[t n] f].
  destruct (Nat.eqb (t * n * f) 0); [reflexivity |].
  destruct (negb (Nat.eqb (length lengths) n)); [reflexivity |].
  destruct (Z.leb_spec (last lengths 0) 0) as [| Hlast]; [reflexivity |].
  destruct (sorted_decreasing lengths) eqn:Hs; [| reflexivity].
  exfalso. apply sorted_decreasing_last in Hs.
  apply Exists_exists in Hex. destruct Hex as [l [Hin Hl]].
  rewrite Forall_forall in Hs. specialize (Hs l Hin). lia.
Qed.

(** The packing kernel refuses lengths that increase somewhere. *)
Lemma pack_kernel_unsorted (input : tensor3 A) (lengths : list Z) :
  sorted_decreasing lengths = false ->
  pack_kernel input lengths = Err RuntimeError.
Proof.
  intros Hs. unfold pack_kernel. destruct (size3 input) as [[t n] f].
  destruct (Nat.eqb (t * n * f) 0); [reflexivity |].
  destruct (negb (Nat.eqb (length lengths) n)); [reflexivity |].
  destruct (last lengths 0 <=? 0); [reflexivity |].
  rewrite Hs. reflexivity.
Qed.

(** Layers that leave the time axis alone leave the lengths alone. *)
Lemma forward_loop_static (layers : list (@module A)) :
  Forall (fun m => is_time_decrease (fst m) = Ok false) layers ->
  forall (x : tensor4 A) (lengths : list Z) (mask : option mask4) x' lengths',
    forward_loop layers x lengths mask = Ok (x', lengths') ->
    lengths' = lengths.
Proof.
  induction 1 as [| [l f] layers Hl _ IH]; intros x lengths mask x' lengths' Hrun.
  - cbn in Hrun. congruence.
  - cbn [forward_loop] in Hrun. cbn [fst] in Hl.
    destruct (f x) as [x1 |]; [| discriminate Hrun]. cbn [bind] in Hrun.
    rewrite Hl in Hrun. cbn [bind] in Hrun.
    destruct (match mask with
              | Some m => masked_fill szero x1 m
              | None => Ok x1
              end) as [x2 |]; [| discriminate Hrun].
    cbn [bind] in Hrun. exact (IH _ _ _ _ _ Hrun).
Qed.

(** The lengths that the convolution stack of a built encoder returns. *)
Lemma built_forward_lengths (m : @AcousticModel A) (x : tensor4 A)
    (lengths : list Z) (x' : tensor3 A) (lengths' : list Z) :
  am_built m ->
  MaskConv_forward (am_conv m) x lengths = Ok (x', lengths') ->
  lengths' = map (fun l => (l - 1) / 2 + 1) lengths /\
  Forall (fun l => 0 <= l) lengths'.
Proof.
  intros [dropout Hbuilt] Hrun. unfold MaskConv_forward in Hrun.
  destruct (am_conv m) as [| [l1 f1] rest]; [discriminate Hbuilt |].
  cbn [map fst am_conv_layers] in Hbuilt. injection Hbuilt as -> Hrest.
  cbn [forward_loop] in Hrun.
  destruct (f1 x) as [x1 |]; [| discriminate Hrun]. cbn [bind] in Hrun.
  change (is_time_decrease (Conv2d 1 32 (21, 11) (2, 2) (10, 5) (1, 1)))
    with (@Ok bool true) in Hrun.
  cbn [bind] in Hrun.
  assert (Hlen : decrease_dim_lengths lengths (Conv2d 1 32 (21, 11) (2, 2) (10, 5) (1, 1))
                 = Ok (map (fun l => (l - 1) / 2 + 1) lengths)).
  { unfold decrease_dim_lengths. apply mapM_ok. apply Forall_forall.
    intros l _. unfold decrease_dim, floordiv. cbn. do 3 f_equal. lia. }
  rewrite Hlen in Hrun. cbn [bind] in Hrun.
  destruct (temporal_mask x1 (map (fun l => (l - 1) / 2 + 1) lengths))
    as [[mask y] |] eqn:Emask; [| discriminate Hrun].
  cbn [bind] in Hrun.
  destruct (forward_loop rest y (map (fun l => (l - 1) / 2 + 1) lengths) (Some mask))
    as [[x2 lengths2] |] eqn:Erest; [| discriminate Hrun].
  cbn [bind] in Hrun. injection Hrun as _ <-.
  assert (Hstatic : Forall (fun m0 : @module A => is_time_decrease (fst m0) = Ok false) rest).
  { apply Forall_map with (f := fst) (P := fun l => is_time_decrease l = Ok false).
    rewrite Hrest. repeat constructor. }
  rewrite (forward_loop_static rest Hstatic _ _ _ _ _ Erest).
  split; [reflexivity |].
  unfold temporal_mask in Emask. destruct (size4 x1) as [[[n c] d] t].
  destruct (build_mask n t (map (fun l => (l - 1) / 2 + 1) lengths)) as [mk |] eqn:Ebuild;
    [| discriminate Emask].
  exact (build_mask_ok_nonneg n t _ mk Ebuild).
Qed.

End EncoderProperties.

(** ** Packing in either batch order *)

Lemma insert_desc_length (p : Z * nat) (l : list (Z * nat)) :
  length (insert_desc p l) = S (length l).
Proof.
  induction l as [| q l IH]; cbn; [reflexivity |].
  destruct (fst q <=? fst p); cbn; [reflexivity | rewrite IH; reflexivity].
Qed.

Lemma insert_desc_Forall (P : Z * nat -> Prop) (p : Z * nat) (l : list (Z * nat)) :
  P p -> Forall P l -> Forall P (insert_desc p l).
Proof.
  intros Hp Hl. induction Hl as [| q l Hq Hl IH]; cbn.
  - constructor; [exact Hp | constructor].
  - destruct (fst q <=? fst p); repeat constructor; assumption.
Qed.

Lemma insert_desc_sorted (p : Z * nat) (l : list (Z * nat)) :
  sorted_decreasing (map fst l) = true ->
  sorted_decreasing (map fst (insert_desc p l)) = true.
Proof.
  induction l as [| q l IH]; intros Hs; [reflexivity |].
  cbn [insert_desc]. destruct (Z.leb_spec (fst q) (fst p)) as [Hle | Hgt].
  - cbn [map sorted_decreasing]. apply andb_true_intro. split.
    + apply Z.leb_le. exact Hle.
    + exact Hs.
  - assert (Htail : sorted_decreasing (map fst l) = true).
    { destruct l as [| r l]; [reflexivity |]. cbn [map sorted_decreasing] in Hs.
      apply andb_prop in Hs. apply Hs. }
    specialize (IH Htail).
    destruct l as [| r l].
    + cbn. rewrite andb_true_r. apply Z.leb_le. lia.
    + cbn [map sorted_decreasing] in Hs. apply andb_prop in Hs. destruct Hs as [Hrq _].
      cbn [insert_desc] in IH |- *.
      destruct (fst r <=? fst p); cbn [map sorted_decreasing] in IH |- *;
        apply andb_true_intro; (split; [| exact IH]).
      * apply Z.leb_le. lia.
      * exact Hrq.
Qed.

Lemma sort_desc_length (lengths : list Z) :
  length (sort_desc lengths) = length lengths.
Proof.
  unfold sort_desc.
  assert (E : forall ps : list (Z * nat),
             length (fold_right insert_desc [] ps) = length ps).
  { induction ps as [| p ps IH]; cbn; [reflexivity |].
    rewrite insert_desc_length, IH. reflexivity. }
  rewrite E, length_combine, length_seq. lia.
Qed.

Lemma sort_desc_sorted (lengths : list Z) :
  sorted_decreasing (map fst (sort_desc lengths)) = true.
Proof.
  unfold sort_desc.
  induction (combine lengths (seq 0 (length lengths))) as [| p ps IH];
    [reflexivity |].
  cbn [fold_right]. apply insert_desc_sorted. exact IH.
Qed.

Lemma sort_desc_Forall (P : Z -> Prop) (lengths : list Z) :
  Forall P lengths ->
  Forall (fun p => P (fst p) /\ (snd p < length lengths)%nat) (sort_desc lengths).
Proof.
  intros HP. unfold sort_desc.
  assert (Hps : Forall (fun p => P (fst p) /\ (snd p < length lengths)%nat)
                  (combine lengths (seq 0 (length lengths)))).
  { apply Forall_forall. intros [v i] Hin. cbn [fst snd]. split.
    - rewrite Forall_forall in HP. apply HP. eapply in_combine_l. exact Hin.
    - apply in_combine_r in Hin. apply in_seq in Hin. lia. }
  induction Hps as [| p ps Hp _ IH]; [constructor |].
  cbn [fold_right]. apply insert_desc_Forall; assumption.
Qed.

Lemma last_in {T : Type} (l : list T) (d : T) : l <> [] -> In (last l d) l.
Proof.
  induction l as [| a [| b l] IH]; intros Hne.
  - contradiction.
  - left. reflexivity.
  - right. apply IH. discriminate.
Qed.

Section PackingProperties.
Context {A : Type} `{Scalar A}.
Context {G : Type} `{Random G A}.

(** With [enforce_sorted=False] the packing of sequence mode succeeds in
    any batch order. *)
Lemma LanguageModel_pack_ok (m : @LanguageModel A) (x : tensor2 Z)
    (lengths : list Z) (n e : nat) :
  x <> [] ->
  Forall (fun row => length row = n) x ->
  (0 < n)%nat -> (0 < e)%nat ->
  (forall sym, length (lm_emb m sym) = e) ->
  length lengths = n ->
  Forall (fun l => 0 <= l) lengths ->
  is_ok (LanguageModel_pack m x lengths) = true.
Proof.
  intros Hne Hrows Hn He Hemb Hlen Hpos.
  unfold LanguageModel_pack, pack_padded_sequence.
  set (lens := map (fun l => l + 1) lengths).
  assert (Hlens : Forall (fun v => 0 < v) lens).
  { subst lens. apply Forall_map. eapply Forall_impl; [| exact Hpos].
    intros l Hl. cbn beta in *. lia. }
  pose proof (sort_desc_length lens) as Hsl.
  pose proof (sort_desc_sorted lens) as Hss.
  pose proof (sort_desc_Forall (fun v => 0 < v) lens Hlens) as Hsf.
  assert (Hll : length lens = n) by (subst lens; rewrite length_map; exact Hlen).
  rewrite Hll in Hsl, Hsf.
  destruct (sort_desc lens) as [| [v0 i0] sorted]; [cbn in Hsl; lia |].
  destruct x as [| r0 x]; [contradiction |].
  inversion Hrows as [| ? ? Hr0 _]; subst.
  inversion Hsf as [| ? ? [_ Hi0] _]; subst. cbn [snd] in Hi0.
  assert (Hf : length (nth i0 (map (lm_emb m) (repeat 0 (length r0))) []) = e).
  { rewrite (nth_indep _ [] (lm_emb m 0))
      by (rewrite length_map, repeat_length, Hr0; exact Hi0).
    rewrite map_nth. apply Hemb. }
  unfold pack_kernel, size3, index_select_batch, prepend_start.
  cbn [hd app map length fst snd]. rewrite Hf, !length_map.
  destruct (Nat.eqb_spec (S (S (length x)) * S (length sorted) * e) 0)
    as [E0 | _]; [exfalso; nia |].
  rewrite Nat.eqb_refl. cbn [negb].
  assert (Hlast : 0 < last (v0 :: map fst sorted) 0).
  { pose proof (@last_in Z (v0 :: map fst sorted) 0 ltac:(discriminate)) as Hin.
    change (v0 :: map fst sorted) with (map fst ((v0, i0) :: sorted)) in Hin.
    apply in_map_iff in Hin. destruct Hin as [p [Hp Hin]].
    change (v0 :: map fst sorted) with (map fst ((v0, i0) :: sorted)).
    rewrite <- Hp. rewrite Forall_forall in Hsf. apply (Hsf p Hin). }
  destruct (Z.leb_spec (last (v0 :: map fst sorted) 0) 0); [lia |].
  cbn [map fst] in Hss. rewrite Hss. reflexivity.
Qed.

End PackingProperties.

(** ** Claims about the encoder's handling of lengths *)

Section LengthClaims.
Context {A : Type} `{Scalar A}.
Context {G : Type} `{Random G A}.

Lemma built_encoder_rejects_negative (m : @AcousticModel A) (x : tensor4 A)
    (lengths : list Z) (head : bool) :
  am_built m ->
  Exists (fun l => l < 0) lengths ->
  is_ok (AcousticModel_forward m x lengths head) = false.
Proof.
  intros Hbuilt Hneg. unfold AcousticModel_forward.
  destruct (MaskConv_forward (am_conv m) x lengths) as [[x' lengths'] |] eqn:Econv;
    [| reflexivity].
  cbn [bind].
  destruct (built_forward_lengths m x lengths x' lengths' Hbuilt Econv) as [-> _].
  assert (Hex : Exists (fun l => l <= 0) (map (fun l => (l - 1) / 2 + 1) lengths)).
  { apply Exists_exists in Hneg. destruct Hneg as [l [Hin Hl]].
    apply Exists_exists. exists ((l - 1) / 2 + 1). split.
    - apply in_map_iff. exists l. split; [reflexivity | exact Hin].
    - assert ((l - 1) / 2 < 0) by (apply Z.div_lt_upper_bound; lia). lia. }
  unfold pack_padded_sequence.
  pose proof (pack_kernel_nonpositive x' _ Hex) as Hfail.
  destruct (pack_kernel x' (map (fun l => (l - 1) / 2 + 1) lengths));
    [discriminate Hfail | reflexivity].
Qed.

Lemma mask_skips_overlong (x : tensor4 A) (lengths : list Z) (n c d t : nat) :
  shape4 n c d t x ->
  size4 x = (n, c, d, t) ->
  length lengths = n ->
  Forall (fun l => 0 <= l) lengths ->
  exists mask y,
    temporal_mask x lengths = Ok (mask, y) /\
    forall i len,
      nth_error lengths i = Some len ->
      Z.of_nat t <= len ->
      nth_error y i = nth_error x i.
Proof.
  intros [Hn Hx] Hsize Hlen Hpos.
  unfold temporal_mask. rewrite Hsize.
  rewrite (build_mask_spec n t lengths Hlen Hpos). cbn [bind].
  rewrite (masked_fill_spec szero c d t x lengths Hx) by congruence.
  cbn [bind]. do 2 eexists. split; [reflexivity |].
  intros i len Hi Hskip.
  destruct (nth_error x i) as [xi |] eqn:Exi.
  - rewrite nth_error_map, (nth_error_combine_some x lengths i xi len Exi Hi).
    cbn [option_map]. f_equal.
    apply (mask_sample_skip szero c d t xi len); [| exact Hskip].
    rewrite Forall_forall in Hx. apply Hx. eapply nth_error_In. exact Exi.
  - apply nth_error_None in Exi.
    assert (i < length lengths)%nat by (apply nth_error_Some; congruence). lia.
Qed.

(** C8, as the code has it: a negative declared length makes the forward
    pass of a built encoder fail (in the mask's [narrow] or in the packing
    check); a length that is at or beyond the time extent raises nothing
    in the masking step, which leaves that sample as it is. *)
Theorem negative_length_fails_overlong_skipped :
  (forall (m : @AcousticModel A) (x : tensor4 A) (lengths : list Z) (head : bool),
      am_built m ->
      Exists (fun l => l < 0) lengths ->
      is_ok (AcousticModel_forward m x lengths head) = false) /\
  (forall (x : tensor4 A) (lengths : list Z) (n c d t : nat),
      shape4 n c d t x ->
      size4 x = (n, c, d, t) ->
      length lengths = n ->
      Forall (fun l => 0 <= l) lengths ->
      exists mask y,
        temporal_mask x lengths = Ok (mask, y) /\
        forall i len,
          nth_error lengths i = Some len ->
          Z.of_nat t <= len ->
          nth_error y i = nth_error x i).
Proof.
  split.
  - exact built_encoder_rejects_negative.
  - exact mask_skips_overlong.
Qed.

Lemma built_encoder_rejects_unsorted (m : @AcousticModel A) (x : tensor4 A)
    (lengths : list Z) (head : bool) :
  am_built m ->
  sorted_decreasing (map (fun l => (l - 1) / 2 + 1) lengths) = false ->
  is_ok (AcousticModel_forward m x lengths head) = false.
Proof.
  intros Hbuilt Hs. unfold AcousticModel_forward.
  destruct (MaskConv_forward (am_conv m) x lengths) as [[x' lengths'] |] eqn:Econv;
    [| reflexivity].
  cbn [bind].
  destruct (built_forward_lengths m x lengths x' lengths' Hbuilt Econv) as [-> _].
  unfold pack_padded_sequence. rewrite (pack_kernel_unsorted x' _ Hs).
  reflexivity.
Qed.

(** The length formula of the built stack keeps a non-increasing order. *)
Lemma built_lengths_keep_order (lengths : list Z) :
  sorted_decreasing lengths = true ->
  sorted_decreasing (map (fun l => (l - 1) / 2 + 1) lengths) = true.
Proof.
  induction lengths as [| a [| b rest] IH]; intros Hs; try reflexivity.
  cbn [sorted_decreasing] in Hs. apply andb_prop in Hs. destruct Hs as [Hba Hs].
  apply Z.leb_le in Hba. specialize (IH Hs).
  cbn [map sorted_decreasing] in IH |- *. apply andb_true_intro. split.
  - apply Z.leb_le. assert ((b - 1) / 2 <= (a - 1) / 2) by (apply Z.div_le_mono; lia).
    lia.
  - exact IH.
Qed.

(** C9: the encoder packs with sorted-order enforcement, so its forward pass
    needs the batch in non-increasing order of valid length: it raises an
    error whenever the lengths it packs (those that the convolution stack
    returns; for a built encoder floor((L - 1) / 2) + 1 of the declared
    ones) increase somewhere, and declared lengths in non-increasing order
    pass the order check.  The sequence mode of the prediction network
    packs with enforcement disabled and accepts every batch order. *)
Theorem packing_order_precondition :
  (forall (m : @AcousticModel A) (x : tensor4 A) (lengths : list Z) (head : bool)
          (x' : tensor3 A) (lengths' : list Z),
      MaskConv_forward (am_conv m) x lengths = Ok (x', lengths') ->
      sorted_decreasing lengths' = false ->
      AcousticModel_forward m x lengths head = Err RuntimeError) /\
  (forall (m : @AcousticModel A) (x : tensor4 A) (lengths : list Z) (head : bool),
      am_built m ->
      sorted_decreasing (map (fun l => (l - 1) / 2 + 1) lengths) = false ->
      is_ok (AcousticModel_forward m x lengths head) = false) /\
  (forall lengths : list Z,
      sorted_decreasing lengths = true ->
      sorted_decreasing (map (fun l => (l - 1) / 2 + 1) lengths) = true) /\
  (forall (m : @LanguageModel A) (x : tensor2 Z) (lengths : list Z) (n e : nat),
      x <> [] ->
      Forall (fun row => length row = n) x ->
      (0 < n)%nat -> (0 < e)%nat ->
      (forall sym, length (lm_emb m sym) = e) ->
      length lengths = n ->
      Forall (fun l => 0 <= l) lengths ->
      is_ok (LanguageModel_pack m x lengths) = true).
Proof.
  split; [| split; [| split]].
  - intros m x lengths head x' lengths' Hconv Hs.
    unfold AcousticModel_forward. rewrite Hconv. cbn [bind].
    unfold pack_padded_sequence. rewrite (pack_kernel_unsorted x' lengths' Hs).
    reflexivity.
  - exact built_encoder_rejects_unsorted.
  - exact built_lengths_keep_order.
  - intros m x lengths n e. apply LanguageModel_pack_ok.
Qed.

End LengthClaims.

(** ** The integer model: runs of the statements above *)

Lemma int_cell_ok (n hidden : nat) : cell_ok n hidden int_cell.
Proof.
  intros x h c Hx [Hh Hrh] [Hc Hrc]. unfold int_cell. cbn [fst snd].
  split; split.
  - rewrite length_map, length_combine. lia.
  - apply Forall_forall. intros r Hr. apply in_map_iff in Hr.
    destruct Hr as [[hr xr] [<- Hin]]. cbn [fst snd]. rewrite length_map.
    rewrite Forall_forall in Hrh. apply Hrh. eapply in_combine_l. exact Hin.
  - rewrite length_map, length_combine. lia.
  - apply Forall_forall. intros r Hr. apply in_map_iff in Hr.
    destruct Hr as [[cr xr] [<- Hin]]. cbn [fst snd]. rewrite length_map.
    rewrite Forall_forall in Hrc. apply Hrc. eapply in_combine_l. exact Hin.
Qed.

Lemma int_lm_wf : lm_wf int_lm.
Proof.
  intros n. cbn [int_lm lm_cells lm_hidden_size].
  constructor; [apply int_cell_ok | constructor; [apply int_cell_ok | constructor]].
Qed.

Lemma int_tr_wf : transducer_wf int_tr.
Proof. split; [exact int_lm_wf | split; reflexivity]. Qed.

Lemma int_am_built : am_built int_am.
Proof. exists 0%Q. reflexivity. Qed.

Lemma int_xs_shape : shape3 2 2 2 int_xs.
Proof. repeat constructor. Qed.

Lemma int_ys_shape : shape3 2 3 2 int_ys.
Proof. repeat constructor. Qed.

Lemma int_map_shape : shape4 2 1 1 4 int_map.
Proof. repeat constructor. Qed.

Lemma state_carry_witness :
  let before := decode_state_at int_tr int_xs None false 0 true 0%nat 0 in
  let after := decode_state_at int_tr int_xs None false 0 true 0%nat 1 in
  let cand := candidate_at int_tr int_xs None false 0 true 0%nat 0 in
  emitted_at int_tr int_xs None false 0 true 0%nat 0 = [0; 1] /\
  (carried int_tr 0 0 (ds_hd before) (fst (snd cand)) (ds_hd after) /\
   carried int_tr 0 0 (ds_cd before) (snd (snd cand)) (ds_cd after) /\
   carried int_tr 0 0 (ds_yd before) (fst cand) (ds_yd after)) /\
  (carried int_tr 1 1 (ds_hd before) (fst (snd cand)) (ds_hd after) /\
   carried int_tr 1 1 (ds_cd before) (snd (snd cand)) (ds_cd after) /\
   carried int_tr 1 1 (ds_yd before) (fst cand) (ds_yd after)).
Proof.
  intros before after cand. split; [reflexivity |]. split.
  - apply (state_carry int_tr int_xs None false 0 true 0%nat 0 0 0). reflexivity.
  - apply (state_carry int_tr int_xs None false 0 true 0%nat 0 1 1). reflexivity.
Defined.

Lemma all_blank_keeps_primed_state_witness :
  let final := greedy_loop int_tr int_xs_blank None false 0 true 0%nat in
  let primed := fst (step_features (lm int_tr) (start_symbols 1) None 0%nat) in
  (forall k, (k < 3)%nat ->
     emitted_at int_tr int_xs_blank None false 0 true 0%nat k = repeat (blank int_tr) 1) /\
  (ds_hd final, ds_cd final) = snd primed /\ ds_yd final = fst primed.
Proof.
  intros final primed.
  assert (Hblank : forall k, (k < 3)%nat ->
            emitted_at int_tr int_xs_blank None false 0 true 0%nat k
            = repeat (blank int_tr) 1).
  { intros k Hk. destruct k as [| [| [| k]]]; [reflexivity .. | lia]. }
  split; [exact Hblank |].
  exact (all_blank_keeps_primed_state int_tr int_xs_blank None false 0 true 0%nat
           1 3 2 int_lm_wf eq_refl Hblank).
Defined.

Lemma forward_joint_slice_witness :
  get2 int_xs 1 0 = Some [0; 9] /\
  get2 int_ys 1 2 = Some [2; 2] /\
  get3 (forward_joint int_tr int_xs int_ys) 1 0 2 = Some (joint int_tr [0; 9] [2; 2]).
Proof.
  split; [reflexivity |]. split; [reflexivity |].
  exact (forward_joint_slice int_tr int_xs int_ys 2 2 3 2 1 0 2 [0; 9] [2; 2]
           int_xs_shape int_ys_shape eq_refl eq_refl).
Defined.

Lemma temporal_mask_correct_witness :
  exists mask y,
    temporal_mask int_map [2; 9] = Ok (mask, y) /\
    forall i len,
      nth_error [2; 9] i = Some len ->
      (forall ci di ti v,
          get4 int_map i ci di ti = Some v ->
          get4 y i ci di ti = Some (if len <=? Z.of_nat ti then szero else v)) /\
      (Z.of_nat 4 <= len -> nth_error y i = nth_error int_map i).
Proof.
  apply (temporal_mask_correct int_map [2; 9] 2 1 1 4 int_map_shape eq_refl eq_refl).
  repeat constructor; lia.
Defined.

Lemma argmax_decoding_deterministic_witness :
  dropout_active (lm_training (lm int_tr)) (lm_dropout (lm int_tr)) = false /\
  greedy_decode int_tr int_xs None false 0 true 0%nat
  = greedy_decode int_tr int_xs None false 0 true 7%nat.
Proof.
  split; [reflexivity |].
  exact (argmax_decoding_deterministic int_tr int_xs None 0 true 0%nat 7%nat eq_refl).
Defined.

(** C7 fails as stated: [greedy_decode] does not switch the model to
    evaluation mode, and the [nn.Dropout] of the projection is on the argmax
    path.  A model in training mode with dropout rate 1/2, the argmax
    policy, the same input, no prior and the same weights: the run in which
    the dropout keeps the projection input selects symbol 0, the run in
    which it drops it selects symbol 1. *)
Lemma argmax_decoding_depends_on_dropout :
  dropout_active (lm_training (lm dropout_tr)) (lm_dropout (lm dropout_tr)) = true /\
  greedy_decode dropout_tr dropout_xs None false 0 true 0%nat = Symbols [[0]] /\
  greedy_decode dropout_tr dropout_xs None false 0 true 1%nat = Symbols [[1]] /\
  greedy_decode dropout_tr dropout_xs None false 0 true 0%nat
  <> greedy_decode dropout_tr dropout_xs None false 0 true 1%nat.
Proof.
  split; [reflexivity |]. split; [reflexivity |]. split; [reflexivity |].
  discriminate.
Qed.

Lemma negative_length_fails_overlong_skipped_witness :
  is_ok (AcousticModel_forward int_am (int_features 2 6) [6; -1] false) = false /\
  exists mask y,
    temporal_mask int_map [2; 9] = Ok (mask, y) /\
    forall i len,
      nth_error [2; 9] i = Some len ->
      Z.of_nat 4 <= len ->
      nth_error y i = nth_error int_map i.
Proof.
  split.
  - apply (proj1 negative_length_fails_overlong_skipped int_am (int_features 2 6)
             [6; -1] false int_am_built).
    apply Exists_cons_tl. apply Exists_cons_hd. lia.
  - apply (proj2 negative_length_fails_overlong_skipped int_map [2; 9] 2%nat 1%nat 1%nat 4%nat
             int_map_shape eq_refl eq_refl).
    repeat constructor; lia.
Defined.

(** C8 fails as stated: the feature map has time extent 5, the declared
    length is 6, and the forward pass of the built encoder returns. *)
Lemma overlong_length_is_accepted :
  am_built int_am /\
  size4 (int_features 1 5) = (1, 1, 40, 5)%nat /\
  exists out, AcousticModel_forward int_am (int_features 1 5) [6] false = Ok (out, [3]).
Proof.
  split; [exact int_am_built |]. split; [reflexivity |].
  eexists. vm_compute. reflexivity.
Qed.

Lemma packing_order_precondition_witness :
  AcousticModel_forward int_am (int_features 2 6) [2; 6] false = Err RuntimeError /\
  is_ok (AcousticModel_forward int_am (int_features 2 6) [3; 6] true) = false /\
  sorted_decreasing (map (fun l => (l - 1) / 2 + 1) [6; 4]) = true /\
  is_ok (LanguageModel_pack int_lm [[1; 1]; [1; 0]] [1; 2]) = true.
Proof.
  destruct (packing_order_precondition (A := Z)) as [Hpacked [Hbuilt [Hmono Hlm]]].
  split; [| split; [| split]].
  - eapply (Hpacked int_am (int_features 2 6) [2; 6] false).
    + vm_compute. reflexivity.
    + reflexivity.
  - apply (Hbuilt int_am (int_features 2 6) [3; 6] true int_am_built). reflexivity.
  - apply (Hmono [6; 4]). reflexivity.
  - apply (Hlm int_lm [[1; 1]; [1; 0]] [1; 2] 2%nat 2%nat);
      try lia; try reflexivity; try discriminate; repeat constructor; lia.
Defined.

(** C9 fails as stated: a batch whose declared lengths 5, 6 are not in
    decreasing order.  The order is checked on the lengths after the
    convolution stack, both become 3, and the forward pass of the built
    encoder returns. *)
Lemma equalised_lengths_are_accepted :
  am_built int_am /\
  sorted_decreasing [5; 6] = false /\
  exists out, AcousticModel_forward int_am (int_features 2 6) [5; 6] false = Ok (out, [3; 3]).
Proof.
  split; [exact int_am_built |]. split; [reflexivity |].
  eexists. vm_compute. reflexivity.
Qed.

(** ** The real model: a run that only emits the blank *)

Lemma add_vec_length {A : Type} `{Scalar A} (x y : list A) :
  length (add_vec x y) = Nat.min (length x) (length y).
Proof. unfold add_vec. rewrite length_map, length_combine. reflexivity. Qed.

Lemma mul_vec_length (x y : list R) :
  length (mul_vec x y) = Nat.min (length x) (length y).
Proof. unfold mul_vec. rewrite length_map, length_combine. reflexivity. Qed.

Lemma real_cell_ok (n : nat) : cell_ok n 1 real_cell.
Proof.
  intros x h c Hx [Hh Hrh] [Hc Hrc]. unfold real_cell, real_lstm_cell. cbn [fst snd].
  assert (Hrows : Forall (fun p : list R * list R * list R =>
                            length (snd (fst p)) = 1%nat /\ length (snd p) = 1%nat)
                    (combine (combine x h) c)).
  { apply Forall_forall. intros [[xr hr] cr] Hin. cbn [fst snd].
    rewrite Forall_forall in Hrh, Hrc. split.
    - apply Hrh. apply in_combine_l in Hin. apply in_combine_r in Hin. exact Hin.
    - apply Hrc. apply in_combine_r in Hin. exact Hin. }
  split; split.
  - rewrite !length_map, !length_combine. lia.
  - apply Forall_forall. intros r Hr. apply in_map_iff in Hr.
    destruct Hr as [q [<- Hq]]. apply in_map_iff in Hq. destruct Hq as [p [<- Hp]].
    rewrite Forall_forall in Hrows. destruct (Hrows p Hp) as [Hhr Hcr].
    unfold lstm_row. cbn [fst].
    rewrite mul_vec_length, !length_map, add_vec_length, !mul_vec_length, !length_map.
    rewrite !length_firstn, !length_skipn, add_vec_length. unfold linear.
    rewrite !length_map, !length_combine, Hcr. reflexivity.
  - rewrite !length_map, !length_combine. lia.
  - apply Forall_forall. intros r Hr. apply in_map_iff in Hr.
    destruct Hr as [q [<- Hq]]. apply in_map_iff in Hq. destruct Hq as [p [<- Hp]].
    rewrite Forall_forall in Hrows. destruct (Hrows p Hp) as [Hhr Hcr].
    unfold lstm_row. cbn [snd].
    rewrite add_vec_length, !mul_vec_length, !length_map.
    rewrite !length_firstn, !length_skipn, add_vec_length. unfold linear.
    rewrite !length_map, !length_combine, Hcr. reflexivity.
Qed.

Lemma real_tr_wf : transducer_wf real_tr.
Proof.
  split; [| split; reflexivity].
  intros n. cbn [real_tr lm real_lm lm_cells lm_hidden_size].
  constructor; [apply real_cell_ok | constructor].
Qed.

Lemma dot_zero_weight (v : list R) : dot [0%R] v = 0%R.
Proof.
  unfold dot, sum_vec. destruct v as [| r v]; cbn; lra.
Qed.

(** The joint of [real_tr] puts the blank first, whatever its input. *)
Lemma real_joint_argmax (x y : list R) : argmax (joint real_tr x y) = 0.
Proof.
  unfold joint, fc, linear, log_softmax.
  cbn [real_tr fc_weight fc_bias combine map fst snd argmax argmax_from].
  rewrite !dot_zero_weight. cbn [sltb Scalar_R sadd ssub]. unfold Rltb.
  destruct (Rlt_dec _ _) as [Hlt | _]; [exfalso; lra | reflexivity].
Qed.

Lemma real_emitted_blank (k : nat) :
  emitted_at real_tr real_xs None false 0%R true tt k = repeat 0 1.
Proof.
  unfold emitted_at, select. cbn [fst].
  destruct (decode_state_at_inv real_tr real_xs None false 0%R true tt 1 3 1 k
              real_tr_wf I eq_refl eq_refl) as [_ [_ [Hyd _]]].
  pose proof (step_logits_shape real_tr real_xs None _ k 1 _ real_tr_wf I eq_refl Hyd)
    as [Hzl _].
  unfold step_logits, joint2 in *. rewrite map_map.
  rewrite <- Hzl, length_map. clear Hzl Hyd.
  induction (combine (map (fun x => nth k x []) real_xs)
                     (hd [] (ds_yd (decode_state_at real_tr real_xs None false 0%R
                                      true tt k)))) as [| p ps IH];
    [reflexivity |].
  cbn [map length repeat]. rewrite real_joint_argmax, IH. reflexivity.
Qed.

Lemma sigmoid_pos (x : R) : (0 < sigmoid x)%R.
Proof.
  unfold sigmoid. apply Rdiv_lt_0_compat; [lra |].
  pose proof (exp_pos (- x)). lra.
Qed.

Lemma tanh_1_pos : (0 < tanh 1)%R.
Proof.
  unfold tanh. apply Rdiv_lt_0_compat.
  - rewrite <- sinh_0. apply sinh_lt. lra.
  - unfold cosh. pose proof (exp_pos 1). pose proof (exp_pos (Ropp 1)). lra.
Qed.

(** C2 fails as stated: in this single-sample decode over three timesteps
    every argmax is the blank, and the state held after the loop is not the
    zero state of [step_init]: it is the state after the step on the start
    symbol, whose cell component is sigmoid(0) * tanh(1). *)
Lemma all_blank_state_is_not_zero :
  let final := greedy_loop real_tr real_xs None false 0%R true tt in
  size3 real_xs = (1, 3, 1)%nat /\
  (forall k, (k < 3)%nat ->
     emitted_at real_tr real_xs None false 0%R true tt k = [blank real_tr]) /\
  (ds_hd final, ds_cd final) <> step_init (lm real_tr) 1.
Proof.
  intros final.
  split; [reflexivity |]. split; [intros k _; exact (real_emitted_blank k) |].
  destruct (all_blank_invariant real_tr real_xs None false 0%R true tt 1 3 1
              (proj1 real_tr_wf) eq_refl (fun k _ => real_emitted_blank k))
    as [Hstate _].
  fold final in Hstate. rewrite Hstate. intros Heq.
  apply (f_equal snd) in Heq.
  cbv - [Rplus Rmult Rminus Ropp Rinv Rdiv exp ln tanh sigmoid IZR Rlt_dec Rltb] in Heq.
  injection Heq as Heq.
  assert (E0 : (0 + 0 * 0 + 0 + (0 + 0 * 0 + 0) = 0)%R) by lra.
  assert (E1 : (0 + 0 * 0 + 1 + (0 + 0 * 0 + 0) = 1)%R) by lra.
  rewrite E0, E1 in Heq.
  pose proof (Rmult_lt_0_compat _ _ (sigmoid_pos 0) tanh_1_pos) as Hpos.
  lra.
Qed.

(** * Further properties of the code *)

(** ** Length arithmetic *)

Lemma Ok_inj {T : Type} (a b : T) : Ok a = Ok b -> a = b.
Proof. congruence. Qed.

Lemma decrease_dim_error (x : Z) (l : layer) (dim : axis) (e : error) :
  decrease_dim x l dim = Err e -> e = ZeroDivisionError.
Proof.
  destruct l as [ic oc k s p d | nf | | q]; cbn; try discriminate.
  unfold floordiv. destruct (tuple_get s dim =? 0); cbn; [| discriminate].
  congruence.
Qed.

Lemma decrease_dim_ok_iff (x : Z) (l : layer) :
  is_ok (decrease_dim x l ax1) = true <-> stride_ok l.
Proof.
  destruct l as [ic oc k s p d | nf | | q]; unfold stride_ok; cbn;
    try (split; [intros _; lia | reflexivity]).
  unfold floordiv. destruct (Z.eqb_spec (snd s) 0) as [E | E]; cbn.
  - split; [discriminate | contradiction].
  - split; [intros _; exact E | reflexivity].
Qed.

(** X1: [output_time] returns exactly when no [Conv2d] of the stack has a
    zero stride on the time axis, whatever the input length, and the only
    error it can raise is [ZeroDivisionError]. *)
Theorem output_time_fails_only_on_zero_stride (layers : list layer) (x : Z) :
  (is_ok (output_time layers x) = true <-> Forall stride_ok layers) /\
  (forall e, output_time layers x = Err e -> e = ZeroDivisionError).
Proof.
  revert x. induction layers as [| l rest IH]; intros x.
  - split; [split; [constructor | reflexivity] | discriminate].
  - cbn [output_time]. pose proof (decrease_dim_ok_iff x l) as Hl.
    destruct (decrease_dim x l ax1) as [x' | e'] eqn:El; cbn [bind is_ok] in *.
    + destruct (IH x') as [Hiff Herr]. split; [| exact Herr].
      split.
      * intros Hok. constructor; [apply Hl; reflexivity | apply Hiff; exact Hok].
      * intros Hall. inversion Hall; subst. apply Hiff. assumption.
    + split.
      * split; [discriminate |].
        intros Hall. inversion Hall; subst. apply Hl. assumption.
      * intros e [= <-]. exact (decrease_dim_error x l ax1 e' El).
Qed.

(** X2: [output_time] over a concatenated stack is [output_time] over the
    first part followed by [output_time] over the second, errors included. *)
Theorem output_time_app (l1 l2 : list layer) (x : Z) :
  output_time (l1 ++ l2) x = (y <- output_time l1 x ;; output_time l2 y).
Proof.
  revert x. induction l1 as [| l l1 IH]; intros x; [reflexivity |].
  cbn [app output_time]. destruct (decrease_dim x l ax1) as [x' | e]; cbn [bind].
  - apply IH.
  - reflexivity.
Qed.

Lemma decrease_dim_monotone (l : layer) (x y : Z) :
  stride_pos l -> x <= y ->
  exists a b, decrease_dim x l ax1 = Ok a /\ decrease_dim y l ax1 = Ok b /\ a <= b.
Proof.
  intros Hs Hxy. destruct l as [ic oc k s p d | nf | | q];
    try (exists x, y; repeat split; assumption).
  unfold stride_pos in Hs. cbn in Hs. unfold decrease_dim. cbn [tuple_get].
  rewrite !floordiv_nonzero by lia. cbn [bind]. do 2 eexists.
  split; [reflexivity |]. split; [reflexivity |].
  assert ((x + 2 * snd p - snd d * (snd k - 1) - 1) / snd s
          <= (y + 2 * snd p - snd d * (snd k - 1) - 1) / snd s)
    by (apply Z.div_le_mono; lia).
  lia.
Qed.

(** X3: with positive strides the output length grows with the input
    length: lengths in order stay in order through the stack. *)
Theorem output_time_monotone (layers : list layer) (x y : Z) :
  Forall stride_pos layers ->
  x <= y ->
  exists a b,
    output_time layers x = Ok a /\ output_time layers y = Ok b /\ a <= b.
Proof.
  intros Hall. revert x y. induction Hall as [| l rest Hl _ IH]; intros x y Hxy.
  - exists x, y. repeat split; assumption.
  - destruct (decrease_dim_monotone l x y Hl Hxy) as [a [b [Ea [Eb Hab]]]].
    cbn [output_time]. rewrite Ea, Eb. cbn [bind]. apply IH. exact Hab.
Qed.

Lemma output_time_monotone_witness :
  exists a b,
    output_time (am_conv_layers 0) 7 = Ok a /\
    output_time (am_conv_layers 0) 12 = Ok b /\ a <= b.
Proof.
  apply (output_time_monotone (am_conv_layers 0) 7 12); [| lia].
  repeat constructor.
Defined.

Lemma output_dim_loop_factors (layers : list layer) (dim channels : Z) :
  output_dim_loop layers dim channels
  = (d <- output_axis layers dim ax0 ;;
     Ok (d * fold_left (fun c l => match l with Conv2d _ oc _ _ _ _ => oc | _ => c end)
                       layers channels)).
Proof.
  revert dim channels. induction layers as [| l rest IH]; intros dim channels.
  - reflexivity.
  - cbn [output_dim_loop output_axis fold_left].
    destruct (decrease_dim dim l ax0) as [dim' | e]; cbn [bind]; [| reflexivity].
    apply IH.
Qed.

Lemma no_conv_axis (layers : list layer) (x : Z) (dim : axis) :
  Forall (fun l => is_Conv2d l = false) layers ->
  output_axis layers x dim = Ok x /\ last_out_channels layers = 0.
Proof.
  intros Hall. unfold last_out_channels.
  assert (Hgen : forall x c0,
             output_axis layers x dim = Ok x /\
             fold_left (fun c l => match l with Conv2d _ oc _ _ _ _ => oc | _ => c end)
                       layers c0 = c0).
  { induction Hall as [| l rest Hl _ IH]; intros x0 c0.
    - split; reflexivity.
    - destruct l; try discriminate Hl; cbn [output_axis decrease_dim bind fold_left];
        apply IH. }
  apply Hgen.
Qed.

(** X4: [output_dim] is the length that the stack gives the feature axis
    times the [out_channels] of its last [Conv2d]; on a stack without any
    [Conv2d] the channel count stays 0 and the result is 0, whatever the
    input size. *)
Theorem output_dim_factors (layers : list layer) (dim : Z) :
  output_dim layers dim
  = (d <- output_axis layers dim ax0 ;; Ok (d * last_out_channels layers)) /\
  (Forall (fun l => is_Conv2d l = false) layers -> output_dim layers dim = Ok 0).
Proof.
  assert (E : output_dim layers dim
              = (d <- output_axis layers dim ax0 ;; Ok (d * last_out_channels layers)))
    by apply output_dim_loop_factors.
  split; [exact E |].
  intros Hall. rewrite E.
  destruct (no_conv_axis layers dim ax0 Hall) as [-> ->]. cbn [bind].
  rewrite Z.mul_0_r. reflexivity.
Qed.

Lemma output_dim_factors_witness :
  output_dim [BatchNorm2d 32; ReLU; Dropout 0] 40 = Ok 0.
Proof.
  apply (proj2 (output_dim_factors [BatchNorm2d 32; ReLU; Dropout 0] 40)).
  repeat constructor.
Defined.

(** X5: for the stack that [AcousticModel.__init__] builds, a time length
    x becomes floor((x - 1) / 2) + 1, which lies between 1 and x for every
    x >= 1, and a feature size d becomes
    32 * (floor((floor((d - 1) / 2) + 1 - 1) / 2) + 1): the 40 bins of the
    transducer give a recurrent input size of 320. *)
Theorem built_stack_sizes (dropout : Q) (x d : Z) :
  output_time (am_conv_layers dropout) x = Ok ((x - 1) / 2 + 1) /\
  (1 <= x -> 1 <= (x - 1) / 2 + 1 <= x) /\
  output_dim (am_conv_layers dropout) d = Ok ((((d - 1) / 2 + 1 - 1) / 2 + 1) * 32) /\
  output_dim (am_conv_layers dropout) 40 = Ok 320.
Proof.
  split; [| split; [| split]].
  - unfold am_conv_layers. cbn. unfold floordiv. cbn.
    rewrite Z.div_1_r. replace (x + 10 - 10 - 1) with (x - 1) by lia.
    f_equal. lia.
  - intros Hx.
    assert (0 <= (x - 1) / 2) by (apply Z.div_pos; lia).
    assert ((x - 1) / 2 <= x - 1) by (apply Z.div_le_upper_bound; lia).
    lia.
  - unfold output_dim, am_conv_layers. cbn. unfold floordiv. cbn.
    replace (d + 20 - 20 - 1) with (d - 1) by lia.
    replace ((d - 1) / 2 + 1 + 10 - 10 - 1) with ((d - 1) / 2 + 1 - 1) by lia.
    reflexivity.
  - reflexivity.
Qed.

Lemma built_stack_sizes_witness :
  1 <= 7 /\ 1 <= (7 - 1) / 2 + 1 <= 7.
Proof.
  assert (H : 1 <= 7) by lia.
  split; [exact H |].
  exact (proj1 (proj2 (built_stack_sizes 0 7 40)) H).
Defined.

(** X6: [is_time_decrease] answers "no" for every layer that is not a
    [Conv2d]; for a [Conv2d] of time stride 1 it answers "no" exactly when
    the layer keeps every length; but it probes with the single length 100,
    so it can miss a layer that changes other lengths: a [Conv2d] with time
    kernel 2, stride 2 and padding 50 maps 100 to 100 and 50 to 75. *)
Theorem is_time_decrease_probe :
  (forall l, is_Conv2d l = false -> is_time_decrease l = Ok false) /\
  (forall ic oc k s p d,
      snd s = 1 ->
      (is_time_decrease (Conv2d ic oc k s p d) = Ok false <->
       forall x, decrease_dim x (Conv2d ic oc k s p d) ax1 = Ok x)) /\
  (is_time_decrease missed_conv = Ok false /\
   decrease_dim 50 missed_conv ax1 = Ok 75).
Proof.
  split; [| split].
  - intros l Hl. destruct l; [discriminate Hl | reflexivity ..].
  - intros ic oc k s p d Hs. unfold is_time_decrease, decrease_dim.
    cbv [tuple_get]. rewrite Hs.
    assert (Hdiv : forall a, floordiv a 1 = Ok a)
      by (intros a; rewrite floordiv_nonzero by lia; rewrite Z.div_1_r; reflexivity).
    rewrite Hdiv. unfold bind. split.
    + intros Hprobe x. rewrite Hdiv. apply Ok_inj in Hprobe.
      apply negb_false_iff in Hprobe. apply Z.eqb_eq in Hprobe.
      f_equal. lia.
    + intros Hid. specialize (Hid 100). rewrite Hdiv in Hid. apply Ok_inj in Hid.
      rewrite Hid. reflexivity.
  - split; reflexivity.
Qed.

Lemma is_time_decrease_probe_witness :
  is_time_decrease ReLU = Ok false /\
  (is_time_decrease (Conv2d 32 32 (11, 11) (2, 1) (5, 5) (1, 1)) = Ok false <->
   forall x, decrease_dim x (Conv2d 32 32 (11, 11) (2, 1) (5, 5) (1, 1)) ax1 = Ok x).
Proof.
  destruct is_time_decrease_probe as [Hother [Hstride _]].
  split.
  - apply Hother. reflexivity.
  - apply Hstride. reflexivity.
Defined.

(** ** Lengths and masks in [MaskConv.forward] *)

Lemma mapM_bind_compose {T U V : Type} (f : T -> result U) (g : U -> result V)
    (l : list T) (l1 : list U) :
  mapM f l = Ok l1 ->
  mapM (fun x => y <- f x ;; g y) l = mapM g l1.
Proof.
  revert l1. induction l as [| x l IH]; intros l1 Hl; cbn in Hl.
  - apply Ok_inj in Hl. subst l1. reflexivity.
  - destruct (f x) as [y | e] eqn:Ef; cbn [bind] in Hl; [| discriminate Hl].
    destruct (mapM f l) as [ys | e] eqn:Efl; cbn [bind] in Hl; [| discriminate Hl].
    apply Ok_inj in Hl. subst l1. cbn [mapM]. rewrite Ef. cbn [bind].
    rewrite (IH ys eq_refl). reflexivity.
Qed.

Lemma mapM_ext {T U : Type} (f g : T -> result U) (l : list T) :
  (forall x, f x = g x) -> mapM f l = mapM g l.
Proof.
  intros E. induction l as [| x l IH]; cbn; [reflexivity |].
  rewrite E, IH. reflexivity.
Qed.

Lemma mapM_Ok_id {T : Type} (l : list T) : mapM (fun v => Ok v) l = Ok l.
Proof.
  induction l as [| x l IH]; cbn; [reflexivity |]. rewrite IH. reflexivity.
Qed.

Lemma am_conv_layers_probe_exact (dropout : Q) :
  Forall probe_exact (am_conv_layers dropout).
Proof.
  unfold am_conv_layers.
  repeat constructor; unfold probe_exact; try discriminate;
    try (intros _ x; reflexivity).
  intros _ x. unfold decrease_dim. cbv [tuple_get snd].
  rewrite floordiv_nonzero by lia. cbn [bind]. rewrite Z.div_1_r. f_equal. lia.
Qed.

Lemma no_wrap_stack_output (layers : list layer) (x y : Z) :
  no_wrap_stack layers x = true ->
  output_time layers x = Ok y ->
  in_int64 y = true.
Proof.
  revert x. induction layers as [| l rest IH]; intros x Hrange Hout.
  - cbn in Hout. apply Ok_inj in Hout. subst y. exact Hrange.
  - cbn [no_wrap_stack output_time] in Hrange, Hout.
    apply andb_true_iff in Hrange. destruct Hrange as [_ Hrest].
    destruct (decrease_dim x l ax1) as [x' | e]; cbn [bind] in Hout;
      [| discriminate Hout].
    exact (IH x' Hrest Hout).
Qed.

Lemma mapM_in_range (layers : list layer) (lengths lengths' : list Z) :
  Forall (fun v => no_wrap_stack layers v = true) lengths ->
  mapM (output_time layers) lengths = Ok lengths' ->
  Forall (fun v => in_int64 v = true) lengths'.
Proof.
  intros Hall. revert lengths'.
  induction Hall as [| v lengths Hv _ IH]; intros lengths' Hrun; cbn [mapM] in Hrun.
  - apply Ok_inj in Hrun. subst lengths'. constructor.
  - destruct (output_time layers v) as [w | e] eqn:Ew; cbn [bind] in Hrun;
      [| discriminate Hrun].
    destruct (mapM (output_time layers) lengths) as [ws | e]; cbn [bind] in Hrun;
      [| discriminate Hrun].
    apply Ok_inj in Hrun. subst lengths'. constructor.
    + exact (no_wrap_stack_output layers v w Hv Ew).
    + exact (IH ws eq_refl).
Qed.

Section ForwardLengths.
Context {A : Type} `{Scalar A}.

Lemma forward_loop_lengths (layers : list (@module A)) :
  Forall probe_exact (map fst layers) ->
  forall (x : tensor4 A) (lengths : list Z) (mask : option mask4) x' lengths',
    forward_loop layers x lengths mask = Ok (x', lengths') ->
    mapM (output_time (map fst layers)) lengths = Ok lengths'.
Proof.
  induction layers as [| [l f] rest IH]; intros Hall x lengths mask x' lengths' Hrun.
  - cbn in Hrun. apply Ok_inj in Hrun. injection Hrun as _ <-.
    cbn [map output_time]. apply mapM_Ok_id.
  - cbn [map fst] in Hall. inversion Hall as [| ? ? Hl Hrest]; subst.
    cbn [forward_loop] in Hrun.
    destruct (f x) as [x1 | e]; cbn [bind] in Hrun; [| discriminate Hrun].
    destruct (is_time_decrease l) as [[|] | e] eqn:Etd; cbn [bind] in Hrun;
      [| | discriminate Hrun].
    + destruct (decrease_dim_lengths lengths l) as [lengths1 | e] eqn:El;
        cbn [bind] in Hrun; [| discriminate Hrun].
      destruct (temporal_mask x1 lengths1) as [[m y] | e]; cbn [bind] in Hrun;
        [| discriminate Hrun].
      cbn [map fst output_time]. unfold decrease_dim_lengths in El.
      rewrite (mapM_bind_compose _ (output_time (map fst rest)) lengths lengths1 El).
      exact (IH Hrest y lengths1 (Some m) x' lengths' Hrun).
    + destruct (match mask with Some m => masked_fill szero x1 m | None => Ok x1 end)
        as [y | e]; cbn [bind] in Hrun; [| discriminate Hrun].
      cbn [map fst output_time].
      rewrite (mapM_ext _ (output_time (map fst rest))).
      * exact (IH Hrest y lengths mask x' lengths' Hrun).
      * intros v. rewrite (Hl Etd v). reflexivity.
Qed.

(** X7: the lengths that [MaskConv.forward] returns are [output_time] of the
    lengths it was given, entry by entry, and are [int64] values again,
    whenever the probe of [is_time_decrease] is exact for every layer of the
    stack (which holds for the stack that [AcousticModel.__init__] builds)
    and the lengths are in the range on which the [int64] arithmetic of the
    length tensor does not wrap around: there the mask loop and the length
    bookkeeping of [output_time] agree. *)
Theorem forward_lengths_follow_output_time (layers : list (@module A))
    (x : tensor4 A) (lengths : list Z) (out : tensor3 A) (lengths' : list Z) :
  Forall probe_exact (map fst layers) ->
  Forall (fun v => no_wrap_stack (map fst layers) v = true) lengths ->
  MaskConv_forward layers x lengths = Ok (out, lengths') ->
  mapM (output_time (map fst layers)) lengths = Ok lengths' /\
  Forall (fun v => in_int64 v = true) lengths'.
Proof.
  intros Hall Hrange Hrun. unfold MaskConv_forward in Hrun.
  destruct (forward_loop layers x lengths None) as [[x1 l1] | e] eqn:Eloop;
    cbn [bind] in Hrun; [| discriminate Hrun].
  apply Ok_inj in Hrun. injection Hrun as _ <-.
  pose proof (forward_loop_lengths layers Hall x lengths None x1 l1 Eloop) as Hl1.
  split; [exact Hl1 |].
  exact (mapM_in_range (map fst layers) lengths l1 Hrange Hl1).
Qed.

End ForwardLengths.

Lemma forward_lengths_follow_output_time_witness :
  exists out,
    MaskConv_forward (am_conv int_am) (int_features 2 6) [5; 6] = Ok (out, [3; 3]) /\
    Forall (fun v => no_wrap_stack (map fst (am_conv int_am)) v = true) [5; 6] /\
    mapM (output_time (map fst (am_conv int_am))) [5; 6] = Ok [3; 3] /\
    Forall (fun v => in_int64 v = true) [3; 3].
Proof.
  assert (Hrange : Forall (fun v => no_wrap_stack (map fst (am_conv int_am)) v = true)
                          [5; 6])
    by (repeat constructor).
  eexists. split; [vm_compute; reflexivity |]. split; [exact Hrange |].
  eapply (forward_lengths_follow_output_time (A := Z)
            (am_conv int_am) (int_features 2 6) [5; 6]).
  - exact (am_conv_layers_probe_exact 0).
  - exact Hrange.
  - vm_compute. reflexivity.
Defined.

Lemma mask_loop_out_of_range (t : Z) (lengths : list Z) (mask : mask4) (i : nat) :
  (length mask <= i)%nat ->
  mask_loop mask i lengths t
  = if forallb (fun l => t <=? l) lengths then Ok mask else Err IndexError.
Proof.
  revert i. induction lengths as [| l rest IH]; intros i Hi; [reflexivity |].
  cbn [mask_loop forallb].
  destruct (Z.ltb_spec 0 (t - l)) as [Hlt | Hge].
  - destruct (Z.leb_spec t l); [lia |].
    assert (E : nth_error mask i = None) by (apply nth_error_None; exact Hi).
    rewrite E. reflexivity.
  - destruct (Z.leb_spec t l); [| lia]. cbn [bind andb]. apply IH. lia.
Qed.

Lemma mask_loop_any_count (t : nat) (lengths : list Z) :
  Forall (fun l => 0 <= l) lengths ->
  forall (done : mask4) (m : nat),
    mask_loop (done ++ repeat [[repeat false t]] m)
              (length done) lengths (Z.of_nat t)
    = if forallb (fun l => Z.of_nat t <=? l) (skipn m lengths)
      then Ok (done ++ map (fun l => [[mask_row t l]]) (firstn m lengths)
                    ++ repeat [[repeat false t]] (m - length lengths))
      else Err IndexError.
Proof.
  induction 1 as [| l rest Hl _ IH]; intros done m.
  - rewrite skipn_nil, firstn_nil. cbn. rewrite Nat.sub_0_r. reflexivity.
  - destruct m as [| m].
    + cbn [repeat skipn firstn map Nat.sub app]. rewrite app_nil_r.
      apply mask_loop_out_of_range. lia.
    + cbn [mask_loop length repeat map skipn firstn Nat.sub].
      destruct (Z.ltb_spec 0 (Z.of_nat t - l)) as [Hlt | Hge].
      * rewrite nth_error_app2 by lia. rewrite Nat.sub_diag. cbn [nth_error].
        unfold fill_sample. cbn [mapM bind].
        rewrite narrow_fill_zeros by lia. cbn [bind].
        rewrite set_nth_app.
        specialize (IH (done ++ [[[mask_row t l]]]) m).
        rewrite <- app_assoc, length_app in IH. cbn [app length] in IH.
        rewrite Nat.add_1_r in IH. rewrite IH.
        destruct (forallb _ (skipn m rest)); [| reflexivity].
        rewrite <- app_assoc. reflexivity.
      * cbn [bind].
        specialize (IH (done ++ [[[repeat false t]]]) m).
        rewrite <- app_assoc, length_app in IH. cbn [app length] in IH.
        rewrite Nat.add_1_r in IH. rewrite IH.
        destruct (forallb _ (skipn m rest)); [| reflexivity].
        rewrite <- app_assoc. cbn [app].
        rewrite mask_row_all_false by lia. reflexivity.
Qed.

(** X8: the mask loop does not compare the number of lengths with the batch
    size.  For non-negative lengths and a batch of [n] samples of time
    extent [t]: the first [n] lengths give the mask rows; samples without a
    length get an all-false row (they are left unmasked); a length beyond
    the batch raises [IndexError] if it is shorter than [t] and is ignored
    otherwise. *)
Theorem build_mask_any_count (n t : nat) (lengths : list Z) :
  Forall (fun l => 0 <= l) lengths ->
  build_mask n t lengths
  = if forallb (fun l => Z.of_nat t <=? l) (skipn n lengths)
    then Ok (map (fun l => [[mask_row t l]]) (firstn n lengths)
             ++ repeat [[repeat false t]] (n - length lengths))
    else Err IndexError.
Proof.
  intros Hall. unfold build_mask.
  exact (mask_loop_any_count t lengths Hall [] n).
Qed.

Lemma build_mask_any_count_witness :
  build_mask 3 4 [2; 9] = Ok [[[mask_row 4 2]]; [[mask_row 4 9]]; [[repeat false 4]]] /\
  build_mask 1 4 [2; 3] = Err IndexError /\
  build_mask 1 4 [2; 4] = Ok [[[mask_row 4 2]]].
Proof.
  split; [| split].
  - apply (build_mask_any_count 3 4 [2; 9]). repeat constructor; lia.
  - apply (build_mask_any_count 1 4 [2; 3]). repeat constructor; lia.
  - apply (build_mask_any_count 1 4 [2; 4]). repeat constructor; lia.
Defined.

Section UnmaskedStack.
Context {A : Type} `{Scalar A}.

Lemma forward_loop_no_mask (layers : list (@module A)) :
  Forall (fun m => is_time_decrease (fst m) = Ok false) layers ->
  forall (x : tensor4 A) (lengths : list Z),
    forward_loop layers x lengths None
    = (y <- Sequential_forward layers x ;; Ok (y, lengths)).
Proof.
  induction 1 as [| [l f] rest Hl _ IH]; intros x lengths; [reflexivity |].
  cbn [forward_loop Sequential_forward]. cbn [fst] in Hl.
  destruct (f x) as [x1 | e]; cbn [bind]; [| reflexivity].
  rewrite Hl. cbn [bind]. apply IH.
Qed.

(** X9: masking starts at the first layer that [is_time_decrease] reports.
    Over a stack without such a layer [MaskConv.forward] builds no mask at
    all: it is [nn.Sequential] followed by the change of layout, the lengths
    are returned as given and have no effect on the output. *)
Theorem no_time_decrease_no_mask (layers : list (@module A)) (x : tensor4 A)
    (lengths : list Z) :
  Forall (fun m => is_time_decrease (fst m) = Ok false) layers ->
  MaskConv_forward layers x lengths
  = (y <- Sequential_forward layers x ;; Ok (to_time_major y, lengths)).
Proof.
  intros Hall. unfold MaskConv_forward.
  rewrite (forward_loop_no_mask layers Hall).
  destruct (Sequential_forward layers x); reflexivity.
Qed.

Lemma concat_uniform_length {T : Type} (d : nat) (l : list (list T)) :
  Forall (fun r => length r = d) l -> length (concat l) = (length l * d)%nat.
Proof.
  induction 1 as [| r l Hr _ IH]; [reflexivity |].
  cbn [concat length]. rewrite length_app, IH, Hr. lia.
Qed.

Lemma nth_error_concat_uniform {T : Type} (d : nat) (l : list (list T))
    (i j : nat) (r : list T) :
  Forall (fun r => length r = d) l ->
  nth_error l i = Some r -> (j < d)%nat ->
  nth_error (concat l) (i * d + j) = nth_error r j.
Proof.
  intros Hall. revert i. induction Hall as [| r0 l Hr0 _ IH]; intros i Hi Hj.
  - destruct i; discriminate Hi.
  - destruct i as [| i]; cbn [nth_error concat] in *.
    + injection Hi as ->. cbn [Nat.mul Nat.add].
      apply nth_error_app1. lia.
    + rewrite nth_error_app2 by lia.
      replace (S i * d + j - length r0)%nat with (i * d + j)%nat by lia.
      apply IH; assumption.
Qed.

(** X10: the layout that [MaskConv.forward] returns.  An (n, c, d, t) tensor
    becomes a (t, n, c * d) tensor, and the entry at sample [i], channel
    [ci], feature row [di] and timestep [tt] is found at timestep [tt],
    sample [i], feature [ci * d + di]. *)
Theorem to_time_major_layout (x : tensor4 A) (n c d t : nat) :
  shape4 n c d t x ->
  size4 x = (n, c, d, t) ->
  shape3 t n (c * d) (to_time_major x) /\
  forall i ci di tt v,
    get4 x i ci di tt = Some v ->
    get3 (to_time_major x) tt i (ci * d + di) = Some v.
Proof.
  intros [Hn Hx] Hsize. unfold to_time_major. rewrite Hsize.
  assert (Hflat : forall xi, In xi x ->
             length (concat xi) = (c * d)%nat /\
             Forall (fun r => length r = d) xi /\
             Forall (fun r => length r = t) (concat xi)).
  { intros xi Hin. rewrite Forall_forall in Hx. destruct (Hx xi Hin) as [Hc Hxi].
    assert (Hd : Forall (fun r => length r = d) xi)
      by (eapply Forall_impl; [| exact Hxi]; intros r [Hr _]; exact Hr).
    split; [| split; [exact Hd |]].
    - rewrite (concat_uniform_length d xi Hd), Hc. reflexivity.
    - apply Forall_concat. eapply Forall_impl; [| exact Hxi].
      intros r [_ Hr]. exact Hr. }
  split.
  - split; [rewrite length_map, length_seq; reflexivity |].
    apply Forall_map. apply Forall_forall. intros tt _.
    split; [rewrite length_map; exact Hn |].
    apply Forall_map. apply Forall_forall. intros xi Hin.
    rewrite length_map. apply (Hflat xi Hin).
  - intros i ci di tt v Hget. unfold get4, get3, get2 in *.
    destruct (nth_error x i) as [xi |] eqn:Ei; [| discriminate Hget].
    destruct (nth_error xi ci) as [xij |] eqn:Eci; [| discriminate Hget].
    destruct (nth_error xij di) as [r |] eqn:Edi; [| discriminate Hget].
    destruct (Hflat xi (nth_error_In _ _ Ei)) as [_ [Hd Ht]].
    assert (Hxij : length xij = d).
    { rewrite Forall_forall in Hd. apply Hd. eapply nth_error_In. exact Eci. }
    assert (Hr : length r = t).
    { rewrite Forall_forall in Ht. apply Ht. apply in_concat.
      exists xij. split; eapply nth_error_In; eassumption. }
    assert (Htt : (tt < t)%nat) by (rewrite <- Hr; exact (nth_error_lt _ _ _ Hget)).
    assert (Hdi : (di < d)%nat) by (rewrite <- Hxij; exact (nth_error_lt _ _ _ Edi)).
    rewrite nth_error_map, nth_error_seq.
    destruct (Nat.ltb_spec tt t) as [_ | ?]; [| lia]. cbn [option_map Nat.add].
    rewrite nth_error_map, Ei. cbn [option_map].
    rewrite nth_error_map.
    rewrite (nth_error_concat_uniform d xi ci di xij Hd Eci Hdi), Edi.
    cbn [option_map]. f_equal. apply nth_error_nth. exact Hget.
Qed.

End UnmaskedStack.

Lemma no_time_decrease_no_mask_witness :
  MaskConv_forward [(ReLU, int_layer_forward ReLU)] int_map [2; 9]
  = Ok ([[[1]; [5]]; [[2]; [6]]; [[3]; [7]]; [[4]; [8]]], [2; 9]).
Proof.
  rewrite (no_time_decrease_no_mask (A := Z)
             [(ReLU, int_layer_forward ReLU)] int_map [2; 9]).
  - reflexivity.
  - repeat constructor.
Defined.

Lemma to_time_major_layout_witness :
  shape3 4 2 (1 * 1) (to_time_major int_map) /\
  get3 (to_time_major int_map) 2 1 (0 * 1 + 0) = Some 7.
Proof.
  destruct (to_time_major_layout (A := Z) int_map 2 1 1 4 int_map_shape eq_refl)
    as [Hshape Hget].
  split; [exact Hshape |].
  apply (Hget 1%nat 0%nat 0%nat 2%nat 7). reflexivity.
Defined.

(** ** The padding of the masked output *)

Lemma mapM_length {T U : Type} (f : T -> result U) (l : list T) (l' : list U) :
  mapM f l = Ok l' -> length l' = length l.
Proof.
  revert l'. induction l as [| x l IH]; intros l' Hl; cbn in Hl.
  - apply Ok_inj in Hl. subst l'. reflexivity.
  - destruct (f x) as [y | e]; cbn [bind] in Hl; [| discriminate Hl].
    destruct (mapM f l) as [ys | e]; cbn [bind] in Hl; [| discriminate Hl].
    apply Ok_inj in Hl. subst l'. cbn [length]. rewrite (IH ys eq_refl). reflexivity.
Qed.

Lemma nth_error_combine_inv {T U : Type} (l1 : list T) (l2 : list U) i a b :
  nth_error (combine l1 l2) i = Some (a, b) ->
  nth_error l1 i = Some a /\ nth_error l2 i = Some b.
Proof.
  revert l2 i. induction l1 as [| x l1 IH]; intros l2 i Hi.
  - destruct i; discriminate Hi.
  - destruct l2 as [| y l2]; [destruct i; discriminate Hi |].
    destruct i as [| i]; cbn in *.
    + injection Hi as -> ->. split; reflexivity.
    + apply IH. exact Hi.
Qed.

Section PaddedOutput.
Context {A : Type} `{Scalar A}.

Lemma mask_sample_shape (value : A) (c d t : nat) (p : tensor3 A * Z) :
  shape3 c d t (fst p) -> shape3 c d t (mask_sample value t p).
Proof.
  intros [Hc Hxi]. unfold mask_sample. split; [rewrite length_map; exact Hc |].
  apply Forall_map. eapply Forall_impl; [| exact Hxi]. intros xij [Hd Hxij].
  split; [rewrite length_map; exact Hd |].
  apply Forall_map. eapply Forall_impl; [| exact Hxij]. intros r Hr. cbn beta.
  rewrite fill_row_length; [exact Hr |]. rewrite mask_row_length. symmetry. exact Hr.
Qed.

Lemma masked_shape (value : A) (n c d t : nat) (x : tensor4 A) (lengths : list Z) :
  shape4 n c d t x -> length lengths = n ->
  shape4 n c d t (map (mask_sample value t) (combine x lengths)).
Proof.
  intros [Hn Hx] Hlen. split.
  - rewrite length_map, length_combine. lia.
  - apply Forall_map. apply Forall_forall. intros [xi len] Hin.
    apply mask_sample_shape. cbn [fst]. rewrite Forall_forall in Hx.
    apply Hx. exact (in_combine_l _ _ _ _ Hin).
Qed.

Lemma masked_size4 (value : A) (n c d t : nat) (x : tensor4 A) (lengths : list Z) :
  shape4 n c d t x -> length lengths = n ->
  size4 (map (mask_sample value t) (combine x lengths)) = size4 x.
Proof.
  intros [Hn Hx] Hlen.
  destruct x as [| x0 x]; [reflexivity |].
  destruct lengths as [| l0 lengths]; [cbn in *; lia |].
  inversion Hx as [| ? ? [_ Hx0] _]; subst.
  unfold size4. cbn [combine map hd length]. unfold mask_sample. cbn [fst snd].
  rewrite !length_map, length_combine.
  replace (Nat.min (length x) (length lengths)) with (length x) by (cbn in *; lia).
  destruct x0 as [| x00 x0]; [reflexivity |]. cbn [map hd length].
  rewrite length_map.
  destruct x00 as [| r x00]; [reflexivity |]. cbn [map hd].
  inversion Hx0 as [| ? ? [_ Hx00] _]; subst.
  inversion Hx00 as [| ? ? Hr _]; subst.
  rewrite fill_row_length; [reflexivity |]. rewrite mask_row_length. reflexivity.
Qed.

Lemma masked_padded (n c d t : nat) (x : tensor4 A) (lengths : list Z) :
  shape4 n c d t x ->
  padded (map (mask_sample szero t) (combine x lengths)) lengths.
Proof.
  intros [_ Hx] i yi len Hy Hlen.
  rewrite nth_error_map in Hy.
  destruct (nth_error (combine x lengths) i) as [[xi len'] |] eqn:Ei;
    [| discriminate Hy].
  cbn [option_map] in Hy. injection Hy as <-.
  destruct (nth_error_combine_inv x lengths i xi len' Ei) as [Exi Elen].
  assert (len' = len) by congruence. subst len'.
  rewrite Forall_forall in Hx. destruct (Hx xi (nth_error_In _ _ Exi)) as [_ Hxi].
  unfold mask_sample. cbn [fst snd].
  apply Forall_map. eapply Forall_impl; [| exact Hxi]. intros xij [_ Hxij].
  apply Forall_map. eapply Forall_impl; [| exact Hxij]. intros r Hr. cbn beta in Hr |- *.
  intros tt v Hv Htt.
  assert (Hlt : (tt < t)%nat).
  { apply nth_error_lt in Hv. rewrite fill_row_length in Hv; [lia |].
    rewrite mask_row_length. symmetry. exact Hr. }
  destruct (nth_error r tt) as [v0 |] eqn:Ev0.
  - rewrite (fill_row_nth szero r (mask_row t len) tt v0 (len <=? Z.of_nat tt) Ev0
               (mask_row_nth t len tt Hlt)) in Hv.
    destruct (Z.leb_spec len (Z.of_nat tt)); [congruence | lia].
  - apply nth_error_None in Ev0. lia.
Qed.

Lemma temporal_mask_masked (n c d t : nat) (x : tensor4 A) (lengths : list Z)
    (mask : mask4) (y : tensor4 A) :
  shape4 n c d t x -> size4 x = (n, c, d, t) -> length lengths = n ->
  temporal_mask x lengths = Ok (mask, y) ->
  mask = map (fun l => [[mask_row t l]]) lengths /\
  y = map (mask_sample szero t) (combine x lengths).
Proof.
  intros [Hn Hx] Hsize Hlen Hrun. unfold temporal_mask in Hrun. rewrite Hsize in Hrun.
  destruct (build_mask n t lengths) as [mk | e] eqn:Emk; cbn [bind] in Hrun;
    [| discriminate Hrun].
  pose proof (build_mask_ok_nonneg n t lengths mk Emk) as Hpos.
  rewrite (build_mask_spec n t lengths Hlen Hpos) in Emk.
  apply Ok_inj in Emk. subst mk.
  rewrite (masked_fill_spec szero c d t x lengths Hx) in Hrun by congruence.
  cbn [bind] in Hrun. apply Ok_inj in Hrun. injection Hrun as <- <-.
  split; reflexivity.
Qed.

Lemma forward_loop_padded (layers : list (@module A)) :
  Forall layer_contract layers ->
  Forall probe_exact (map fst layers) ->
  forall (x : tensor4 A) (lengths : list Z) (mask : option mask4)
         (n c d t : nat) (x' : tensor4 A) (lengths' : list Z),
    shape4 n c d t x -> size4 x = (n, c, d, t) -> length lengths = n ->
    match mask with
    | Some m => m = map (fun l => [[mask_row t l]]) lengths /\ padded x lengths
    | None => Exists (fun m => is_time_decrease (fst m) = Ok true) layers
    end ->
    forward_loop layers x lengths mask = Ok (x', lengths') ->
    padded x' lengths'.
Proof.
  induction layers as [| [l f] rest IH];
    intros Hcon Hprobe x lengths mask n c d t x' lengths' Hx Hsize Hlen Hmask Hrun.
  - cbn in Hrun. apply Ok_inj in Hrun. injection Hrun as <- <-.
    destruct mask as [m |]; [apply Hmask | inversion Hmask].
  - pose proof (Forall_inv Hcon) as Hl. pose proof (Forall_inv_tail Hcon) as Hrest.
    cbn [map fst] in Hprobe.
    pose proof (Forall_inv Hprobe) as Hpl. pose proof (Forall_inv_tail Hprobe) as Hprest.
    cbn [forward_loop] in Hrun.
    destruct (f x) as [x1 | e] eqn:Ef; cbn [bind] in Hrun; [| discriminate Hrun].
    destruct (Hl n c d t x x1 Hx Hsize Ef) as [c1 [d1 [t1 [Hx1 [Hsize1 [Ht1 _]]]]]].
    cbn [fst] in Ht1.
    destruct (is_time_decrease l) as [[|] | e] eqn:Etd; cbn [bind] in Hrun;
      [| | discriminate Hrun].
    + destruct (decrease_dim_lengths lengths l) as [lengths1 | e] eqn:El;
        cbn [bind] in Hrun; [| discriminate Hrun].
      assert (Hlen1 : length lengths1 = n)
        by (rewrite (mapM_length _ lengths lengths1 El); exact Hlen).
      destruct (temporal_mask x1 lengths1) as [[m y] | e] eqn:Etm; cbn [bind] in Hrun;
        [| discriminate Hrun].
      destruct (temporal_mask_masked n c1 d1 t1 x1 lengths1 m y Hx1 Hsize1 Hlen1 Etm)
        as [-> ->].
      refine (IH Hrest Hprest _ _ _ n c1 d1 t1 x' lengths' _ _ Hlen1 _ Hrun).
      * exact (masked_shape szero n c1 d1 t1 x1 lengths1 Hx1 Hlen1).
      * rewrite (masked_size4 szero n c1 d1 t1 x1 lengths1 Hx1 Hlen1). exact Hsize1.
      * split; [reflexivity |]. exact (masked_padded n c1 d1 t1 x1 lengths1 Hx1).
    + rewrite (Hpl Etd (Z.of_nat t)) in Ht1. apply Ok_inj in Ht1.
      apply Nat2Z.inj in Ht1. subst t1.
      destruct mask as [m |].
      * destruct Hmask as [-> _].
        rewrite (masked_fill_spec szero c1 d1 t x1 lengths (proj2 Hx1)) in Hrun
          by (rewrite (proj1 Hx1); exact Hlen).
        cbn [bind] in Hrun.
        refine (IH Hrest Hprest _ _ _ n c1 d1 t x' lengths' _ _ Hlen _ Hrun).
        -- exact (masked_shape szero n c1 d1 t x1 lengths Hx1 Hlen).
        -- rewrite (masked_size4 szero n c1 d1 t x1 lengths Hx1 Hlen). exact Hsize1.
        -- split; [reflexivity |]. exact (masked_padded n c1 d1 t x1 lengths Hx1).
      * cbn [bind] in Hrun.
        apply (IH Hrest Hprest x1 lengths None n c1 d1 t x' lengths' Hx1 Hsize1 Hlen);
          [| exact Hrun].
        apply Exists_cons in Hmask. destruct Hmask as [Hhead | Htail]; [| exact Htail].
        cbn [fst] in Hhead. congruence.
Qed.

(** X11: [MaskConv.forward] erases the padding of its output.  Over layers
    that respect the shape arithmetic of [decrease_dim], with at least one
    layer that [is_time_decrease] reports, every entry of the returned
    (T x N x H) tensor at a timestep at or beyond the returned length of its
    sample is zero, whatever the layers computed there. *)
Theorem masked_output_is_zero_padded (layers : list (@module A)) (x : tensor4 A)
    (lengths : list Z) (n c d t : nat) (out : tensor3 A) (lengths' : list Z) :
  Forall layer_contract layers ->
  Forall probe_exact (map fst layers) ->
  Exists (fun m => is_time_decrease (fst m) = Ok true) layers ->
  shape4 n c d t x -> size4 x = (n, c, d, t) -> length lengths = n ->
  MaskConv_forward layers x lengths = Ok (out, lengths') ->
  forall i len tt k v,
    nth_error lengths' i = Some len ->
    len <= Z.of_nat tt ->
    get3 out tt i k = Some v ->
    v = szero.
Proof.
  intros Hcon Hprobe Hex Hx Hsize Hlen Hrun i len tt k v Hi Htt Hget.
  unfold MaskConv_forward in Hrun.
  destruct (forward_loop layers x lengths None) as [[x1 l1] | e] eqn:Eloop;
    cbn [bind] in Hrun; [| discriminate Hrun].
  apply Ok_inj in Hrun. injection Hrun as <- <-.
  pose proof (forward_loop_padded layers Hcon Hprobe x lengths None n c d t x1 l1
                Hx Hsize Hlen Hex Eloop) as Hpad.
  unfold to_time_major in Hget. destruct (size4 x1) as [[[n1 c1] d1] t1].
  unfold get3, get2 in Hget. rewrite nth_error_map in Hget.
  destruct (nth_error (seq 0 t1) tt) as [tt' |] eqn:Ett; [| discriminate Hget].
  assert (tt' = tt).
  { pose proof (nth_error_lt _ _ _ Ett) as Hlt. rewrite length_seq in Hlt.
    rewrite nth_error_seq in Ett.
    destruct (Nat.ltb_spec tt t1); [| lia]. cbn in Ett. congruence. }
  subst tt'. cbn [option_map] in Hget.
  rewrite nth_error_map in Hget.
  destruct (nth_error x1 i) as [xi |] eqn:Exi; [| discriminate Hget].
  cbn [option_map] in Hget. rewrite nth_error_map in Hget.
  destruct (nth_error (concat xi) k) as [r |] eqn:Er; [| discriminate Hget].
  cbn [option_map] in Hget. injection Hget as <-.
  pose proof (Hpad i xi len Exi Hi) as Hrows.
  apply nth_error_In in Er. apply in_concat in Er. destruct Er as [xij [Hin Hr]].
  rewrite Forall_forall in Hrows. pose proof (Hrows xij Hin) as Hrow.
  rewrite Forall_forall in Hrow. pose proof (Hrow r Hr) as Hzero.
  destruct (nth_error r tt) as [v0 |] eqn:Ev0.
  - rewrite (nth_error_nth _ _ _ Ev0). exact (Hzero tt v0 Ev0 Htt).
  - apply nth_overflow. apply nth_error_None. exact Ev0.
Qed.

End PaddedOutput.

(** The layers of the integer model respect the shape arithmetic. *)
Lemma identity_layer_contract (l : layer) :
  is_Conv2d l = false ->
  layer_contract (A := Z) (l, fun x => Ok x).
Proof.
  intros Hl n c d t x y Hx Hsize Hy. cbn [snd] in Hy. apply Ok_inj in Hy. subst y.
  exists c, d, t. split; [exact Hx |]. split; [exact Hsize |].
  cbn [fst]. destruct l; [discriminate Hl | repeat split ..].
Qed.

Lemma map4_layer_contract (l : layer) (g : Z -> Z) :
  is_Conv2d l = false ->
  layer_contract (A := Z) (l, fun x => Ok (map (map (map (map g))) x)).
Proof.
  intros Hl n c d t x y Hx Hsize Hy. cbn [snd] in Hy. apply Ok_inj in Hy. subst y.
  exists c, d, t. split; [| split].
  - destruct Hx as [Hn Hx]. split; [rewrite length_map; exact Hn |].
    apply Forall_map. eapply Forall_impl; [| exact Hx]. intros xi [Hc Hxi].
    split; [rewrite length_map; exact Hc |].
    apply Forall_map. eapply Forall_impl; [| exact Hxi]. intros xij [Hd Hxij].
    split; [rewrite length_map; exact Hd |].
    apply Forall_map. eapply Forall_impl; [| exact Hxij]. intros r Hr.
    cbn beta in Hr |- *. rewrite length_map. exact Hr.
  - rewrite <- Hsize. unfold size4.
    destruct x as [| [| [| r x00] x0] x]; cbn [map hd length];
      rewrite ?length_map; reflexivity.
  - cbn [fst]. destruct l; [discriminate Hl | repeat split ..].
Qed.

Lemma centre_tap_contract (ic oc : Z) (k s p d : Z * Z) :
  ic <> 0 -> 0 < oc ->
  layer_contract (A := Z)
    (Conv2d ic oc k s p d, int_layer_forward (Conv2d ic oc k s p d)).
Proof.
  intros Hic Hoc n c dd t x y Hx Hsize Hy.
  cbn [snd int_layer_forward] in Hy. unfold centre_tap_conv in Hy.
  rewrite Hsize in Hy. cbn [fst].
  destruct (Z.eqb_spec (Z.of_nat c) ic) as [Hc | Hc]; cbn [negb] in Hy;
    [| discriminate Hy].
  destruct (decrease_dim (Z.of_nat dd) (Conv2d ic oc k s p d) ax0) as [d' | e]
    eqn:Ed'; cbn [bind] in Hy; [| discriminate Hy].
  destruct (decrease_dim (Z.of_nat t) (Conv2d ic oc k s p d) ax1) as [t' | e]
    eqn:Et'; cbn [bind] in Hy; [| discriminate Hy].
  destruct (Z.leb_spec d' 0) as [Hd' | Hd']; cbn [orb] in Hy; [discriminate Hy |].
  destruct (Z.leb_spec t' 0) as [Ht' | Ht']; [discriminate Hy |].
  apply Ok_inj in Hy. subst y.
  exists (Z.to_nat oc), (Z.to_nat d'), (Z.to_nat t').
  split; [| split].
  - split; [rewrite length_map; exact (proj1 Hx) |].
    apply Forall_map. apply Forall_forall. intros xi _.
    split; [apply repeat_length |].
    apply Forall_forall. intros xij Hin. apply repeat_spec in Hin. subst xij.
    split; [rewrite length_map, length_seq; reflexivity |].
    apply Forall_map. apply Forall_forall. intros i _.
    rewrite length_map, length_seq. reflexivity.
  - destruct x as [| x0 x].
    + cbn in Hsize. injection Hsize as _ Hc0 _ _. subst c. cbn in Hc. lia.
    + unfold size4. cbn [map hd length]. rewrite length_map.
      destruct (Z.to_nat oc) as [| ocn] eqn:Eoc; [lia |]. cbn [repeat hd length].
      rewrite repeat_length, length_map, length_seq.
      destruct (Z.to_nat d') as [| dn] eqn:Ed; [lia |]. cbn [seq map hd].
      rewrite length_map, length_seq.
      destruct Hx as [Hn _]. cbn [length] in Hn. rewrite <- Hn. reflexivity.
  - rewrite !Z2Nat.id by lia. repeat split.
Qed.

Lemma int_am_contracts : Forall layer_contract (am_conv int_am).
Proof.
  unfold int_am, am_conv_layers. cbn [am_conv map].
  repeat apply Forall_cons; try apply Forall_nil.
  - apply centre_tap_contract; lia.
  - apply (identity_layer_contract (BatchNorm2d 32)). reflexivity.
  - apply (map4_layer_contract ReLU (fun v => if 0 <? v then v else 0)). reflexivity.
  - apply (identity_layer_contract (Dropout 0)). reflexivity.
  - apply centre_tap_contract; lia.
  - apply (identity_layer_contract (BatchNorm2d 32)). reflexivity.
  - apply (map4_layer_contract ReLU (fun v => if 0 <? v then v else 0)). reflexivity.
  - apply (identity_layer_contract (Dropout 0)). reflexivity.
Qed.

Lemma int_features_shape (n t : nat) : shape4 n 1 40 t (int_features n t).
Proof.
  unfold int_features. split; [apply repeat_length |].
  apply Forall_forall. intros xi Hin. apply repeat_spec in Hin. subst xi.
  split; [reflexivity |]. constructor; [| constructor].
  split; [apply repeat_length |].
  apply Forall_forall. intros r Hin. apply repeat_spec in Hin. subst r.
  apply repeat_length.
Qed.

Lemma masked_output_is_zero_padded_witness :
  exists out,
    MaskConv_forward (am_conv int_am) (int_features 2 6) [6; 2] = Ok (out, [3; 1]) /\
    forall tt k v, 1 <= Z.of_nat tt -> get3 out tt 1 k = Some v -> v = 0.
Proof.
  eexists. split.
  - vm_compute. reflexivity.
  - intros tt k v Htt Hget.
    refine (masked_output_is_zero_padded (A := Z)
              (am_conv int_am) (int_features 2 6) [6; 2] 2 1 40 6 _ [3; 1]
              int_am_contracts (am_conv_layers_probe_exact 0) _
              (int_features_shape 2 6) eq_refl eq_refl _ 1%nat 1 tt k v eq_refl Htt Hget).
    + apply Exists_cons_hd. reflexivity.
    + vm_compute. reflexivity.
Defined.

(** ** What a successful [AcousticModel.forward] guarantees *)

Section EncoderPostconditions.
Context {A : Type} `{Scalar A}.

Lemma unpack_steps_length (data : tensor2 A) (batch_sizes : list Z) (n width : nat) :
  length (unpack_steps data batch_sizes n width) = length batch_sizes.
Proof.
  revert data. induction batch_sizes as [| b rest IH]; intros data; [reflexivity |].
  cbn [unpack_steps length]. rewrite IH. reflexivity.
Qed.

Lemma pack_kernel_ok (input : tensor3 A) (lengths : list Z)
    (data : tensor2 A) (batch_sizes : list Z) :
  pack_kernel input lengths = Ok (data, batch_sizes) ->
  lengths <> [] /\
  0 < last lengths 0 /\
  sorted_decreasing lengths = true /\
  length batch_sizes = Z.to_nat (hd 0 lengths).
Proof.
  unfold pack_kernel. destruct (size3 input) as [[t n] f].
  destruct (Nat.eqb_spec (t * n * f) 0) as [| Hsz]; [discriminate |].
  destruct (Nat.eqb_spec (length lengths) n) as [Hn |]; [| discriminate]. cbn [negb].
  destruct (Z.leb_spec (last lengths 0) 0) as [| Hlast]; [discriminate |].
  destruct (sorted_decreasing lengths) eqn:Hsorted; [| discriminate]. cbn [negb].
  intros Hok. apply Ok_inj in Hok. injection Hok as _ <-.
  split; [| split; [exact Hlast | split; [reflexivity |]]].
  - intros ->. cbn in Hn. subst n. rewrite Nat.mul_0_r in Hsz. apply Hsz. reflexivity.
  - rewrite length_map, length_seq. reflexivity.
Qed.

(** X12: when [AcousticModel.forward] returns, the lengths it returns are
    not empty, all positive and in non-increasing order, and the output has
    as many timesteps as the first (the longest) of them, whatever the time
    extent of the input; for the stack that the constructor builds, the
    returned lengths are floor((L - 1) / 2) + 1 of the declared ones and
    every declared length was at least 1. *)
Theorem acoustic_forward_postconditions (m : @AcousticModel A) (x : tensor4 A)
    (lengths : list Z) (head : bool) (out : tensor3 A) (lengths' : list Z) :
  AcousticModel_forward m x lengths head = Ok (out, lengths') ->
  lengths' <> [] /\
  Forall (fun l => 0 < l) lengths' /\
  sorted_decreasing lengths' = true /\
  length out = Z.to_nat (hd 0 lengths') /\
  (am_built m ->
   lengths' = map (fun l => (l - 1) / 2 + 1) lengths /\
   Forall (fun l => 1 <= l) lengths).
Proof.
  intros Hrun. unfold AcousticModel_forward in Hrun.
  destruct (MaskConv_forward (am_conv m) x lengths) as [[x1 l1] | e] eqn:Econv;
    cbn [bind] in Hrun; [| discriminate Hrun].
  unfold pack_padded_sequence in Hrun.
  destruct (pack_kernel x1 l1) as [[data bs] | e] eqn:Epack;
    cbn [bind] in Hrun; [| discriminate Hrun].
  destruct (am_rnn m _) as [rows | e]; cbn [bind] in Hrun; [| discriminate Hrun].
  apply Ok_inj in Hrun. injection Hrun as <- <-.
  destruct (pack_kernel_ok x1 l1 data bs Epack) as [Hne [Hlast [Hsorted Hsteps]]].
  assert (Hpos : Forall (fun l => 0 < l) l1).
  { eapply Forall_impl; [| exact (sorted_decreasing_last l1 Hsorted)].
    intros v Hv. cbn beta in Hv. lia. }
  split; [exact Hne |]. split; [exact Hpos |]. split; [exact Hsorted |]. split.
  - unfold pad_packed_sequence. cbn [ps_unsorted_indices ps_batch_sizes ps_data].
    rewrite unpack_steps_length. exact Hsteps.
  - intros Hbuilt.
    destruct (built_forward_lengths m x lengths x1 l1 Hbuilt Econv) as [El1 _].
    split; [exact El1 |]. subst l1.
    apply (proj1 (Forall_map _ _ _)) in Hpos. eapply Forall_impl; [| exact Hpos].
    intros l Hl. cbn beta in Hl.
    destruct (Z.lt_ge_cases (l - 1) 0) as [Hneg | Hge]; [| lia].
    assert ((l - 1) / 2 < 0) by (apply Z.div_lt_upper_bound; lia). lia.
Qed.

End EncoderPostconditions.

Lemma acoustic_forward_postconditions_witness :
  exists out,
    AcousticModel_forward int_am (int_features 2 6) [6; 2] false = Ok (out, [3; 1]) /\
    length out = Z.to_nat (hd 0 [3; 1]) /\
    Forall (fun l => 1 <= l) [6; 2].
Proof.
  eexists. split.
  - vm_compute. reflexivity.
  - match goal with
    | |- length ?o = _ /\ _ =>
        assert (Hrun : AcousticModel_forward int_am (int_features 2 6) [6; 2] false
                       = Ok (o, [3; 1])) by (vm_compute; reflexivity);
        destruct (acoustic_forward_postconditions (A := Z)
                    int_am (int_features 2 6) [6; 2] false o [3; 1] Hrun)
          as [_ [_ [_ [Hlen Hbuilt]]]]
    end.
    split; [exact Hlen |]. apply Hbuilt. exact int_am_built.
Defined.

(** ** What the decode loop writes to its output *)

Lemma nth_error_set_nth_neq {T : Type} (l : list T) (i i' : nat) (v : T) :
  i' <> i -> nth_error (set_nth i v l) i' = nth_error l i'.
Proof.
  revert i i'. induction l as [| x l IH]; intros [| i] [| i'] Hne; cbn;
    try reflexivity; try (exfalso; apply Hne; reflexivity).
  apply IH. intros ->. apply Hne. reflexivity.
Qed.

Lemma get2_set_col {T : Type} (n t : nat) (i i' j : nat) (c : list T)
    (s : list (list T)) :
  length s = n -> length c = n ->
  Forall (fun r => length r = t) s ->
  (j < n)%nat -> (i < t)%nat ->
  get2 (set_col i c s) j i'
  = if Nat.eqb i' i then nth_error c j else get2 s j i'.
Proof.
  intros Hs Hc Hrows Hj Hi. unfold get2, set_col.
  destruct (nth_error s j) as [r |] eqn:Er;
    [| apply nth_error_None in Er; lia].
  destruct (nth_error c j) as [v |] eqn:Ev;
    [| apply nth_error_None in Ev; lia].
  rewrite nth_error_map, (nth_error_combine_some s c j r v Er Ev).
  cbn [option_map fst snd].
  assert (Hr : length r = t).
  { rewrite Forall_forall in Hrows. apply Hrows. eapply nth_error_In. exact Er. }
  destruct (Nat.eqb_spec i' i) as [-> | Hne].
  - apply nth_error_set_nth_eq. lia.
  - apply nth_error_set_nth_neq. exact Hne.
Qed.

Section DecodeOutput.
Context {A : Type} `{Scalar A}.
Context {G : Type} `{Random G A}.

Lemma argmax_from_range (l : vec A) (best : A) (besti i : Z) :
  let r := argmax_from best besti i l in
  r = besti \/ i <= r < i + Z.of_nat (length l).
Proof.
  revert best besti i. induction l as [| v l IH]; intros best besti i; cbn zeta.
  - left. reflexivity.
  - cbn [argmax_from length]. destruct (sltb best v).
    + destruct (IH v i (i + 1)) as [E | E]; right; lia.
    + destruct (IH best besti (i + 1)) as [E | E]; [left; exact E | right; lia].
Qed.

Lemma argmax_range (l : vec A) :
  l <> [] -> 0 <= argmax l < Z.of_nat (length l).
Proof.
  destruct l as [| v l]; [congruence |]. intros _. unfold argmax.
  destruct (argmax_from_range l v 0 1) as [E | E]; cbn [length]; lia.
Qed.

(** What the loop has written after [k] iterations: column [k'] of the
    output, for every [k' < k], holds the symbols (or the scores) of
    iteration [k']. *)
Lemma decode_state_at_records (tr : @Transducer A) (xs : tensor3 A)
    (prior : option (vec A)) (sampled : bool) (epsilon : A)
    (argmax_mode : bool) (g : G) (n t h : nat) :
  transducer_wf tr -> prior_ok tr prior ->
  length xs = n -> size3 xs = (n, t, h) ->
  forall k k' j,
    (k <= t)%nat -> (k' < k)%nat -> (j < n)%nat ->
    match ds_s (decode_state_at tr xs prior sampled epsilon argmax_mode g k) with
    | Symbols s =>
        get2 s j k'
        = nth_error (emitted_at tr xs prior sampled epsilon argmax_mode g k') j
    | Distributions d =>
        get2 d j k'
        = nth_error
            (step_logits tr xs prior
               (decode_state_at tr xs prior sampled epsilon argmax_mode g k') k') j
    end.
Proof.
  intros Hwf Hprior Hn Hsize. induction k as [| k IH]; intros k' j Hk Hk' Hj; [lia |].
  rewrite decode_state_at_S.
  pose proof (decode_state_at_inv tr xs prior sampled epsilon argmax_mode g n t h k
                Hwf Hprior Hn Hsize) as [_ [Hs [Hyd _]]].
  pose proof (step_logits_shape tr xs prior
                (decode_state_at tr xs prior sampled epsilon argmax_mode g k)
                k n _ Hwf Hprior Hn Hyd) as Hz.
  assert (IHk : (k' < k)%nat ->
                match ds_s (decode_state_at tr xs prior sampled epsilon argmax_mode g k) with
                | Symbols s =>
                    get2 s j k'
                    = nth_error (emitted_at tr xs prior sampled epsilon argmax_mode g k') j
                | Distributions d =>
                    get2 d j k'
                    = nth_error
                        (step_logits tr xs prior
                           (decode_state_at tr xs prior sampled epsilon argmax_mode g k')
                           k') j
                end)
    by (intros Hlt; apply IH; [lia | exact Hlt | exact Hj]).
  unfold greedy_step.
  set (st := decode_state_at tr xs prior sampled epsilon argmax_mode g k) in *.
  pose proof (select_length sampled epsilon (step_logits tr xs prior st k) (ds_rng st))
    as Hc.
  assert (Hemit : emitted_at tr xs prior sampled epsilon argmax_mode g k
                  = fst (select sampled epsilon (step_logits tr xs prior st k) (ds_rng st)))
    by reflexivity.
  destruct (select sampled epsilon (step_logits tr xs prior st k) (ds_rng st))
    as [c g1].
  cbn [fst] in Hc, Hemit. rewrite (proj1 Hz) in Hc.
  destruct (step_features (lm tr) [c] (Some (ds_hd st, ds_cd st)) g1)
    as [[yd1 [hd1 cd1]] g2].
  cbn [ds_s].
  destruct (ds_s st) as [sy | d]; destruct Hs as [-> [Hl Hrows]]; cbn [record_step].
  - rewrite (get2_set_col n t k k' j c sy Hl Hc Hrows Hj) by lia.
    destruct (Nat.eqb_spec k' k) as [-> | Hne].
    + rewrite Hemit. reflexivity.
    + apply IHk. lia.
  - assert (Hrows' : Forall (fun r => length r = t) d)
      by (eapply Forall_impl; [| exact Hrows]; intros r [Hr _]; exact Hr).
    rewrite (get2_set_col n t k k' j _ d Hl (proj1 Hz) Hrows' Hj) by lia.
    destruct (Nat.eqb_spec k' k) as [-> | Hne].
    + reflexivity.
    + apply IHk. lia.
Qed.

Lemma joint_operands_width (tr : @Transducer A) (xs : tensor3 A)
    (prior : option (vec A)) (sampled : bool) (epsilon : A)
    (argmax_mode : bool) (g : G) (n t h k : nat) :
  transducer_wf tr -> prior_ok tr prior -> decode_accepts tr h ->
  shape3 n t h xs -> size3 xs = (n, t, h) ->
  (k < t)%nat ->
  shape2 n h (map (fun x => nth k x []) xs) /\
  shape2 n h
    (hd [] (ds_yd (decode_state_at tr xs prior sampled epsilon argmax_mode g k))).
Proof.
  intros Hwf Hprior [Hp _] [Hn Hxs] Hsize Hk. split.
  - split; [rewrite length_map; exact Hn |].
    apply Forall_map. eapply Forall_impl; [| exact Hxs]. intros x [Hx Hrows].
    cbn beta. rewrite Forall_forall in Hrows. apply Hrows.
    apply nth_In. rewrite Hx. exact Hk.
  - pose proof (decode_state_at_inv tr xs prior sampled epsilon argmax_mode g n t h k
                  Hwf Hprior Hn Hsize) as [_ [_ [[Hyl Hyd] _]]].
    destruct (ds_yd (decode_state_at tr xs prior sampled epsilon argmax_mode g k))
      as [| y0 yd]; [discriminate Hyl |].
    cbn [hd]. rewrite <- Hp. exact (Forall_inv Hyd).
Qed.

(** C6: on an acoustic sequence of shape (n, t, features) that the model
    accepts (the feature width is the projection size), [greedy_decode]
    executes its loop body exactly [t] times, whatever symbols are emitted
    and under either selection policy: at every iteration [k < t] the rows
    that [joint] adds have the same width, column [k] of the output holds
    for every sample what iteration [k] selected (symbol-output mode) or
    computed (distribution-output mode), and the output has shape (n, t) in
    symbol-output mode and (n, t, vocabulary size) in distribution-output
    mode. *)
Theorem greedy_decode_runs_every_timestep (tr : @Transducer A) (xs : tensor3 A)
    (prior : option (vec A)) (sampled : bool) (epsilon : A)
    (argmax_mode : bool) (g : G) (n t h : nat) :
  transducer_wf tr -> prior_ok tr prior -> decode_accepts tr h ->
  shape3 n t h xs ->
  size3 xs = (n, t, h) ->
  ds_iter (greedy_loop tr xs prior sampled epsilon argmax_mode g) = t /\
  decoded_shape argmax_mode n t (vocab_size tr)
    (greedy_decode tr xs prior sampled epsilon argmax_mode g) /\
  forall k, (k < t)%nat ->
    (shape2 n h (map (fun x => nth k x []) xs) /\
     shape2 n h
       (hd [] (ds_yd (decode_state_at tr xs prior sampled epsilon argmax_mode g k)))) /\
    length (emitted_at tr xs prior sampled epsilon argmax_mode g k) = n /\
    forall j, (j < n)%nat ->
      match greedy_decode tr xs prior sampled epsilon argmax_mode g with
      | Symbols s =>
          get2 s j k
          = nth_error (emitted_at tr xs prior sampled epsilon argmax_mode g k) j
      | Distributions d =>
          get2 d j k
          = nth_error
              (step_logits tr xs prior
                 (decode_state_at tr xs prior sampled epsilon argmax_mode g k) k) j
      end.
Proof.
  intros Hwf Hprior Hacc Hshape Hsize. pose proof (proj1 Hshape) as Hn.
  assert (Hfinal : greedy_loop tr xs prior sampled epsilon argmax_mode g
                   = decode_state_at tr xs prior sampled epsilon argmax_mode g t)
    by (unfold greedy_loop; rewrite Hsize; reflexivity).
  unfold greedy_decode. rewrite Hfinal.
  destruct (decode_state_at_inv tr xs prior sampled epsilon argmax_mode g n t h t
              Hwf Hprior Hn Hsize) as [Hit [Hs _]].
  split; [exact Hit |]. split; [exact Hs |].
  intros k Hk. split; [| split].
  - exact (joint_operands_width tr xs prior sampled epsilon argmax_mode g n t h k
             Hwf Hprior Hacc Hshape Hsize Hk).
  - unfold emitted_at. rewrite select_length.
    pose proof (decode_state_at_inv tr xs prior sampled epsilon argmax_mode g n t h k
                  Hwf Hprior Hn Hsize) as [_ [_ [Hyd _]]].
    exact (proj1 (step_logits_shape tr xs prior _ k n _ Hwf Hprior Hn Hyd)).
  - intros j Hj.
    apply (decode_state_at_records tr xs prior sampled epsilon argmax_mode g n t h
             Hwf Hprior Hn Hsize t k j); [lia | exact Hk | exact Hj].
Qed.

(** X13: the output of [greedy_decode] is a record of the loop.  Column [k]
    of the returned tensor holds, for every sample, the symbol that
    iteration [k] selected (symbol mode) or the scores that iteration [k]
    computed, after the prior was subtracted (distribution mode); no later
    iteration overwrites it. *)
Theorem greedy_decode_records_every_step (tr : @Transducer A) (xs : tensor3 A)
    (prior : option (vec A)) (sampled : bool) (epsilon : A)
    (argmax_mode : bool) (g : G) (n t h k j : nat) :
  transducer_wf tr -> prior_ok tr prior ->
  shape3 n t h xs -> size3 xs = (n, t, h) ->
  (k < t)%nat -> (j < n)%nat ->
  match greedy_decode tr xs prior sampled epsilon argmax_mode g with
  | Symbols s =>
      get2 s j k
      = nth_error (emitted_at tr xs prior sampled epsilon argmax_mode g k) j
  | Distributions d =>
      get2 d j k
      = nth_error
          (step_logits tr xs prior
             (decode_state_at tr xs prior sampled epsilon argmax_mode g k) k) j
  end.
Proof.
  intros Hwf Hprior [Hn _] Hsize Hk Hj. unfold greedy_decode, greedy_loop.
  rewrite Hsize.
  apply (decode_state_at_records tr xs prior sampled epsilon argmax_mode g n t h
           Hwf Hprior Hn Hsize t k j); [lia | exact Hk | exact Hj].
Qed.

Lemma argmax_symbols_in_range (tr : @Transducer A) (z : tensor2 A) (n : nat) :
  (0 < vocab_size tr)%nat ->
  shape2 n (vocab_size tr) z ->
  Forall (fun sym => 0 <= sym < Z.of_nat (vocab_size tr)) (map argmax z).
Proof.
  intros Hv [_ Hz]. apply Forall_map. eapply Forall_impl; [| exact Hz].
  intros row Hrow. cbn beta in Hrow. rewrite <- Hrow. apply argmax_range.
  intros ->. cbn in Hrow. lia.
Qed.

(** X14: under the argmax policy every entry of the symbol output of
    [greedy_decode] is an index into the vocabulary: at least 0 and less
    than [vocab_size]. *)
Theorem argmax_decode_in_vocabulary (tr : @Transducer A) (xs : tensor3 A)
    (prior : option (vec A)) (epsilon : A) (g : G) (n t h : nat)
    (s : tensor2 Z) :
  transducer_wf tr -> prior_ok tr prior ->
  shape3 n t h xs -> size3 xs = (n, t, h) ->
  (0 < vocab_size tr)%nat ->
  greedy_decode tr xs prior false epsilon true g = Symbols s ->
  Forall (Forall (fun sym => 0 <= sym < Z.of_nat (vocab_size tr))) s.
Proof.
  intros Hwf Hprior [Hn _] Hsize Hv. unfold greedy_decode, greedy_loop.
  rewrite Hsize. revert s. generalize t at 1. intros k.
  induction k as [| k IH]; intros s Hs.
  - unfold decode_state_at in Hs. cbn [seq fold_left] in Hs.
    unfold decode_init in Hs. rewrite Hsize in Hs.
    destruct (step_features (lm tr) (start_symbols n) None g) as [[yd0 [hd0 cd0]] g0].
    cbn [ds_s] in Hs. injection Hs as <-.
    apply Forall_forall. intros r Hr. apply repeat_spec in Hr. subst r.
    apply Forall_forall. intros v Hin. apply repeat_spec in Hin. subst v. lia.
  - rewrite decode_state_at_S in Hs.
    pose proof (decode_state_at_inv tr xs prior false epsilon true g n t h k
                  Hwf Hprior Hn Hsize) as [_ [Hshape [Hyd _]]].
    pose proof (step_logits_shape tr xs prior
                  (decode_state_at tr xs prior false epsilon true g k)
                  k n _ Hwf Hprior Hn Hyd) as Hz.
    set (st := decode_state_at tr xs prior false epsilon true g k) in *.
    unfold greedy_step in Hs. unfold select in Hs.
    destruct (step_features (lm tr) [map argmax (step_logits tr xs prior st k)]
                (Some (ds_hd st, ds_cd st)) (ds_rng st)) as [[yd1 [hd1 cd1]] g2].
    cbn [ds_s] in Hs.
    destruct (ds_s st) as [sy | d] eqn:Es; cbn [record_step] in Hs; [| discriminate Hs].
    injection Hs as <-. destruct Hshape as [_ [Hl Hrows]].
    pose proof (IH sy eq_refl) as Hsy.
    assert (Hc : length (map argmax (step_logits tr xs prior st k)) = n)
      by (rewrite length_map; exact (proj1 Hz)).
    destruct (set_col_shape (fun sym => 0 <= sym < Z.of_nat (vocab_size tr))
                n t k (map argmax (step_logits tr xs prior st k)) sy Hl Hc)
      as [_ Hres].
    + rewrite Forall_forall in Hrows, Hsy. apply Forall_forall. intros r Hr.
      split; [apply Hrows; exact Hr | apply Hsy; exact Hr].
    + exact (argmax_symbols_in_range tr _ n Hv Hz).
    + eapply Forall_impl; [| exact Hres]. intros r [_ Hr]. exact Hr.
Qed.

End DecodeOutput.

Lemma int_tr_accepts : decode_accepts int_tr 2.
Proof. repeat split; repeat constructor. Qed.

Lemma greedy_decode_runs_every_timestep_witness :
  ds_iter (greedy_loop int_tr int_xs None true 1 false 5%nat) = 2%nat /\
  decoded_shape false 2 2 (vocab_size int_tr)
    (greedy_decode int_tr int_xs None true 1 false 5%nat) /\
  forall k, (k < 2)%nat ->
    (shape2 2 2 (map (fun x => nth k x []) int_xs) /\
     shape2 2 2
       (hd [] (ds_yd (decode_state_at int_tr int_xs None true 1 false 5%nat k)))) /\
    length (emitted_at int_tr int_xs None true 1 false 5%nat k) = 2%nat /\
    forall j, (j < 2)%nat ->
      match greedy_decode int_tr int_xs None true 1 false 5%nat with
      | Symbols s =>
          get2 s j k = nth_error (emitted_at int_tr int_xs None true 1 false 5%nat k) j
      | Distributions d =>
          get2 d j k
          = nth_error
              (step_logits int_tr int_xs None
                 (decode_state_at int_tr int_xs None true 1 false 5%nat k) k) j
      end.
Proof.
  exact (greedy_decode_runs_every_timestep (A := Z) int_tr int_xs None true 1 false
           5%nat 2 2 2 int_tr_wf I int_tr_accepts int_xs_shape eq_refl).
Defined.

Lemma greedy_decode_records_every_step_witness :
  greedy_decode int_tr int_xs None false 0 true 0%nat = Symbols [[0; 0]; [1; 1]] /\
  emitted_at int_tr int_xs None false 0 true 0%nat 1 = [0; 1] /\
  get2 [[0; 0]; [1; 1]] 1 1
  = nth_error (emitted_at int_tr int_xs None false 0 true 0%nat 1) 1.
Proof.
  split; [vm_compute; reflexivity |]. split; [vm_compute; reflexivity |].
  exact (greedy_decode_records_every_step (A := Z)
           int_tr int_xs None false 0 true 0%nat 2 2 2 1 1
           int_tr_wf I int_xs_shape eq_refl (le_n 2) (le_n 2)).
Defined.

Lemma argmax_decode_in_vocabulary_witness :
  (0 < vocab_size int_tr)%nat /\
  Forall (Forall (fun sym => 0 <= sym < Z.of_nat (vocab_size int_tr)))
         [[0; 0]; [1; 1]].
Proof.
  assert (Hv : (0 < vocab_size int_tr)%nat) by (cbn; lia).
  split; [exact Hv |].
  refine (argmax_decode_in_vocabulary (A := Z)
            int_tr int_xs None 0 0%nat 2 2 2 [[0; 0]; [1; 1]]
            int_tr_wf I int_xs_shape eq_refl Hv _).
  vm_compute. reflexivity.
Defined.

(** ** The joint network: normalisation and shape *)

Lemma fold_left_Rplus_shift (l : list R) (a : R) :
  fold_left Rplus l a = (a + fold_left Rplus l 0)%R.
Proof.
  revert a. induction l as [| v l IH]; intros a; cbn [fold_left]; [lra |].
  rewrite (IH (a + v)%R), (IH (0 + v)%R). lra.
Qed.

Lemma Rsum_scale (f : R -> R) (c : R) (l : list R) :
  fold_left Rplus (map (fun v => (f v * c)%R) l) 0%R
  = (fold_left Rplus (map f l) 0 * c)%R.
Proof.
  induction l as [| v l IH]; cbn [map fold_left]; [lra |].
  rewrite (fold_left_Rplus_shift _ (0 + f v * c)%R), IH.
  rewrite (fold_left_Rplus_shift _ (0 + f v)%R). lra.
Qed.

Lemma Rsum_exp_bounds (l : list R) :
  (0 <= fold_left Rplus (map exp l) 0)%R /\
  forall v, In v l -> (exp v <= fold_left Rplus (map exp l) 0)%R.
Proof.
  induction l as [| w l [IH0 IH]]; cbn [map fold_left].
  - split; [lra | intros v []].
  - rewrite fold_left_Rplus_shift. pose proof (exp_pos w) as Hw.
    split; [lra |]. intros v [<- | Hin]; [lra |].
    pose proof (IH v Hin). lra.
Qed.

(** X15: over the real numbers [joint] returns log-probabilities: for a
    vocabulary that is not empty, the exponentials of its output sum to 1
    and every entry is at most 0, whatever the weights and the inputs. *)
Theorem joint_is_log_distribution (tr : @Transducer R) (x y : list R) :
  fc_weight tr <> [] -> fc_bias tr <> [] ->
  sum_vec (map exp (joint tr x y)) = 1%R /\
  Forall (fun v => (v <= 0)%R) (joint tr x y).
Proof.
  intros Hw Hb. unfold joint, log_softmax.
  set (z := fc tr (add_vec x y)).
  assert (Hz : z <> []).
  { unfold z, fc, linear. destruct (fc_weight tr); [congruence |].
    destruct (fc_bias tr); [congruence |]. discriminate. }
  unfold sum_vec. cbn [sadd sexp slog ssub szero Scalar_R].
  set (S := fold_left Rplus (map exp z) 0%R).
  destruct (Rsum_exp_bounds z) as [_ Hle]. fold S in Hle.
  assert (HS : (0 < S)%R).
  { destruct z as [| v z']; [congruence |].
    pose proof (Hle v (or_introl eq_refl)). pose proof (exp_pos v). lra. }
  split.
  - rewrite map_map.
    rewrite (map_ext (fun v => exp (v - ln S)) (fun v => (exp v * exp (- ln S))%R))
      by (intros v; unfold Rminus; apply exp_plus).
    rewrite (Rsum_scale exp (exp (- ln S)) z). fold S.
    rewrite exp_Ropp, (exp_ln S HS). field. lra.
  - apply Forall_map. apply Forall_forall. intros v Hin.
    destruct (Rle_or_lt (v - ln S) 0) as [Hok | Hbad]; [exact Hok |].
    assert (Hlt : (ln S < v)%R) by lra.
    apply exp_increasing in Hlt. rewrite (exp_ln S HS) in Hlt.
    pose proof (Hle v Hin). lra.
Qed.

Lemma joint_is_log_distribution_witness :
  sum_vec (map exp (joint real_tr [0%R] [0%R])) = 1%R /\
  Forall (fun v => (v <= 0)%R) (joint real_tr [0%R] [0%R]).
Proof.
  apply (joint_is_log_distribution real_tr [0%R] [0%R]); discriminate.
Defined.

Section JointShape.
Context {A : Type} `{Scalar A}.
Context {G : Type} `{Random G A}.

(** X16: on inputs of shapes (n, t, h) and (n, u, h) [forward_joint]
    returns a tensor of shape (n, t, u, vocabulary size): one distribution
    for every sample, every acoustic timestep and every label position. *)
Theorem forward_joint_shape (tr : @Transducer A) (xs ys : tensor3 A)
    (n t u h : nat) :
  length (fc_weight tr) = vocab_size tr ->
  length (fc_bias tr) = vocab_size tr ->
  shape3 n t h xs ->
  shape3 n u h ys ->
  shape4 n t u (vocab_size tr) (forward_joint tr xs ys).
Proof.
  intros Hw Hb [Hn Hxs] [Hn' Hys]. unfold forward_joint.
  destruct xs as [| x0 xs'].
  - cbn in Hn. subst n. cbn. split; [reflexivity | constructor].
  - destruct ys as [| y0 ys']; [cbn in Hn, Hn'; lia |].
    assert (Ht : length x0 = t) by (inversion Hxs as [| ? ? [E _] _]; exact E).
    assert (Hu : length y0 = u) by (inversion Hys as [| ? ? [E _] _]; exact E).
    unfold size3. cbn [hd length]. rewrite Ht, Hu.
    unfold joint4. split.
    + rewrite length_map, length_combine, !length_map. lia.
    + apply Forall_map. apply Forall_forall. intros [xb yb] Hin.
      cbn [fst snd].
      pose proof (in_combine_l _ _ _ _ Hin) as Hxb.
      pose proof (in_combine_r _ _ _ _ Hin) as Hyb.
      apply in_map_iff in Hxb. destruct Hxb as [xb0 [<- Hxb0]].
      apply in_map_iff in Hyb. destruct Hyb as [yb0 [<- Hyb0]].
      rewrite Forall_forall in Hxs, Hys.
      destruct (Hxs xb0 Hxb0) as [Hxl _]. destruct (Hys yb0 Hyb0) as [Hyl _].
      split; [rewrite length_map, length_combine, length_map, repeat_length; lia |].
      apply Forall_map. apply Forall_forall. intros [xr yr] Hin2. cbn [fst snd].
      pose proof (in_combine_l _ _ _ _ Hin2) as Hxr.
      pose proof (in_combine_r _ _ _ _ Hin2) as Hyr.
      apply in_map_iff in Hxr. destruct Hxr as [v [<- _]].
      apply repeat_spec in Hyr. subst yr.
      unfold joint2. split.
      * rewrite length_map, length_combine, repeat_length. lia.
      * apply Forall_map. apply Forall_forall. intros q _.
        apply joint_length; assumption.
Qed.

End JointShape.

Lemma forward_joint_shape_witness :
  shape4 2 2 3 (vocab_size int_tr) (forward_joint int_tr int_xs int_ys).
Proof.
  exact (forward_joint_shape (A := Z) int_tr int_xs int_ys 2 2 3 2
           eq_refl eq_refl int_xs_shape int_ys_shape).
Defined.

(** ** The prediction network, step by step *)

Section Incremental.
Context {A : Type} `{Scalar A}.
Context {G : Type} `{Random G A}.

Lemma lstm_seq_app (training : bool) (p : Q) (cells : list lstm_cell)
    (a b : tensor3 A) (hs cs : tensor3 A) (g : G) :
  lstm_seq training p cells (a ++ b) hs cs g
  = let '(o1, hs1, cs1, g1) := lstm_seq training p cells a hs cs g in
    let '(o2, hs2, cs2, g2) := lstm_seq training p cells b hs1 cs1 g1 in
    (o1 ++ o2, hs2, cs2, g2).
Proof.
  revert hs cs g. induction a as [| x a IH]; intros hs cs g.
  - cbn [app lstm_seq].
    destruct (lstm_seq training p cells b hs cs g) as [[[o2 hs2] cs2] g2].
    reflexivity.
  - cbn [app lstm_seq].
    destruct (lstm_layers training p true cells x hs cs g) as [[[out hs1] cs1] g1].
    rewrite IH.
    destruct (lstm_seq training p cells a hs1 cs1 g1) as [[[o1 hs2] cs2] g2].
    destruct (lstm_seq training p cells b hs2 cs2 g2) as [[[o2 hs3] cs3] g3].
    reflexivity.
Qed.

Lemma step_features_inactive_eval (m : LanguageModel) (x : tensor2 Z)
    (hs cs : tensor3 A) (g : G) :
  dropout_active (lm_training m) (lm_dropout m) = false ->
  step_features m x (Some (hs, cs)) g
  = let r := fst (lstm_seq (lm_training m) (rnn_dropout m) (lm_cells m)
                    (map (map (lm_emb m)) x) hs cs g) in
    (map (map (linear_nobias (lm_prj_weight m))) (fst (fst r)),
     (snd (fst r), snd r), g).
Proof.
  intros Hd. unfold step_features, rnn.
  rewrite (lstm_seq_inactive (lm_training m) (rnn_dropout m) (lm_cells m)
             (rnn_dropout_inactive m Hd) _ hs cs g g).
  destruct (fst (lstm_seq (lm_training m) (rnn_dropout m) (lm_cells m)
                   (map (map (lm_emb m)) x) hs cs g)) as [[o hs1] cs1].
  unfold prj. rewrite (Dropout3_inactive _ _ o g Hd). reflexivity.
Qed.

(** X17: with dropout inactive, [step_features] can be fed a history in
    pieces.  Running it on the first part of the symbols and then, from the
    state it returned, on the rest gives the features of the whole history
    and the same final state as one call on the whole history. *)
Theorem step_features_incremental (m : LanguageModel) (x1 x2 : tensor2 Z)
    (h : tensor3 A * tensor3 A) (g : G) :
  dropout_active (lm_training m) (lm_dropout m) = false ->
  let r1 := fst (step_features m x1 (Some h) g) in
  let r2 := fst (step_features m x2 (Some (snd r1)) g) in
  step_features m (x1 ++ x2) (Some h) g = (fst r1 ++ fst r2, snd r2, g).
Proof.
  intros Hd. destruct h as [hs cs]. cbv zeta.
  rewrite (step_features_inactive_eval m x1 hs cs g Hd).
  rewrite (step_features_inactive_eval m (x1 ++ x2) hs cs g Hd).
  cbv zeta. rewrite map_app, lstm_seq_app.
  pose proof (lstm_seq_inactive (lm_training m) (rnn_dropout m) (lm_cells m)
                (rnn_dropout_inactive m Hd) (map (map (lm_emb m)) x1) hs cs g g) as E1.
  destruct (lstm_seq (lm_training m) (rnn_dropout m) (lm_cells m)
              (map (map (lm_emb m)) x1) hs cs g) as [[[o1 hs1] cs1] g1].
  cbn [fst] in E1. injection E1 as ->. cbn [fst snd].
  rewrite (step_features_inactive_eval m x2 hs1 cs1 g Hd). cbv zeta.
  destruct (lstm_seq (lm_training m) (rnn_dropout m) (lm_cells m)
              (map (map (lm_emb m)) x2) hs1 cs1 g) as [[[o2 hs2] cs2] g2].
  cbn [fst snd]. rewrite map_app. reflexivity.
Qed.

End Incremental.

Lemma step_features_incremental_witness :
  let h := step_init int_lm 2 in
  let r1 := fst (step_features int_lm [[1; 0]] (Some h) 0%nat) in
  let r2 := fst (step_features int_lm [[0; 1]; [1; 1]] (Some (snd r1)) 0%nat) in
  dropout_active (lm_training int_lm) (lm_dropout int_lm) = false /\
  step_features int_lm ([[1; 0]] ++ [[0; 1]; [1; 1]]) (Some h) 0%nat
  = (fst r1 ++ fst r2, snd r2, 0%nat).
Proof.
  assert (Hd : dropout_active (lm_training int_lm) (lm_dropout int_lm) = false)
    by reflexivity.
  split; [exact Hd |].
  exact (step_features_incremental (A := Z) int_lm [[1; 0]] [[0; 1]; [1; 1]]
           (step_init int_lm 2) 0%nat Hd).
Defined.

(** ** What a successful [LanguageModel.forward] guarantees *)

Lemma insert_desc_In (p q : Z * nat) (l : list (Z * nat)) :
  In q (insert_desc p l) <-> q = p \/ In q l.
Proof.
  induction l as [| r l IH]; cbn [insert_desc].
  - cbn. intuition congruence.
  - destruct (fst r <=? fst p); cbn [In].
    + intuition congruence.
    + rewrite IH. intuition congruence.
Qed.

Lemma sort_desc_In (lengths : list Z) (q : Z * nat) :
  In q (sort_desc lengths) <-> In q (combine lengths (seq 0 (length lengths))).
Proof.
  unfold sort_desc. generalize (combine lengths (seq 0 (length lengths))).
  intros l. induction l as [| p l IH]; cbn [fold_right]; [reflexivity |].
  rewrite insert_desc_In, IH. cbn [In]. intuition congruence.
Qed.

Lemma In_combine_seq {T : Type} (l : list T) (v : T) (s : nat) :
  In v l -> exists i, In (v, i) (combine l (seq s (length l))).
Proof.
  revert s. induction l as [| x l IH]; intros s Hin; [destruct Hin |].
  cbn [length seq combine]. destruct Hin as [-> | Hin].
  - exists s. left. reflexivity.
  - destruct (IH (S s) Hin) as [i Hi]. exists i. right. exact Hi.
Qed.

Lemma sort_desc_values (lengths : list Z) (v : Z) :
  In v (map fst (sort_desc lengths)) <-> In v lengths.
Proof.
  split.
  - intros Hin. apply in_map_iff in Hin. destruct Hin as [[w i] [<- Hin]].
    apply sort_desc_In in Hin. exact (in_combine_l _ _ _ _ Hin).
  - intros Hin. destruct (In_combine_seq lengths v 0 Hin) as [i Hi].
    apply in_map_iff. exists (v, i). split; [reflexivity |].
    apply sort_desc_In. exact Hi.
Qed.

Lemma sorted_decreasing_hd (l : list Z) :
  sorted_decreasing l = true -> Forall (fun v => v <= hd 0 l) l.
Proof.
  induction l as [| a l IH]; intros Hs; [constructor |].
  cbn [hd]. constructor; [lia |].
  destruct l as [| b l]; [constructor |].
  cbn [sorted_decreasing] in Hs. apply andb_true_iff in Hs. destruct Hs as [Hab Hs].
  apply Z.leb_le in Hab. specialize (IH Hs). cbn [hd] in IH.
  eapply Forall_impl; [| exact IH]. intros v Hv. cbn beta in Hv. lia.
Qed.

Section LanguagePostconditions.
Context {A : Type} `{Scalar A}.
Context {G : Type} `{Random G A}.

(** X18: when [LanguageModel.forward] returns, every label length it was
    given is at least 0, in whatever order, and the output has one more
    timestep than the longest label sequence: the start symbol and then the
    labels. *)
Theorem language_forward_postconditions (m : @LanguageModel A) (x : tensor2 Z)
    (lengths : list Z) (head : bool) (g : G) (out : tensor3 A) :
  LanguageModel_forward m x lengths head g = Ok out ->
  Forall (fun l => 0 <= l) lengths /\
  exists longest,
    In longest lengths /\
    Forall (fun l => l <= longest) lengths /\
    length out = Z.to_nat (longest + 1).
Proof.
  intros Hrun. unfold LanguageModel_forward in Hrun.
  destruct (LanguageModel_pack m x lengths) as [packed | e] eqn:Epack;
    cbn [bind] in Hrun; [| discriminate Hrun].
  destruct (lm_rnn_packed m packed) as [rows | e]; cbn [bind] in Hrun;
    [| discriminate Hrun].
  destruct (Dropout2 (lm_training m) (lm_dropout m) rows g) as [dropped g1].
  apply Ok_inj in Hrun. subst out.
  unfold LanguageModel_pack, pack_padded_sequence in Epack.
  set (L := map (fun l => l + 1) lengths) in *.
  destruct (pack_kernel _ (map fst (sort_desc L))) as [[data bs] | e] eqn:Ek;
    cbn [bind] in Epack; [| discriminate Epack].
  apply Ok_inj in Epack. subst packed.
  destruct (pack_kernel_ok _ _ data bs Ek) as [Hne [Hlast [Hsorted Hsteps]]].
  assert (Hpos : forall v, In v L -> 0 < v).
  { intros v Hv. apply sort_desc_values in Hv.
    pose proof (sorted_decreasing_last _ Hsorted) as Hall.
    rewrite Forall_forall in Hall. specialize (Hall v Hv). lia. }
  assert (Hhd : In (hd 0 (map fst (sort_desc L))) L).
  { apply sort_desc_values. destruct (map fst (sort_desc L)) as [| a l]; [congruence |].
    left. reflexivity. }
  assert (Hmax : forall v, In v L -> v <= hd 0 (map fst (sort_desc L))).
  { intros v Hv. apply sort_desc_values in Hv.
    pose proof (sorted_decreasing_hd _ Hsorted) as Hall.
    rewrite Forall_forall in Hall. exact (Hall v Hv). }
  split.
  - apply Forall_forall. intros l Hl.
    assert (0 < l + 1) by (apply Hpos; exact (in_map (fun l => l + 1) lengths l Hl)). lia.
  - unfold L in Hhd. apply in_map_iff in Hhd. destruct Hhd as [longest [Elong Hin]].
    exists longest. split; [exact Hin |]. split.
    + apply Forall_forall. intros l Hl.
      assert (l + 1 <= hd 0 (map fst (sort_desc L)))
        by (apply Hmax; exact (in_map (fun l => l + 1) lengths l Hl)).
      fold L in Elong. lia.
    + unfold pad_packed_sequence.
      cbn [ps_unsorted_indices ps_batch_sizes ps_data].
      unfold index_select_batch. rewrite length_map, unpack_steps_length.
      rewrite Hsteps. fold L in Elong. rewrite <- Elong. reflexivity.
Qed.

End LanguagePostconditions.

Lemma language_forward_postconditions_witness :
  exists out,
    LanguageModel_forward int_lm [[1; 1]; [1; 0]] [1; 2] false 0%nat = Ok out /\
    Forall (fun l => 0 <= l) [1; 2] /\
    exists longest,
      In longest [1; 2] /\ Forall (fun l => l <= longest) [1; 2] /\
      length out = Z.to_nat (longest + 1).
Proof.
  eexists. split.
  - vm_compute. reflexivity.
  - apply (language_forward_postconditions (A := Z)
             int_lm [[1; 1]; [1; 0]] [1; 2] false 0%nat).
    vm_compute. reflexivity.
Defined.

(** ** The padding of the encoder output *)

Lemma fold_left_Zadd_shift (l : list Z) (a : Z) :
  fold_left Z.add l a = a + fold_left Z.add l 0.
Proof.
  revert a. induction l as [| v l IH]; intros a; cbn [fold_left]; [lia |].
  rewrite (IH (a + v)), (IH (0 + v)). lia.
Qed.

Lemma count_longer_cons (a : Z) (l : list Z) (k : nat) :
  count_longer (a :: l) k
  = Nat.add (if Z.of_nat k <? a then 1%nat else 0%nat) (count_longer l k).
Proof.
  unfold count_longer. cbn [filter]. destruct (Z.of_nat k <? a); reflexivity.
Qed.

(** In a non-increasing list the entries longer than [k] come first. *)
Lemma count_longer_sorted (l : list Z) (k i : nat) (len : Z) :
  sorted_decreasing l = true ->
  nth_error l i = Some len -> len <= Z.of_nat k ->
  (count_longer l k <= i)%nat.
Proof.
  revert i. induction l as [| a l IH]; intros i Hs Hi Hlen.
  - destruct i; discriminate Hi.
  - assert (Hs' : sorted_decreasing l = true).
    { destruct l as [| b l]; [reflexivity |].
      cbn [sorted_decreasing] in Hs. apply andb_true_iff in Hs. apply Hs. }
    rewrite count_longer_cons. destruct i as [| i]; cbn [nth_error] in Hi.
    + injection Hi as ->.
      destruct (Z.ltb_spec (Z.of_nat k) len) as [| Hk]; [lia |]. cbn [Nat.add].
      pose proof (sorted_decreasing_hd (len :: l) Hs) as Hall. cbn [hd] in Hall.
      apply Forall_inv_tail in Hall. unfold count_longer.
      assert (E : filter (fun v => Z.of_nat k <? v) l = []).
      { clear - Hall Hk. induction Hall as [| v l Hv _ IHl]; [reflexivity |].
        cbn [filter]. destruct (Z.ltb_spec (Z.of_nat k) v); [lia | exact IHl]. }
      rewrite E. cbn. lia.
    + specialize (IH i Hs' Hi Hlen). destruct (Z.of_nat k <? a); lia.
Qed.

Section EncoderPadding.
Context {A : Type} `{Scalar A}.

Lemma unpack_steps_padding (batch_sizes : list Z) (n width : nat) :
  Forall (fun b => 0 <= b) batch_sizes ->
  forall (data : tensor2 A) (tt i : nat) (b : Z) (step : tensor2 A) (row : vec A),
    Z.of_nat (length data) = fold_left Z.add batch_sizes 0 ->
    nth_error batch_sizes tt = Some b ->
    nth_error (unpack_steps data batch_sizes n width) tt = Some step ->
    (Z.to_nat b <= i)%nat ->
    nth_error step i = Some row ->
    row = repeat szero width.
Proof.
  induction 1 as [| b0 rest Hb0 Hall IH]; intros data tt i b step row Hdata Hb Hstep Hi Hrow.
  - destruct tt; discriminate Hb.
  - cbn [fold_left] in Hdata. rewrite fold_left_Zadd_shift in Hdata.
    assert (Hrest : 0 <= fold_left Z.add rest 0).
    { clear - Hall. induction Hall as [| v l Hv _ IHl]; cbn [fold_left]; [lia |].
      rewrite fold_left_Zadd_shift. lia. }
    cbn [unpack_steps] in Hstep. destruct tt as [| tt]; cbn [nth_error] in Hb, Hstep.
    + injection Hb as ->. injection Hstep as <-.
      rewrite nth_error_app2 in Hrow by (rewrite length_firstn; lia).
      apply nth_error_In in Hrow. apply repeat_spec in Hrow. exact Hrow.
    + apply (IH (skipn (Z.to_nat b0) data) tt i b step row); try assumption.
      rewrite length_skipn. lia.
Qed.

(** X19: [AcousticModel.forward] returns zero rows as padding.  When the
    recurrent layer, the projection and the head keep the rows of the packed
    sequence, the output row of a sample at a timestep at or beyond the
    returned length of that sample is all zeros. *)
Theorem acoustic_output_is_zero_padded (m : @AcousticModel A) (x : tensor4 A)
    (lengths : list Z) (head : bool) (out : tensor3 A) (lengths' : list Z) :
  am_rows_contract m ->
  AcousticModel_forward m x lengths head = Ok (out, lengths') ->
  forall i len tt row,
    nth_error lengths' i = Some len ->
    len <= Z.of_nat tt ->
    get2 out tt i = Some row ->
    Forall (fun v => v = szero) row.
Proof.
  intros [Hrnn [Hprj Hfc]] Hrun i len tt row Hi Htt Hget.
  unfold AcousticModel_forward in Hrun.
  destruct (MaskConv_forward (am_conv m) x lengths) as [[x1 l1] | e] eqn:Econv;
    cbn [bind] in Hrun; [| discriminate Hrun].
  unfold pack_padded_sequence in Hrun.
  destruct (pack_kernel x1 l1) as [[data bs] | e] eqn:Epack;
    cbn [bind] in Hrun; [| discriminate Hrun].
  destruct (am_rnn m _) as [rows | e] eqn:Ernn; cbn [bind] in Hrun;
    [| discriminate Hrun].
  apply Ok_inj in Hrun. injection Hrun as <- <-.
  destruct (Hrnn _ rows Ernn) as [Hrows Hsum]. cbn [ps_data ps_batch_sizes] in Hrows, Hsum.
  destruct (pack_kernel_ok x1 l1 data bs Epack) as [_ [_ [Hsorted _]]].
  assert (Ebs : bs = map (fun k => Z.of_nat (count_longer l1 k))
                         (seq 0 (Z.to_nat (hd 0 l1)))).
  { unfold pack_kernel in Epack. destruct (size3 x1) as [[t n] f].
    destruct (Nat.eqb (t * n * f) 0); [discriminate Epack |].
    destruct (negb (Nat.eqb (length l1) n)); [discriminate Epack |].
    destruct (last l1 0 <=? 0); [discriminate Epack |].
    destruct (negb (sorted_decreasing l1)); [discriminate Epack |].
    apply Ok_inj in Epack. injection Epack as _ <-. reflexivity. }
  unfold pad_packed_sequence in Hget.
  cbn [ps_unsorted_indices ps_batch_sizes ps_data] in Hget.
  unfold get2 in Hget.
  match type of Hget with
  | context [unpack_steps ?d bs ?n ?w] =>
      set (width := w) in *; set (n0 := n) in *; set (final := d) in *
  end.
  destruct (nth_error (unpack_steps final bs n0 width) tt) as [step |] eqn:Estep;
    [| discriminate Hget].
  assert (Hfinal : length final = length data).
  { unfold final. destruct head.
    - rewrite length_map, Hfc, Hprj, length_map, length_combine, !length_map.
      rewrite Hrows. lia.
    - rewrite Hprj, length_map, length_combine, !length_map. rewrite Hrows. lia. }
  assert (Htt' : (tt < length bs)%nat).
  { apply nth_error_lt in Estep. rewrite unpack_steps_length in Estep. exact Estep. }
  assert (Eb : nth_error bs tt = Some (Z.of_nat (count_longer l1 tt))).
  { rewrite Ebs in Htt' |- *. rewrite length_map, length_seq in Htt'.
    rewrite nth_error_map, nth_error_seq.
    destruct (Nat.ltb_spec tt (Z.to_nat (hd 0 l1))); [reflexivity | lia]. }
  assert (Hrow : row = repeat szero width).
  { apply (unpack_steps_padding bs n0 width) with (data := final) (tt := tt) (i := i)
      (b := Z.of_nat (count_longer l1 tt)) (step := step); try assumption.
    - rewrite Ebs. apply Forall_map. apply Forall_forall. intros k _. lia.
    - rewrite Hfinal. exact Hsum.
    - rewrite Nat2Z.id. exact (count_longer_sorted l1 tt i len Hsorted Hi Htt). }
  rewrite Hrow. apply Forall_forall. intros v Hv. apply repeat_spec in Hv. exact Hv.
Qed.

End EncoderPadding.

Lemma int_am_rows_contract : am_rows_contract int_am.
Proof.
  split; [| split].
  - intros p rows Hrun. cbn [am_rnn int_am] in Hrun. unfold zero_gru in Hrun.
    destruct (Z.eqb_spec (Z.of_nat (length (ps_data p)))
                (fold_left Z.add (ps_batch_sizes p) 0)) as [E | _];
      [| discriminate Hrun].
    apply Ok_inj in Hrun. subst rows. split; [apply length_map | exact E].
  - intros rows. cbn [am_prj int_am]. apply length_map.
  - intros rows. reflexivity.
Qed.

Lemma acoustic_output_is_zero_padded_witness :
  exists out,
    AcousticModel_forward int_am (int_features 2 6) [6; 2] true = Ok (out, [3; 1]) /\
    forall row, get2 out 2 1 = Some row -> Forall (fun v => v = 0) row.
Proof.
  eexists. split.
  - vm_compute. reflexivity.
  - intros row Hget.
    refine (acoustic_output_is_zero_padded (A := Z)
              int_am (int_features 2 6) [6; 2] true _ [3; 1]
              int_am_rows_contract _ 1%nat 1 2%nat row eq_refl _ Hget).
    + vm_compute. reflexivity.
    + lia.
Defined.

(** ** Random draws of the argmax policy *)

Section NoDraws.
Context {A : Type} `{Scalar A}.
Context {G : Type} `{Random G A}.

(** X20: under the argmax policy with dropout inactive the decoder draws no
    random number: when the loop ends the generator is in the state in
    which [greedy_decode] found it, after any number of iterations. *)
Theorem argmax_decoding_draws_nothing (tr : @Transducer A) (xs : tensor3 A)
    (prior : option (vec A)) (epsilon : A) (argmax_mode : bool) (g : G) (k : nat) :
  dropout_active (lm_training (lm tr)) (lm_dropout (lm tr)) = false ->
  ds_rng (decode_state_at tr xs prior false epsilon argmax_mode g k) = g /\
  ds_rng (greedy_loop tr xs prior false epsilon argmax_mode g) = g.
Proof.
  intros Hd.
  assert (Hall : forall j,
             ds_rng (decode_state_at tr xs prior false epsilon argmax_mode g j) = g).
  { induction j as [| j IH].
    - unfold decode_state_at. cbn [seq fold_left]. unfold decode_init.
      destruct (size3 xs) as [[n t] h].
      rewrite (step_features_inactive (lm tr) (start_symbols n) None g g Hd).
      destruct (fst (step_features (lm tr) (start_symbols n) None g))
        as [yd0 [hd0 cd0]].
      reflexivity.
    - rewrite decode_state_at_S. unfold greedy_step, select.
      set (st := decode_state_at tr xs prior false epsilon argmax_mode g j) in *.
      rewrite (step_features_inactive (lm tr) _ _ (ds_rng st) (ds_rng st) Hd).
      destruct (fst (step_features (lm tr)
                       [map argmax (step_logits tr xs prior st j)]
                       (Some (ds_hd st, ds_cd st)) (ds_rng st)))
        as [yd1 [hd1 cd1]].
      cbn [ds_rng]. exact IH. }
  split; [apply Hall |].
  unfold greedy_loop. destruct (size3 xs) as [[n t] h]. apply Hall.
Qed.

End NoDraws.

Lemma argmax_decoding_draws_nothing_witness :
  dropout_active (lm_training (lm int_tr)) (lm_dropout (lm int_tr)) = false /\
  ds_rng (decode_state_at int_tr int_xs None false 0 true 5%nat 1) = 5%nat /\
  ds_rng (greedy_loop int_tr int_xs None false 0 true 5%nat) = 5%nat.
Proof.
  assert (Hd : dropout_active (lm_training (lm int_tr)) (lm_dropout (lm int_tr)) = false)
    by reflexivity.
  split; [exact Hd |].
  exact (argmax_decoding_draws_nothing (A := Z) int_tr int_xs None 0 true 5%nat 1 Hd).
Defined.

(** ** The sizes that [output_time] and [output_dim] announce *)

Lemma broadcast_to_length {T : Type} (n : nat) (l l' : list T) :
  broadcast_to n l = Ok l' -> length l' = n.
Proof.
  unfold broadcast_to. destruct (Nat.eqb_spec (length l) n) as [E | _].
  - intros Hl. apply Ok_inj in Hl. subst l'. exact E.
  - destruct l as [| a [| b l]]; try discriminate.
    intros Hl. apply Ok_inj in Hl. subst l'. apply repeat_length.
Qed.

Lemma zipM_Forall2 {T U V : Type} (f : T -> U -> result V) (R : T -> V -> Prop)
    (l1 : list T) (l2 : list U) (r : list V) :
  (forall a b y, f a b = Ok y -> R a y) ->
  length l2 = length l1 ->
  zipM f l1 l2 = Ok r ->
  Forall2 R l1 r.
Proof.
  intros Hf. revert l2 r. induction l1 as [| a l1 IH]; intros l2 r Hlen Hrun.
  - destruct l2; [| discriminate Hlen]. cbn in Hrun. apply Ok_inj in Hrun.
    subst r. constructor.
  - destruct l2 as [| b l2]; [discriminate Hlen |].
    rewrite zipM_cons in Hrun.
    destruct (f a b) as [y | e] eqn:Ey; cbn [bind] in Hrun; [| discriminate Hrun].
    destruct (zipM f l1 l2) as [ys | e] eqn:Eys; cbn [bind] in Hrun;
      [| discriminate Hrun].
    apply Ok_inj in Hrun. subst r. constructor.
    + exact (Hf a b y Ey).
    + apply (IH l2 ys); [cbn in Hlen; lia | exact Eys].
Qed.

Lemma output_time_axis (layers : list layer) (x : Z) :
  output_time layers x = output_axis layers x ax1.
Proof.
  revert x. induction layers as [| l rest IH]; intros x; [reflexivity |].
  cbn [output_time output_axis]. destruct (decrease_dim x l ax1); cbn [bind];
    [apply IH | reflexivity].
Qed.

Lemma last_channels_any_start (layers : list layer) (a b : Z) :
  Exists (fun l => is_Conv2d l = true) layers ->
  fold_left (fun c l => match l with Conv2d _ oc _ _ _ _ => oc | _ => c end) layers a
  = fold_left (fun c l => match l with Conv2d _ oc _ _ _ _ => oc | _ => c end) layers b.
Proof.
  intros Hex. revert a b. induction layers as [| l rest IH]; intros a b.
  - inversion Hex.
  - cbn [fold_left]. destruct l as [ic oc k s p d | nf | | q]; try reflexivity;
      apply IH; apply Exists_cons in Hex; destruct Hex as [Hl | Hrest];
        try discriminate Hl; exact Hrest.
Qed.

Lemma Forall2_Forall_transport {T U : Type} (R : T -> U -> Prop)
    (P : T -> Prop) (Q : U -> Prop) (l1 : list T) (l2 : list U) :
  (forall a b, R a b -> P a -> Q b) ->
  Forall2 R l1 l2 -> Forall P l1 -> Forall Q l2.
Proof.
  intros HR H2. induction H2 as [| a b l1 l2 Hab _ IH]; intros HP; [constructor |].
  constructor.
  - exact (HR a b Hab (Forall_inv HP)).
  - exact (IH (Forall_inv_tail HP)).
Qed.

Section AnnouncedSizes.
Context {A : Type} `{Scalar A}.

Lemma masked_fill_same_shape (value : A) (x : tensor4 A) (mask : mask4)
    (y : tensor4 A) :
  masked_fill value x mask = Ok y -> same_shape x y.
Proof.
  unfold masked_fill, same_shape.
  destruct (broadcast_to (length x) mask) as [m |] eqn:Em; cbn [bind];
    [| discriminate].
  apply zipM_Forall2; [| exact (broadcast_to_length _ _ _ Em)].
  intros xi mi yi.
  destruct (broadcast_to (length xi) mi) as [mi' |] eqn:Emi; cbn [bind];
    [| discriminate].
  apply zipM_Forall2; [| exact (broadcast_to_length _ _ _ Emi)].
  intros xij mij yij.
  destruct (broadcast_to (length xij) mij) as [mij' |] eqn:Emij; cbn [bind];
    [| discriminate].
  apply zipM_Forall2; [| exact (broadcast_to_length _ _ _ Emij)].
  intros r mr r'. unfold masked_fill_row.
  destruct (broadcast_to (length r) mr) as [mr' |] eqn:Emr; cbn [bind];
    [| discriminate].
  intros Hr. apply Ok_inj in Hr. subst r'.
  apply fill_row_length. exact (broadcast_to_length _ _ _ Emr).
Qed.

Lemma same_shape_shape4 (x y : tensor4 A) (n c d t : nat) :
  same_shape x y -> shape4 n c d t x -> shape4 n c d t y.
Proof.
  unfold same_shape. intros Hxy [Hn Hx].
  split; [rewrite <- (Forall2_length Hxy); exact Hn |].
  refine (Forall2_Forall_transport _ (shape3 c d t) (shape3 c d t) x y _ Hxy Hx).
  intros xi yi Hi [Hc Hxi]. split; [rewrite <- (Forall2_length Hi); exact Hc |].
  refine (Forall2_Forall_transport _ (shape2 d t) (shape2 d t) xi yi _ Hi Hxi).
  intros xij yij Hij [Hd Hxij]. split; [rewrite <- (Forall2_length Hij); exact Hd |].
  refine (Forall2_Forall_transport _ (fun r => length r = t) (fun r => length r = t)
            xij yij _ Hij Hxij).
  intros r r' Hr Ht. cbn beta in *. congruence.
Qed.

Lemma same_shape_size4 (x y : tensor4 A) : same_shape x y -> size4 y = size4 x.
Proof.
  intros Hxy. unfold size4. rewrite <- (Forall2_length Hxy).
  destruct Hxy as [| xi yi x y Hi _]; [reflexivity |]. cbn [hd].
  rewrite <- (Forall2_length Hi).
  destruct Hi as [| xij yij xi yi Hij _]; [reflexivity |]. cbn [hd].
  rewrite <- (Forall2_length Hij).
  destruct Hij as [| r r' xij yij Hr _]; [reflexivity |]. cbn [hd].
  rewrite Hr. reflexivity.
Qed.

Lemma temporal_mask_same_shape (x : tensor4 A) (lengths : list Z)
    (mask : mask4) (y : tensor4 A) :
  temporal_mask x lengths = Ok (mask, y) -> same_shape x y.
Proof.
  unfold temporal_mask. destruct (size4 x) as [[[n c] d] t].
  destruct (build_mask n t lengths) as [mk | e]; cbn [bind]; [| discriminate].
  destruct (masked_fill szero x mk) as [y' | e] eqn:Ey; cbn [bind]; [| discriminate].
  intros Hy. apply Ok_inj in Hy. injection Hy as _ <-.
  exact (masked_fill_same_shape szero x mk y' Ey).
Qed.

Lemma forward_loop_shape (layers : list (@module A)) :
  Forall layer_contract layers ->
  forall (x : tensor4 A) (lengths : list Z) (mask : option mask4)
         (n c d t : nat) (x' : tensor4 A) (lengths' : list Z),
    shape4 n c d t x -> size4 x = (n, c, d, t) ->
    forward_loop layers x lengths mask = Ok (x', lengths') ->
    exists c' d' t',
      shape4 n c' d' t' x' /\ size4 x' = (n, c', d', t') /\
      output_axis (map fst layers) (Z.of_nat t) ax1 = Ok (Z.of_nat t') /\
      output_axis (map fst layers) (Z.of_nat d) ax0 = Ok (Z.of_nat d') /\
      Z.of_nat c'
      = fold_left (fun ch l => match l with Conv2d _ oc _ _ _ _ => oc | _ => ch end)
                  (map fst layers) (Z.of_nat c).
Proof.
  induction layers as [| [l f] rest IH];
    intros Hcon x lengths mask n c d t x' lengths' Hx Hsize Hrun.
  - cbn in Hrun. apply Ok_inj in Hrun. injection Hrun as <- _.
    exists c, d, t. repeat split; assumption || apply Hx.
  - pose proof (Forall_inv Hcon) as Hl. pose proof (Forall_inv_tail Hcon) as Hrest.
    cbn [forward_loop] in Hrun.
    destruct (f x) as [x1 | e] eqn:Ef; cbn [bind] in Hrun; [| discriminate Hrun].
    destruct (Hl n c d t x x1 Hx Hsize Ef)
      as [c1 [d1 [t1 [Hx1 [Hsize1 [Ht1 [Hd1 Hc1]]]]]]].
    cbn [fst] in Ht1, Hd1, Hc1.
    assert (Hstep : forall (y : tensor4 A) lengths1 mask1,
               same_shape x1 y ->
               forward_loop rest y lengths1 mask1 = Ok (x', lengths') ->
               exists c' d' t',
                 shape4 n c' d' t' x' /\ size4 x' = (n, c', d', t') /\
                 output_axis (map fst ((l, f) :: rest)) (Z.of_nat t) ax1
                 = Ok (Z.of_nat t') /\
                 output_axis (map fst ((l, f) :: rest)) (Z.of_nat d) ax0
                 = Ok (Z.of_nat d') /\
                 Z.of_nat c'
                 = fold_left
                     (fun ch l => match l with Conv2d _ oc _ _ _ _ => oc | _ => ch end)
                     (map fst ((l, f) :: rest)) (Z.of_nat c)).
    { intros y lengths1 mask1 Hsame Hrest_run.
      destruct (IH Hrest y lengths1 mask1 n c1 d1 t1 x' lengths'
                  (same_shape_shape4 x1 y n c1 d1 t1 Hsame Hx1)
                  (eq_trans (same_shape_size4 x1 y Hsame) Hsize1) Hrest_run)
        as [c' [d' [t' [Hx' [Hsize' [Ht' [Hd' Hc']]]]]]].
      exists c', d', t'. split; [exact Hx' |]. split; [exact Hsize' |].
      cbn [map fst output_axis fold_left]. rewrite Ht1, Hd1. cbn [bind].
      split; [exact Ht' |]. split; [exact Hd' |].
      rewrite Hc'. f_equal. rewrite Hc1. destruct l; reflexivity. }
    assert (Hrefl : same_shape x1 x1).
    { unfold same_shape. clear. induction x1 as [| xi x1 IHx]; constructor; [| exact IHx].
      clear. induction xi as [| xij xi IHxi]; constructor; [| exact IHxi].
      clear. induction xij as [| r xij IHr]; constructor; [reflexivity | exact IHr]. }
    destruct (is_time_decrease l) as [[|] | e] eqn:Etd; cbn [bind] in Hrun;
      [| | discriminate Hrun].
    + destruct (decrease_dim_lengths lengths l) as [lengths1 | e];
        cbn [bind] in Hrun; [| discriminate Hrun].
      destruct (temporal_mask x1 lengths1) as [[m y] | e] eqn:Etm; cbn [bind] in Hrun;
        [| discriminate Hrun].
      exact (Hstep y lengths1 (Some m) (temporal_mask_same_shape x1 lengths1 m y Etm) Hrun).
    + destruct mask as [m |].
      * destruct (masked_fill szero x1 m) as [y | e] eqn:Ey; cbn [bind] in Hrun;
          [| discriminate Hrun].
        exact (Hstep y lengths (Some m) (masked_fill_same_shape szero x1 m y Ey) Hrun).
      * cbn [bind] in Hrun. exact (Hstep x1 lengths None Hrefl Hrun).
Qed.

Lemma to_time_major_shape (x : tensor4 A) (n c d t : nat) :
  shape4 n c d t x -> size4 x = (n, c, d, t) ->
  shape3 t n (c * d) (to_time_major x).
Proof.
  intros [Hn Hx] Hsize. unfold to_time_major. rewrite Hsize.
  split; [rewrite length_map, length_seq; reflexivity |].
  apply Forall_map. apply Forall_forall. intros tt _.
  split; [rewrite length_map; exact Hn |].
  apply Forall_map. apply Forall_forall. intros xi Hin.
  rewrite length_map. rewrite Forall_forall in Hx. destruct (Hx xi Hin) as [Hc Hxi].
  rewrite (concat_uniform_length d xi), Hc; [reflexivity |].
  eapply Forall_impl; [| exact Hxi]. intros r [Hr _]. exact Hr.
Qed.

(** X21: [output_time] and [output_dim] announce the shape of what
    [MaskConv.forward] returns.  Over layers that respect the shape
    arithmetic, with at least one [Conv2d] in the stack, a successful
    forward pass on an (n, c, d, t) tensor returns a (T', n, H) tensor with
    T' = [output_time](t) and H = [output_dim](d): the size that
    [AcousticModel.__init__] gives the recurrent layer is the width of the
    rows it is fed. *)
Theorem output_sizes_predict_forward (layers : list (@module A)) (x : tensor4 A)
    (lengths : list Z) (n c d t : nat) (out : tensor3 A) (lengths' : list Z) :
  Forall layer_contract layers ->
  Exists (fun l => is_Conv2d l = true) (map fst layers) ->
  shape4 n c d t x -> size4 x = (n, c, d, t) ->
  MaskConv_forward layers x lengths = Ok (out, lengths') ->
  exists t' h',
    output_time (map fst layers) (Z.of_nat t) = Ok (Z.of_nat t') /\
    output_dim (map fst layers) (Z.of_nat d) = Ok (Z.of_nat h') /\
    shape3 t' n h' out.
Proof.
  intros Hcon Hconv Hx Hsize Hrun. unfold MaskConv_forward in Hrun.
  destruct (forward_loop layers x lengths None) as [[x1 l1] | e] eqn:Eloop;
    cbn [bind] in Hrun; [| discriminate Hrun].
  apply Ok_inj in Hrun. injection Hrun as <- _.
  destruct (forward_loop_shape layers Hcon x lengths None n c d t x1 l1 Hx Hsize Eloop)
    as [c' [d' [t' [Hx1 [Hsize1 [Ht' [Hd' Hc']]]]]]].
  exists t', (c' * d')%nat. split; [| split].
  - rewrite output_time_axis. exact Ht'.
  - unfold output_dim. rewrite output_dim_loop_factors, Hd'. cbn [bind].
    rewrite (last_channels_any_start (map fst layers) 0 (Z.of_nat c) Hconv), <- Hc'.
    f_equal. lia.
  - exact (to_time_major_shape x1 n c' d' t' Hx1 Hsize1).
Qed.

End AnnouncedSizes.

Lemma output_sizes_predict_forward_witness :
  exists out,
    MaskConv_forward (am_conv int_am) (int_features 2 6) [6; 2] = Ok (out, [3; 1]) /\
    exists t' h',
      output_time (map fst (am_conv int_am)) (Z.of_nat 6) = Ok (Z.of_nat t') /\
      output_dim (map fst (am_conv int_am)) (Z.of_nat 40) = Ok (Z.of_nat h') /\
      shape3 t' 2 h' out.
Proof.
  eexists. split.
  - vm_compute. reflexivity.
  - refine (output_sizes_predict_forward (A := Z)
              (am_conv int_am) (int_features 2 6) [6; 2] 2 1 40 6 _ [3; 1]
              int_am_contracts _ (int_features_shape 2 6) eq_refl _).
    + apply Exists_cons_hd. reflexivity.
    + vm_compute. reflexivity.
Defined.

(** ** The start symbol *)

Lemma nth_repeat_in_range {T : Type} (v d : T) (n i : nat) :
  (i < n)%nat -> nth i (repeat v n) d = v.
Proof.
  revert i. induction n as [| n IH]; intros i Hi; [lia |].
  destruct i as [| i]; cbn; [reflexivity |]. apply IH. lia.
Qed.

Lemma map_all_const {T U : Type} (f : T -> U) (v : U) (l : list T) :
  (forall i, In i l -> f i = v) -> map f l = repeat v (length l).
Proof.
  induction l as [| a l IH]; intros Hf; [reflexivity |].
  cbn [map length repeat]. rewrite (Hf a (or_introl eq_refl)). f_equal.
  apply IH. intros i Hi. apply Hf. right. exact Hi.
Qed.

Lemma count_longer_all_positive (l : list Z) :
  Forall (fun v => 0 < v) l -> count_longer l 0 = length l.
Proof.
  unfold count_longer. induction 1 as [| v l Hv _ IH]; [reflexivity |].
  cbn [filter]. destruct (Z.ltb_spec (Z.of_nat 0) v); [| cbn in *; lia].
  cbn [length]. rewrite IH. reflexivity.
Qed.

Section StartSymbol.
Context {A : Type} `{Scalar A}.
Context {G : Type} `{Random G A}.

(** The first time step of the packed sequence that sequence mode hands to
    the LSTM: one row per sample, each the embedding of id 0. *)
Lemma LanguageModel_pack_start (m : @LanguageModel A) (x : tensor2 Z)
    (lengths : list Z) (packed : PackedSequence A) :
  length lengths = length (hd [] x) ->
  LanguageModel_pack m x lengths = Ok packed ->
  firstn (length lengths) (ps_data packed)
  = repeat (lm_emb m 0) (length lengths) /\
  hd 0 (ps_batch_sizes packed) = Z.of_nat (length lengths).
Proof.
  intros Hlen Hrun. unfold LanguageModel_pack, pack_padded_sequence in Hrun.
  set (L := map (fun l => l + 1) lengths) in *.
  assert (HL : length L = length lengths) by (unfold L; apply length_map).
  destruct (pack_kernel _ (map fst (sort_desc L))) as [[data bs] | e] eqn:Ek;
    cbn [bind] in Hrun; [| discriminate Hrun].
  apply Ok_inj in Hrun. subst packed. cbn [ps_data ps_batch_sizes].
  destruct (pack_kernel_ok _ _ data bs Ek) as [Hne [Hlast [Hsorted _]]].
  assert (Hpos : Forall (fun v => 0 < v) (map fst (sort_desc L))).
  { eapply Forall_impl; [| exact (sorted_decreasing_last _ Hsorted)].
    intros v Hv. cbn beta in Hv. lia. }
  assert (Hcount : count_longer (map fst (sort_desc L)) 0 = length lengths)
    by (rewrite (count_longer_all_positive _ Hpos), length_map, sort_desc_length;
        exact HL).
  assert (Hsteps : exists k, Z.to_nat (hd 0 (map fst (sort_desc L))) = S k).
  { destruct (map fst (sort_desc L)) as [| a l]; [congruence |].
    cbn [hd]. pose proof (Forall_inv Hpos) as Ha. cbn beta in Ha.
    exists (Nat.pred (Z.to_nat a)). lia. }
  destruct Hsteps as [k Hk].
  assert (Hrow : map (fun i => nth i (repeat (lm_emb m 0) (length (hd [] x))) [])
                     (map snd (sort_desc L))
                 = repeat (lm_emb m 0) (length lengths)).
  { replace (length lengths) with (length (map snd (sort_desc L)))
      by (rewrite length_map, sort_desc_length; exact HL).
    apply map_all_const. intros i Hi.
    apply nth_repeat_in_range. apply in_map_iff in Hi. destruct Hi as [q [<- Hq]].
    assert (Htrue : Forall (fun _ : Z => True) L)
      by (apply Forall_forall; intros; exact I).
    pose proof (sort_desc_Forall (fun _ => True) L Htrue) as Hall.
    rewrite Forall_forall in Hall. destruct (Hall q Hq) as [_ Hlt]. lia. }
  unfold pack_kernel in Ek.
  destruct (size3 _) as [[t n] f] in Ek.
  destruct (Nat.eqb (t * n * f) 0); [discriminate Ek |].
  destruct (negb (Nat.eqb _ n)); [discriminate Ek |].
  destruct (last _ 0 <=? 0); [discriminate Ek |].
  destruct (negb (sorted_decreasing _)); [discriminate Ek |].
  apply Ok_inj in Ek. injection Ek as <- <-.
  rewrite Hk. cbn [seq map concat hd]. rewrite Hcount.
  unfold prepend_start, index_select_batch. cbn [app map nth].
  rewrite map_repeat, Hrow. split; [| reflexivity].
  assert (Efirst : firstn (length lengths) (repeat (lm_emb m 0) (length lengths))
                   = repeat (lm_emb m 0) (length lengths))
    by (apply firstn_all2; rewrite repeat_length; lia).
  rewrite Efirst, firstn_app, Efirst, repeat_length, Nat.sub_diag. cbn [firstn].
  apply app_nil_r.
Qed.

(** C10: the start symbol is vocabulary id 0, whatever blank id the model
    was built with.  In the decode loop the first prediction step runs the
    LSTM, from the missing state, on the embedding of id 0 for every sample,
    and the state that the loop starts from is the result of that step; in
    sequence mode the row put in front of the history is all 0, and the
    first time step of the packed sequence that the LSTM is given holds the
    embedding of id 0 for every sample; with a blank id other than 0 the
    start symbol is not the blank. *)
Theorem start_symbol_is_zero (tr : @Transducer A) (xs : tensor3 A)
    (argmax_mode : bool) (g : G) (x : tensor2 Z) (lengths : list Z)
    (packed : PackedSequence A) :
  (ds_c (decode_init tr xs argmax_mode g) = [repeat 0 (length xs)] /\
   (ds_yd (decode_init tr xs argmax_mode g),
    (ds_hd (decode_init tr xs argmax_mode g),
     ds_cd (decode_init tr xs argmax_mode g)),
    ds_rng (decode_init tr xs argmax_mode g))
   = (let '(y, hs, cs, g1) :=
        rnn (lm tr) [repeat (lm_emb (lm tr) 0) (length xs)] None g in
      let '(y, g2) := prj (lm tr) y g1 in
      (y, (hs, cs), g2))) /\
  prepend_start x = repeat 0 (length (hd [] x)) :: x /\
  (length lengths = length (hd [] x) ->
   LanguageModel_pack (lm tr) x lengths = Ok packed ->
   firstn (length lengths) (ps_data packed)
   = repeat (lm_emb (lm tr) 0) (length lengths) /\
   hd 0 (ps_batch_sizes packed) = Z.of_nat (length lengths)) /\
  (blank tr <> 0 ->
   Forall (fun sym => sym <> blank tr) (hd [] (prepend_start x)) /\
   Forall (Forall (fun sym => sym <> blank tr))
          (ds_c (decode_init tr xs argmax_mode g))).
Proof.
  assert (Hinit : ds_c (decode_init tr xs argmax_mode g) = [repeat 0 (length xs)] /\
                  (ds_yd (decode_init tr xs argmax_mode g),
                   (ds_hd (decode_init tr xs argmax_mode g),
                    ds_cd (decode_init tr xs argmax_mode g)),
                   ds_rng (decode_init tr xs argmax_mode g))
                  = (let '(y, hs, cs, g1) :=
                       rnn (lm tr) [repeat (lm_emb (lm tr) 0) (length xs)] None g in
                     let '(y, g2) := prj (lm tr) y g1 in
                     (y, (hs, cs), g2))).
  { unfold decode_init, size3, start_symbols, step_features.
    cbn [map]. rewrite map_repeat.
    destruct (rnn (lm tr) [repeat (lm_emb (lm tr) 0) (length xs)] None g)
      as [[[y hs] cs] g1].
    destruct (prj (lm tr) y g1) as [y2 g2].
    split; reflexivity. }
  split; [exact Hinit |]. split; [reflexivity |]. split.
  - exact (LanguageModel_pack_start (lm tr) x lengths packed).
  - intros Hblank.
    assert (Hz : forall k, Forall (fun sym => sym <> blank tr) (repeat 0 k)).
    { intros k. apply Forall_forall. intros sym Hin.
      apply repeat_spec in Hin. subst sym. congruence. }
    split.
    + cbn. apply Hz.
    + rewrite (proj1 Hinit). constructor; [apply Hz | constructor].
Qed.

End StartSymbol.

Lemma start_symbol_is_zero_witness :
  blank int_tr_blank1 <> 0 /\
  ds_c (decode_init int_tr_blank1 int_xs true 0%nat) = [[0; 0]] /\
  (exists packed,
      LanguageModel_pack (lm int_tr_blank1) [[1; 1]; [1; 0]] [1; 2] = Ok packed /\
      firstn 2 (ps_data packed) = [[0; 1]; [0; 1]] /\
      hd 0 (ps_batch_sizes packed) = 2) /\
  Forall (fun sym => sym <> blank int_tr_blank1) (hd [] (prepend_start [[1; 1]; [1; 0]])) /\
  Forall (Forall (fun sym => sym <> blank int_tr_blank1))
         (ds_c (decode_init int_tr_blank1 int_xs true 0%nat)).
Proof.
  assert (Hb : blank int_tr_blank1 <> 0) by (cbn; lia).
  destruct (LanguageModel_pack (lm int_tr_blank1) [[1; 1]; [1; 0]] [1; 2])
    as [packed | e] eqn:Epack; [| vm_compute in Epack; discriminate Epack].
  destruct (start_symbol_is_zero (A := Z) int_tr_blank1 int_xs true 0%nat
              [[1; 1]; [1; 0]] [1; 2] packed)
    as [[Hc _] [_ [Hpack Hne]]].
  split; [exact Hb |]. split; [exact Hc |]. split.
  - exists packed. split; [reflexivity |]. exact (Hpack eq_refl Epack).
  - exact (Hne Hb).
Defined.
